(** * rplidar_sdk applications: session lifecycle and scan acquisition

    A shallow embedding of the two capture programs of the repository,
    [app/read_data_bin/main.cpp] (continuous capture into [data.bin]) and
    [app/sample_data/main.cpp] (one capture per advertised scan mode, one CSV
    table per mode), together with the properties of their control flow, of
    the artifacts they write and of the unit conversion applied on export.

    The programs talk to the vendor driver through [ILidarDriver]; the
    driver, the serial channel and the clock are the environment.  The
    environment is an interface (a class of state-passing operations); every
    theorem holds for every implementation of it.  A program is a function
    from the state of the world to an outcome, the new state and the list of
    events (driver calls, console output, file operations) it produced, in
    order. *)

From Stdlib Require Import ZArith QArith Lia List.
From Stdlib Require Import Floats.SpecFloat.
From stdpp Require Import base tactics option list gmap strings pretty sorting.

Local Open Scope Z_scope.

(** ** Data model *)

(** [sl_result] is a 32-bit unsigned result code. *)
Definition sl_result := Z.

(** [float] is IEEE 754 binary32: 24 bits of precision, exponent bound 128,
    with the operations of the Standard Library's specification of
    floating-point arithmetic (round to nearest, ties to even). *)
Definition float := spec_float.
Definition float_prec : Z := 24.
Definition float_emax : Z := 128.

(** Conversion of an integer to [float], as C++ performs it on an integer
    operand of a [float] operation. *)
Definition float_of_int (z : Z) : float :=
  binary_normalize float_prec float_emax z 0 false.
Definition fmul : float -> float -> float := SFmul float_prec float_emax.
Definition fdiv : float -> float -> float := SFdiv float_prec float_emax.

(** The rational number a finite [float] denotes: [m * 2 ^ e] with the
    sign [s]. *)
Definition float_value (f : float) : option Q :=
  match f with
  | S754_zero _ => Some 0%Q
  | S754_finite s m e =>
      let z := if s then Z.neg m else Z.pos m in
      Some (if 0 <=? e then inject_Z (z * 2 ^ e) else (z # 2 ^ Z.to_pos (- e))%Q)
  | _ => None
  end.

(** A pointer returned by a factory is either null or designates an object. *)
Inductive pointer := nullptr | object.

Definition is_null (p : pointer) : bool :=
  match p with nullptr => true | object => false end.

(** The records of namespace [sl] that the programs read.  The fields are
    unsigned integers of the width the field names suggest, kept as [Z]. *)
Module sl.

Record sl_lidar_response_measurement_node_hq_t := {
  angle_z_q14 : Z;
  dist_mm_q2 : Z;
  quality : Z;
  flag : Z
}.

Record sl_lidar_response_device_info_t := {
  firmware_version : Z;
  hardware_version : Z;
  serialnum : list Z
}.

Record sl_lidar_response_device_health_t := {
  status : Z;
  error_code : Z
}.

Record LidarScanMode := {
  id : Z;
  us_per_sample : float;
  max_distance : float;
  ans_type : Z;
  scan_mode : string
}.

End sl.

Definition node : Type := sl.sl_lidar_response_measurement_node_hq_t.

(** The node buffer is a C array: a map from index to node.  The [count]
    that accompanies it tells how many leading slots are meaningful. *)
Definition buffer := nat -> node.

(** The first [n] slots of a buffer. *)
Definition slots (nodes : buffer) (n : Z) : list node :=
  map nodes (seq 0 (Z.to_nat n)).

(** ** What the vendor header declares

    [sl_lidar.h] and [sl_lidar_driver.h] are not part of the application
    sources.  What the applications use of them -- the result codes, the two
    macros that judge a result, the status and flag constants, the boolean
    conversion of [Result<T>] and the object representation of a measurement
    node -- is taken as a parameter. *)
Class SlHeader := {
  SL_RESULT_OK : sl_result;
  SL_RESULT_ALREADY_DONE : sl_result;
  SL_RESULT_INVALID_DATA : sl_result;
  SL_RESULT_OPERATION_FAIL : sl_result;
  SL_RESULT_OPERATION_TIMEOUT : sl_result;
  SL_RESULT_OPERATION_STOP : sl_result;
  SL_RESULT_OPERATION_NOT_SUPPORT : sl_result;
  SL_RESULT_FORMAT_NOT_SUPPORT : sl_result;
  SL_RESULT_INSUFFICIENT_MEMORY : sl_result;
  SL_IS_OK : sl_result -> bool;
  SL_IS_FAIL : sl_result -> bool;
  Result_bool : sl_result -> bool;
  SL_LIDAR_STATUS_ERROR : Z;
  SL_LIDAR_RESP_MEASUREMENT_QUALITY_SHIFT : Z;
  SL_LIDAR_RESP_HQ_FLAG_SYNCBIT : Z;
  (** [sizeof(sl_lidar_response_measurement_node_hq_t)] and the bytes of a
      node in memory *)
  sizeof_node : Z;
  node_repr : node -> list Byte.byte;
  node_repr_length : forall n, Z.of_nat (length (node_repr n)) = sizeof_node;
  (** the 8192-node array is an object, so its size is a [size_t] *)
  sizeof_node_array : 0 < sizeof_node /\ 8192 * sizeof_node < 2 ^ 64
}.

(** ** The environment: driver, channel factory and clock

    Every operation takes the state of the environment and returns its
    answer with the next state.  Output parameters are returned with the
    result code: the value is what the variable holds after the call. *)
Class Sdk (E : Type) := {
  sdk_createSerialPortChannel : string -> Z -> E -> (sl_result * pointer) * E;
  sdk_createLidarDriver : E -> (sl_result * pointer) * E;
  drv_connect : E -> sl_result * E;
  drv_getDeviceInfo : E -> (sl_result * sl.sl_lidar_response_device_info_t) * E;
  drv_getHealth : E -> (sl_result * sl.sl_lidar_response_device_health_t) * E;
  drv_setMotorSpeed : E -> sl_result * E;
  drv_getAllSupportedScanModes : E -> (sl_result * list sl.LidarScanMode) * E;
  drv_startScan : bool -> bool -> E -> sl_result * E;
  drv_startScanExpress : bool -> Z -> Z -> E -> (sl_result * sl.LidarScanMode) * E;
  (** [grabScanDataHq(nodebuffer, count)]: [count] holds the capacity of the
      buffer on entry and the number of nodes stored on return *)
  drv_grabScanDataHq : Z -> E -> (sl_result * buffer * Z) * E;
  drv_ascendScanData : buffer -> Z -> E -> (sl_result * buffer) * E;
  drv_stop : E -> sl_result * E;
  (** [std::chrono::steady_clock::now()], in ticks of the clock, and the
      conversion of a number of ticks to whole milliseconds *)
  clock_now : E -> Z * E;
  duration_cast_milliseconds : Z -> Z;
  (** the driver never reports more nodes than the buffer can hold *)
  drv_grabScanDataHq_count : forall capacity e,
    0 <= capacity ->
    0 <= (drv_grabScanDataHq capacity e).1.2 <= capacity
}.

(** ** Events and artifacts *)

Inductive Stream := Stdout | Stderr.

(** An argument of a format string.  Format strings are kept as the source
    spells them (escape sequences included); rendering is [fmt]'s business. *)
Inductive FmtArg :=
| ArgInt (z : Z)
| ArgFloat (f : float)
| ArgStr (s : string).

(** What one output operation appends to a file. *)
Inductive Chunk :=
| Formatted (fmt : string) (args : list FmtArg)
| Raw (bytes : list Byte.byte).

Inductive Event :=
| EvCreateSerialPortChannel (device : string) (baudrate : Z) (err : sl_result)
    (value : pointer)
| EvCreateLidarDriver (err : sl_result) (value : pointer)
| EvConnect (res : sl_result)
| EvGetDeviceInfo (res : sl_result)
| EvGetHealth (res : sl_result) (status : Z)
| EvSetMotorSpeed (res : sl_result)
| EvGetAllSupportedScanModes (res : sl_result) (modes : list sl.LidarScanMode)
| EvStartScan (force useTypicalScan : bool) (res : sl_result)
| EvStartScanExpress (force : bool) (scanMode options : Z) (res : sl_result)
    (outUsedScanMode : sl.LidarScanMode)
| EvGrabScanDataHq (capacity : Z) (res : sl_result) (nodes : buffer) (count : Z)
| EvAscendScanData (count : Z) (res : sl_result) (nodes : buffer)
| EvStop (res : sl_result)
| EvClockNow (t : Z)
| EvPrint (to : Stream) (fmt : string) (args : list FmtArg)
| EvOpen (path : string)
| EvWrite (path : string) (c : Chunk).

(** The bytes of a file written with [write] only. *)
Definition chunk_bytes (c : Chunk) : list Byte.byte :=
  match c with
  | Raw bs => bs
  | Formatted _ _ => []
  end.

Definition file_bytes (f : list Chunk) : list Byte.byte :=
  flat_map chunk_bytes f.

(** ** Object representation of [size_t]

    [size_t] is the 64-bit unsigned integer of the LP64 targets the programs
    are built for (they open [/dev/ttyUSB0]); its bytes are little-endian. *)
Definition sizeof_size_t : Z := 8.
Definition SIZE_MAX_succ : Z := 2 ^ 64.

Definition byte_of_Z (z : Z) : Byte.byte :=
  default Byte.x00 (Byte.of_N (Z.to_N (z mod 256))).

Fixpoint le_bytes (n : nat) (z : Z) : list Byte.byte :=
  match n with
  | O => []
  | S n' => byte_of_Z z :: le_bytes n' (z / 256)
  end.

Definition size_t_repr (z : Z) : list Byte.byte :=
  le_bytes (Z.to_nat sizeof_size_t) (z mod SIZE_MAX_succ).

(** The number a little-endian sequence of bytes stands for. *)
Definition le_value (bs : list Byte.byte) : Z :=
  fold_right (fun b acc => Z.of_N (Byte.to_N b) + 256 * acc) 0 bs.

(** [(int)count]: conversion of a [size_t] to a 32-bit signed integer. *)
Definition int_of_size_t (z : Z) : Z :=
  (z + 2 ^ 31) mod 2 ^ 32 - 2 ^ 31.

(** ** Programs

    A program maps the world (environment and file system) to its result,
    the world it leaves and the events it produced.  [Exit] is a call of
    [exit]; [Running] is a loop that has not finished within the number of
    iterations it was observed for.  Storage is reliable: opening and
    writing a file succeed. *)
Inductive Res (A : Type) :=
| Ret (a : A)
| Exit (code : Z)
| Running.
Arguments Ret {A} a.
Arguments Exit {A} code.
Arguments Running {A}.

Record World (E : Type) := {
  env : E;
  fs : gmap string (list Chunk)
}.
Arguments env {E} w.
Arguments fs {E} w.

Definition M (E A : Type) : Type := World E -> Res A * World E * list Event.

Section Monad.

Context {E : Type}.

Definition ret {A} (a : A) : M E A := fun w => (Ret a, w, []).

Definition bind {A B} (m : M E A) (k : A -> M E B) : M E B :=
  fun w =>
    match m w with
    | (Ret a, w1, t1) =>
        match k a w1 with
        | (r, w2, t2) => (r, w2, t1 ++ t2)
        end
    | (Exit code, w1, t1) => (Exit code, w1, t1)
    | (Running, w1, t1) => (Running, w1, t1)
    end.

(** [exit(code)] ends the process where it stands. *)
Definition exit {A} (code : Z) : M E A := fun w => (Exit code, w, []).

Definition running {A} : M E A := fun w => (Running, w, []).

(** One call of the environment, recorded in the trace. *)
Definition call {A} (op : E -> A * E) (ev : A -> Event) : M E A :=
  fun w =>
    match op (env w) with
    | (a, e') => (Ret a, {| env := e'; fs := fs w |}, [ev a])
    end.

Definition emit (ev : Event) : M E unit := fun w => (Ret tt, w, [ev]).

(** Console output. [println] is [print] with a line end after the text. *)
Definition print (to : Stream) (fmt : string) (args : list FmtArg) : M E unit :=
  emit (EvPrint to fmt args).

Definition println (to : Stream) (fmt : string) (args : list FmtArg) : M E unit :=
  emit (EvPrint to (fmt +:+ "\n") args).

(** Opening a file for output creates it or empties it. *)
Definition open (path : string) : M E unit :=
  fun w => (Ret tt, {| env := env w; fs := <[path := []]> (fs w) |}, [EvOpen path]).

(** An output operation appends a chunk to the open file. *)
Definition write (path : string) (c : Chunk) : M E unit :=
  fun w =>
    (Ret tt,
     {| env := env w; fs := <[path := default [] (fs w !! path) ++ [c]]> (fs w) |},
     [EvWrite path c]).

End Monad.

Declare Scope prog_scope.
Delimit Scope prog_scope with prog.
Notation "'let*' x ':=' m 'in' k" := (bind m (fun x => k))
  (at level 10, x pattern, m at level 99, k at level 200) : prog_scope.
Notation "m ;;; k" := (bind m (fun _ => k))
  (at level 100, k at level 200, right associativity) : prog_scope.

Local Open Scope prog_scope.

Section Loops.

Context {E : Type}.

(** A range-based [for] over a container, and a counted [for]. *)
Fixpoint for_each {A} (l : list A) (body : A -> M E unit) : M E unit :=
  match l with
  | [] => ret tt
  | x :: l' => body x ;;; for_each l' body
  end.

(** [for (;;)] whose body may [return] from the enclosing function
    ([Some code]) or fall through to the next iteration ([None]).  [fuel]
    bounds the iterations observed. *)
Fixpoint forever (fuel : nat) (body : M E (option Z)) : M E Z :=
  match fuel with
  | O => running
  | S fuel' =>
      let* r := body in
      match r with
      | Some code => ret code
      | None => forever fuel' body
      end
  end.

End Loops.

(** ** Code shared by the applications

    [checkSLAMTECLIDARHealth], [resultErrorString], [makeChannel],
    [makeDriver] and the first half of [main] (up to the health check) are
    the same text in [read_data_bin/main.cpp] and [sample_data/main.cpp]. *)
Section Common.

Context `{Hdr : SlHeader} {E : Type} `{Env : Sdk E}.

(** *** Driver calls *)

Definition createSerialPortChannel (device : string) (baudrate : Z)
  : M E (sl_result * pointer) :=
  call (sdk_createSerialPortChannel device baudrate)
       (fun r => EvCreateSerialPortChannel device baudrate r.1 r.2).

Definition createLidarDriver : M E (sl_result * pointer) :=
  call sdk_createLidarDriver (fun r => EvCreateLidarDriver r.1 r.2).

Definition connect : M E sl_result :=
  call drv_connect EvConnect.

Definition getDeviceInfo : M E (sl_result * sl.sl_lidar_response_device_info_t) :=
  call drv_getDeviceInfo (fun r => EvGetDeviceInfo r.1).

Definition getHealth : M E (sl_result * sl.sl_lidar_response_device_health_t) :=
  call drv_getHealth (fun r => EvGetHealth r.1 (sl.status r.2)).

Definition setMotorSpeed : M E sl_result :=
  call drv_setMotorSpeed EvSetMotorSpeed.

Definition getAllSupportedScanModes : M E (sl_result * list sl.LidarScanMode) :=
  call drv_getAllSupportedScanModes (fun r => EvGetAllSupportedScanModes r.1 r.2).

Definition startScan (force useTypicalScan : bool) : M E sl_result :=
  call (drv_startScan force useTypicalScan) (EvStartScan force useTypicalScan).

Definition startScanExpress (force : bool) (scanMode options : Z)
  : M E (sl_result * sl.LidarScanMode) :=
  call (drv_startScanExpress force scanMode options)
       (fun r => EvStartScanExpress force scanMode options r.1 r.2).

Definition grabScanDataHq (count : Z) : M E (sl_result * buffer * Z) :=
  call (drv_grabScanDataHq count)
       (fun r => EvGrabScanDataHq count r.1.1 r.1.2 r.2).

Definition ascendScanData (nodes : buffer) (count : Z) : M E (sl_result * buffer) :=
  call (drv_ascendScanData nodes count)
       (fun r => EvAscendScanData count r.1 r.2).

Definition stop : M E sl_result :=
  call drv_stop EvStop.

Definition now : M E Z :=
  call clock_now EvClockNow.

(** *** [checkSLAMTECLIDARHealth] *)
Definition checkSLAMTECLIDARHealth : M E bool :=
  let* (op_result, healthinfo) := getHealth in
  if SL_IS_OK op_result then
    println Stdout "SLAMTEC Lidar health status : {}" [ArgInt (sl.status healthinfo)] ;;;
    if sl.status healthinfo =? SL_LIDAR_STATUS_ERROR then
      println Stderr
        "Error, slamtec lidar internal error detected. Please reboot the device to retry."
        [] ;;;
      ret false
    else
      ret true
  else
    println Stderr "Error, cannot retrieve the lidar health code: {:x}"
      [ArgInt op_result] ;;;
    ret false.

(** *** [resultErrorString] *)
Definition resultErrorString (res : sl_result) : string :=
  if res =? SL_RESULT_OK then "No Error"
  else if res =? SL_RESULT_ALREADY_DONE then "ALREADY_DONE"
  else if res =? SL_RESULT_INVALID_DATA then "INVALID_DATA"
  else if res =? SL_RESULT_OPERATION_FAIL then "OPERATION_FAIL"
  else if res =? SL_RESULT_OPERATION_TIMEOUT then "OPERATION_TIMEOUT"
  else if res =? SL_RESULT_OPERATION_STOP then "OPERATION_STOP"
  else if res =? SL_RESULT_OPERATION_NOT_SUPPORT then "OPERATION_NOT_SUPPORT"
  else if res =? SL_RESULT_FORMAT_NOT_SUPPORT then "FORMAT_NOT_SUPPORT"
  else if res =? SL_RESULT_INSUFFICIENT_MEMORY then "INSUFFICIENT_MEMORY"
  else "Other Error".

(** *** [makeChannel] *)
Definition makeChannel (device : string) (baudrate : Z) : M E pointer :=
  let* (err, value) := createSerialPortChannel device baudrate in
  if negb (Result_bool err) then
    println Stderr "Failed to create channel: {}" [ArgStr (resultErrorString err)] ;;;
    exit (-1)
  else
    let channel := value in
    if is_null channel then
      println Stderr "insufficent memory, exit" [] ;;;
      exit (-2)
    else
      ret channel.

(** *** [makeDriver] *)
Definition makeDriver (channel : pointer) : M E pointer :=
  let* (err, value) := createLidarDriver in
  if negb (Result_bool err) then
    println Stderr "Failed to create lidar driver: {}" [ArgStr (resultErrorString err)] ;;;
    exit (-1)
  else
    let drv := value in
    if is_null drv then
      println Stderr "insufficent memory, exit" [] ;;;
      exit (-2)
    else
      let* res := connect in
      if SL_IS_FAIL res then
        println Stderr "Failed to connect channel to driver: {}"
          [ArgStr (resultErrorString res)] ;;;
        exit (-1)
      else
        ret drv.

(** *** The first half of [main]

    From the creation of the channel to the health check.  [Some code] is
    [return code]; [None] lets [main] go on. *)
Definition prologue : M E (option Z) :=
  let* channel := makeChannel "/dev/ttyUSB0" 115200 in
  let* drv := makeDriver channel in
  let* (res, devinfo) := getDeviceInfo in
  if SL_IS_FAIL res then
    println Stderr "Failed to get device info: {}" [ArgStr (resultErrorString res)] ;;;
    ret (Some (-1))
  else
    print Stdout "SLAMTEC LIDAR S/N: " [] ;;;
    for_each (seq 0 16) (fun pos =>
      print Stdout "{:02x}" [ArgInt (nth pos (sl.serialnum devinfo) 0)]) ;;;
    print Stdout "\nFirmware Ver: {}.{:02}\nHardware Rev: {}\n"
      [ArgInt (Z.shiftr (sl.firmware_version devinfo) 8);
       ArgInt (Z.land (sl.firmware_version devinfo) 255);
       ArgInt (sl.hardware_version devinfo)] ;;;
    let* healthy := checkSLAMTECLIDARHealth in
    if negb healthy then
      ret (Some (-1))
    else
      ret None.

(** [main] is the prologue followed by what the program does with a
    healthy device. *)
Definition session (acquire : M E Z) : M E Z :=
  let* r := prologue in
  match r with
  | Some code => ret code
  | None => acquire
  end.

End Common.

(** ** [app/read_data_bin/main.cpp]: continuous capture *)
Module ReadDataBin.
Section Program.

Context `{Hdr : SlHeader} {E : Type} `{Env : Sdk E}.

(** The bytes [write(ptr, n)] takes from the node array: the first [n]
    bytes of the representation of its elements. *)
Definition array_bytes (nodes : buffer) (n : Z) : list Byte.byte :=
  take (Z.to_nat n) (flat_map node_repr (slots nodes n)).

(** The body of the [for (;;)] loop. *)
Definition capture : M E (option Z) :=
  let count := 8192 in
  let* (op_result, nodes, count) := grabScanDataHq count in
  if SL_IS_FAIL op_result then
    println Stderr "Failed to read from lidar: {}"
      [ArgStr (resultErrorString op_result)] ;;;
    stop ;;;
    ret (Some (-1))
  else
    let* (_, nodes) := ascendScanData nodes count in
    write "data.bin" (Raw (size_t_repr count)) ;;;
    write "data.bin"
      (Raw (array_bytes nodes ((count * sizeof_node) mod SIZE_MAX_succ))) ;;;
    ret None.

(** What [main] does after the health check.  The [stop] and [return 0]
    that follow the loop in the source cannot be reached. *)
Definition acquire (fuel : nat) : M E Z :=
  setMotorSpeed ;;;
  open "data.bin" ;;;
  println Stdout "Reading from lidar..." [] ;;;
  startScan false true ;;;
  forever fuel capture.

Definition main (fuel : nat) : M E Z := session (acquire fuel).

End Program.
End ReadDataBin.

(** ** [app/sample_data/main.cpp]: one capture per scan mode *)
Module SampleData.
Section Program.

Context `{Hdr : SlHeader} {E : Type} `{Env : Sdk E}.

Definition strlen (s : string) : Z := Z.of_nat (String.length s).

(** The longest mode name, for the alignment of the console report. *)
Definition max_name_len (modes : list sl.LidarScanMode) : Z :=
  fold_left
    (fun max_name_len mode =>
       let name_len := strlen (sl.scan_mode mode) in
       if name_len >? max_name_len then name_len else max_name_len)
    modes 0.

(** [fmt::format("{}_{}_data.csv", mode.id, mode.scan_mode)] *)
Definition filename (mode : sl.LidarScanMode) : string :=
  pretty (sl.id mode) +:+ "_" +:+ sl.scan_mode mode +:+ "_data.csv".

(** The unit conversion of the export. *)
Definition theta (n : node) : float :=
  fdiv (fmul (float_of_int (sl.angle_z_q14 n)) (float_of_int 90)) (float_of_int 16384).

Definition dist (n : node) : float :=
  fdiv (float_of_int (sl.dist_mm_q2 n)) (float_of_int 4).

(** One line of the table. *)
Definition row (n : node) : Chunk :=
  Formatted "{},{},{},{}\n"
    [ArgFloat (theta n);
     ArgFloat (dist n);
     ArgInt (Z.shiftr (sl.quality n) SL_LIDAR_RESP_MEASUREMENT_QUALITY_SHIFT);
     ArgStr (if Z.land (sl.flag n) SL_LIDAR_RESP_HQ_FLAG_SYNCBIT =? 0 then "" else "S")].

Definition header : Chunk := Formatted "theta,dist,q,flag\n" [].

(** The body of the loop over the scan modes. *)
Definition sweep (max_name_len : Z) (mode : sl.LidarScanMode) : M E unit :=
  println Stdout "{} {:{}s} answer type: {:02x} us/sample: {:f} max dist: {:f} m"
    [ArgInt (sl.id mode); ArgStr (sl.scan_mode mode); ArgInt max_name_len;
     ArgInt (sl.ans_type mode); ArgFloat (sl.us_per_sample mode);
     ArgFloat (sl.max_distance mode)] ;;;
  let filename := filename mode in
  open filename ;;;
  write filename header ;;;
  let* start := now in
  let* (_, actualMode) := startScanExpress false (sl.id mode) 0 in
  println Stdout "    Working in mode {} {}"
    [ArgInt (sl.id actualMode); ArgStr (sl.scan_mode actualMode)] ;;;
  let* mid := now in
  let count := 8192 in
  println Stdout "    Got {} points" [ArgInt count] ;;;
  let* (op_result, nodes, count) := grabScanDataHq count in
  let* end_ := now in
  (if SL_IS_OK op_result then
     let* (_, nodes) := ascendScanData nodes count in
     for_each (seq 0 (Z.to_nat (int_of_size_t count)))
       (fun pos => write filename (row (nodes pos)))
   else
     ret tt) ;;;
  let dtotal_ms := duration_cast_milliseconds (end_ - start) in
  let dfirst_ms := duration_cast_milliseconds (mid - start) in
  let dsecond_ms := duration_cast_milliseconds (end_ - mid) in
  println Stdout "    Total time: {} ms parts are [start: {} ms, read:    {} ms]"
    [ArgInt dtotal_ms; ArgInt dfirst_ms; ArgInt dsecond_ms].

(** What [main] does after the health check. *)
Definition acquire : M E Z :=
  setMotorSpeed ;;;
  let* (res, modes) := getAllSupportedScanModes in
  if SL_IS_FAIL res then
    println Stderr "Failed to get scan modes" [] ;;;
    ret (-1)
  else
    let max_name_len := max_name_len modes in
    for_each modes (sweep max_name_len) ;;;
    stop ;;;
    ret 0.

Definition main : M E Z := session acquire.

End Program.
End SampleData.

(** ** Observations on traces *)

(** The result codes of the retrievals, the scan modes asked for, the
    batches [ascendScanData] left, the files opened and the reports on the
    error stream, each in the order of the trace. *)
Definition grab_results (t : list Event) : list sl_result :=
  omap (fun e => match e with
                 | EvGrabScanDataHq _ res _ _ => Some res
                 | _ => None
                 end) t.

Definition express_modes (t : list Event) : list Z :=
  omap (fun e => match e with
                 | EvStartScanExpress _ scanMode _ _ _ => Some scanMode
                 | _ => None
                 end) t.

Definition ascended (t : list Event) : list (list node) :=
  omap (fun e => match e with
                 | EvAscendScanData count _ nodes => Some (slots nodes count)
                 | _ => None
                 end) t.

Definition opened (t : list Event) : list string :=
  omap (fun e => match e with
                 | EvOpen path => Some path
                 | _ => None
                 end) t.

Definition stderr_reports (t : list Event) : list (string * list FmtArg) :=
  omap (fun e => match e with
                 | EvPrint Stderr fmt args => Some (fmt, args)
                 | _ => None
                 end) t.

Definition stops (t : list Event) : list sl_result :=
  omap (fun e => match e with
                 | EvStop res => Some res
                 | _ => None
                 end) t.

(** Motor start and scan start. *)
Definition starts_motor_or_scan (e : Event) : bool :=
  match e with
  | EvSetMotorSpeed _ | EvStartScan _ _ _ | EvStartScanExpress _ _ _ _ _ => true
  | _ => false
  end.

(** Scan start and sample retrieval. *)
Definition starts_scan_or_grabs (e : Event) : bool :=
  match e with
  | EvStartScan _ _ _ | EvStartScanExpress _ _ _ _ _ | EvGrabScanDataHq _ _ _ _ => true
  | _ => false
  end.

(** The chunks written up to the next [open], and the files a trace
    produces: every [open] starts a file, the writes that follow fill it. *)
Fixpoint writes_until_open (t : list Event) : list Chunk :=
  match t with
  | [] => []
  | EvOpen _ :: _ => []
  | EvWrite _ c :: t' => c :: writes_until_open t'
  | _ :: t' => writes_until_open t'
  end.

Fixpoint files_written (t : list Event) : list (string * list Chunk) :=
  match t with
  | [] => []
  | EvOpen path :: t' => (path, writes_until_open t') :: files_written t'
  | _ :: t' => files_written t'
  end.

(** [P e post] holds wherever [e] occurs in the trace with [post] after it. *)
Definition each_suffix (P : Event -> list Event -> Prop) (t : list Event) : Prop :=
  forall pre e post, t = pre ++ e :: post -> P e post.

(** The exit status of the process: the value [main] returns or the
    argument of [exit]; none while the program runs. *)
Definition exit_status (r : Res Z) : option Z :=
  match r with
  | Ret code => Some code
  | Exit code => Some code
  | Running => None
  end.

(** Angles in ascending order.  [angle_z_q14] is a 16-bit fixed-point
    angle, 16384 to the quarter turn, so its range is one revolution. *)
Definition ascending (l : list node) : Prop :=
  Sorted (fun a b => sl.angle_z_q14 a <= sl.angle_z_q14 b) l.

(** A measurement record of continuous capture: the count, then the nodes. *)
Section Block.
Context `{Hdr : SlHeader}.

Definition block (batch : list node) : list Byte.byte :=
  size_t_repr (Z.of_nat (length batch)) ++ flat_map node_repr batch.

End Block.

(** ** The shape of one iteration

    The answers the environment gives during one iteration of a loop, and
    the events and chunks the iteration produces from them. *)
Record SweepReply := {
  sr_start : Z;
  sr_express : sl_result * sl.LidarScanMode;
  sr_mid : Z;
  sr_grab : sl_result * buffer * Z;
  sr_end : Z;
  sr_ascend : sl_result * buffer
}.

Record CaptureReply := {
  cr_grab : sl_result * buffer * Z;
  cr_ascend : sl_result * buffer
}.

Section Shapes.
Context `{Hdr : SlHeader} {E : Type} `{Env : Sdk E}.

Definition sweep_rows (rp : SweepReply) : list node :=
  if SL_IS_OK (sr_grab rp).1.1
  then slots (sr_ascend rp).2 (int_of_size_t (sr_grab rp).2)
  else [].

Definition sweep_file (rp : SweepReply) : list Chunk :=
  SampleData.header :: map SampleData.row (sweep_rows rp).

Definition sweep_events (k : Z) (m : sl.LidarScanMode) (rp : SweepReply) : list Event :=
  [EvPrint Stdout "{} {:{}s} answer type: {:02x} us/sample: {:f} max dist: {:f} m\n"
     [ArgInt (sl.id m); ArgStr (sl.scan_mode m); ArgInt k;
      ArgInt (sl.ans_type m); ArgFloat (sl.us_per_sample m);
      ArgFloat (sl.max_distance m)];
   EvOpen (SampleData.filename m);
   EvWrite (SampleData.filename m) SampleData.header;
   EvClockNow (sr_start rp);
   EvStartScanExpress false (sl.id m) 0 (sr_express rp).1 (sr_express rp).2;
   EvPrint Stdout "    Working in mode {} {}\n"
     [ArgInt (sl.id (sr_express rp).2); ArgStr (sl.scan_mode (sr_express rp).2)];
   EvClockNow (sr_mid rp);
   EvPrint Stdout "    Got {} points\n" [ArgInt 8192];
   EvGrabScanDataHq 8192 (sr_grab rp).1.1 (sr_grab rp).1.2 (sr_grab rp).2;
   EvClockNow (sr_end rp)]
  ++ (if SL_IS_OK (sr_grab rp).1.1
      then EvAscendScanData (sr_grab rp).2 (sr_ascend rp).1 (sr_ascend rp).2
           :: map (fun n => EvWrite (SampleData.filename m) (SampleData.row n))
                  (sweep_rows rp)
      else [])
  ++ [EvPrint Stdout "    Total time: {} ms parts are [start: {} ms, read:    {} ms]\n"
        [ArgInt (duration_cast_milliseconds (sr_end rp - sr_start rp));
         ArgInt (duration_cast_milliseconds (sr_mid rp - sr_start rp));
         ArgInt (duration_cast_milliseconds (sr_end rp - sr_mid rp))]].

Definition capture_batch (rp : CaptureReply) : list node :=
  slots (cr_ascend rp).2 (cr_grab rp).2.

Definition capture_chunks (rp : CaptureReply) : list Chunk :=
  [Raw (size_t_repr (cr_grab rp).2);
   Raw (ReadDataBin.array_bytes (cr_ascend rp).2
          (((cr_grab rp).2 * sizeof_node) mod SIZE_MAX_succ))].

Definition capture_events (rp : CaptureReply) : list Event :=
  EvGrabScanDataHq 8192 (cr_grab rp).1.1 (cr_grab rp).1.2 (cr_grab rp).2
  :: EvAscendScanData (cr_grab rp).2 (cr_ascend rp).1 (cr_ascend rp).2
  :: map (EvWrite "data.bin") (capture_chunks rp).

(** The end of a capture: the failed retrieval, its report and the stop. *)
Definition capture_failure (res : sl_result) (nodes : buffer) (count : Z)
    (stopped : sl_result) : list Event :=
  [EvGrabScanDataHq 8192 res nodes count;
   EvPrint Stderr "Failed to read from lidar: {}\n" [ArgStr (resultErrorString res)];
   EvStop stopped].

(** The report of the device information. *)
Definition device_info_report (devinfo : sl.sl_lidar_response_device_info_t)
    : list Event :=
  EvPrint Stdout "SLAMTEC LIDAR S/N: " []
  :: map (fun pos => EvPrint Stdout "{:02x}" [ArgInt (nth pos (sl.serialnum devinfo) 0)])
         (seq 0 16)
  ++ [EvPrint Stdout "\nFirmware Ver: {}.{:02}\nHardware Rev: {}\n"
        [ArgInt (Z.shiftr (sl.firmware_version devinfo) 8);
         ArgInt (Z.land (sl.firmware_version devinfo) 255);
         ArgInt (sl.hardware_version devinfo)]].

End Shapes.

(** ** The outcomes of the prologue *)

(** A result with more events in front of it. *)
Definition prepend {E A} (t : list Event) (x : Res A * World E * list Event)
    : Res A * World E * list Event :=
  (x.1.1, x.1.2, t ++ x.2).

(** The three calls that open a session, when each one has succeeded. *)
Definition session_opening (err_channel err_driver connected : sl_result)
    : list Event :=
  [EvCreateSerialPortChannel "/dev/ttyUSB0" 115200 err_channel object;
   EvCreateLidarDriver err_driver object;
   EvConnect connected].

Section Outcomes.
Context `{Hdr : SlHeader}.

(** Every way the prologue can end, with the trace it leaves. *)
Inductive prologue_outcome : Res (option Z) -> list Event -> Prop :=
| Channel_failed err value :
    Result_bool err = false ->
    prologue_outcome (Exit (-1))
      [EvCreateSerialPortChannel "/dev/ttyUSB0" 115200 err value;
       EvPrint Stderr "Failed to create channel: {}\n" [ArgStr (resultErrorString err)]]
| Channel_null err :
    Result_bool err = true ->
    prologue_outcome (Exit (-2))
      [EvCreateSerialPortChannel "/dev/ttyUSB0" 115200 err nullptr;
       EvPrint Stderr "insufficent memory, exit\n" []]
| Driver_failed err_channel err value :
    Result_bool err_channel = true ->
    Result_bool err = false ->
    prologue_outcome (Exit (-1))
      [EvCreateSerialPortChannel "/dev/ttyUSB0" 115200 err_channel object;
       EvCreateLidarDriver err value;
       EvPrint Stderr "Failed to create lidar driver: {}\n"
         [ArgStr (resultErrorString err)]]
| Driver_null err_channel err :
    Result_bool err_channel = true ->
    Result_bool err = true ->
    prologue_outcome (Exit (-2))
      [EvCreateSerialPortChannel "/dev/ttyUSB0" 115200 err_channel object;
       EvCreateLidarDriver err nullptr;
       EvPrint Stderr "insufficent memory, exit\n" []]
| Connect_failed err_channel err_driver res :
    Result_bool err_channel = true ->
    Result_bool err_driver = true ->
    SL_IS_FAIL res = true ->
    prologue_outcome (Exit (-1))
      (session_opening err_channel err_driver res
       ++ [EvPrint Stderr "Failed to connect channel to driver: {}\n"
             [ArgStr (resultErrorString res)]])
| Info_failed err_channel err_driver connected res :
    Result_bool err_channel = true ->
    Result_bool err_driver = true ->
    SL_IS_FAIL connected = false ->
    SL_IS_FAIL res = true ->
    prologue_outcome (Ret (Some (-1)))
      (session_opening err_channel err_driver connected
       ++ [EvGetDeviceInfo res;
           EvPrint Stderr "Failed to get device info: {}\n"
             [ArgStr (resultErrorString res)]])
| Health_failed err_channel err_driver connected res_info devinfo res status :
    Result_bool err_channel = true ->
    Result_bool err_driver = true ->
    SL_IS_FAIL connected = false ->
    SL_IS_FAIL res_info = false ->
    SL_IS_OK res = false ->
    prologue_outcome (Ret (Some (-1)))
      (session_opening err_channel err_driver connected
       ++ EvGetDeviceInfo res_info :: device_info_report devinfo
       ++ [EvGetHealth res status;
           EvPrint Stderr "Error, cannot retrieve the lidar health code: {:x}\n"
             [ArgInt res]])
| Unhealthy err_channel err_driver connected res_info devinfo res :
    Result_bool err_channel = true ->
    Result_bool err_driver = true ->
    SL_IS_FAIL connected = false ->
    SL_IS_FAIL res_info = false ->
    SL_IS_OK res = true ->
    prologue_outcome (Ret (Some (-1)))
      (session_opening err_channel err_driver connected
       ++ EvGetDeviceInfo res_info :: device_info_report devinfo
       ++ [EvGetHealth res SL_LIDAR_STATUS_ERROR;
           EvPrint Stdout "SLAMTEC Lidar health status : {}\n"
             [ArgInt SL_LIDAR_STATUS_ERROR];
           EvPrint Stderr
             "Error, slamtec lidar internal error detected. Please reboot the device to retry.\n"
             []])
| Healthy err_channel err_driver connected res_info devinfo res status :
    Result_bool err_channel = true ->
    Result_bool err_driver = true ->
    SL_IS_FAIL connected = false ->
    SL_IS_FAIL res_info = false ->
    SL_IS_OK res = true ->
    status <> SL_LIDAR_STATUS_ERROR ->
    prologue_outcome (Ret None)
      (session_opening err_channel err_driver connected
       ++ EvGetDeviceInfo res_info :: device_info_report devinfo
       ++ [EvGetHealth res status;
           EvPrint Stdout "SLAMTEC Lidar health status : {}\n" [ArgInt status]]).

(** The events of the prologue, which the acquisition never produces. *)
Definition session_event (e : Event) : bool :=
  match e with
  | EvCreateSerialPortChannel _ _ _ _ | EvCreateLidarDriver _ _ | EvConnect _
  | EvGetDeviceInfo _ | EvGetHealth _ _ => true
  | _ => false
  end.

(** The prologue calls the factories and the queries of the session and
    prints; it does nothing else. *)
Definition quiet_event (e : Event) : bool :=
  match e with
  | EvCreateSerialPortChannel _ _ _ _ | EvCreateLidarDriver _ _ | EvConnect _
  | EvGetDeviceInfo _ | EvGetHealth _ _ | EvPrint _ _ _ => true
  | _ => false
  end.

(** The events of the two loops. *)
Definition loop_event (e : Event) : bool :=
  match e with
  | EvStartScanExpress _ _ _ _ _ | EvGrabScanDataHq _ _ _ _
  | EvAscendScanData _ _ _ | EvClockNow _ | EvPrint Stdout _ _
  | EvOpen _ | EvWrite _ _ => true
  | _ => false
  end.

(** *** Failure classes of the fatal paths

    The class of the failure a call reports, if it reports one: the channel
    could not be created, a factory returned no object, or an operation on
    the way to scanning failed. *)
Inductive FailureClass := ChannelCreation | Allocation | Operational.

Definition fatal_class (e : Event) : option FailureClass :=
  match e with
  | EvCreateSerialPortChannel _ _ err value =>
      if negb (Result_bool err) then Some ChannelCreation
      else if is_null value then Some Allocation else None
  | EvCreateLidarDriver err value =>
      if negb (Result_bool err) then Some Operational
      else if is_null value then Some Allocation else None
  | EvConnect res => if SL_IS_FAIL res then Some Operational else None
  | EvGetDeviceInfo res => if SL_IS_FAIL res then Some Operational else None
  | EvGetHealth res _ => if SL_IS_OK res then None else Some Operational
  | EvGetAllSupportedScanModes res _ =>
      if SL_IS_FAIL res then Some Operational else None
  | _ => None
  end.

Definition failure_classes (t : list Event) : list FailureClass :=
  omap fatal_class t.

(** The exit status the programs give to a failure of each class. *)
Definition fatal_exit_code (c : FailureClass) : Z :=
  match c with
  | Allocation => -2
  | ChannelCreation | Operational => -1
  end.

End Outcomes.

(** ** The properties under study *)

Section Properties.
Context `{Hdr : SlHeader} {E : Type} `{Env : Sdk E}.


(** A failed motor start is fatal: neither a scan start nor a retrieval
    follows it. *)
Definition motor_failure_is_fatal (t : list Event) : Prop :=
  each_suffix (fun e post =>
    match e with
    | EvSetMotorSpeed res =>
        SL_IS_FAIL res = true ->
        Forall (fun e' => starts_scan_or_grabs e' = false) post
    | _ => True
    end) t.

(** Two runs that fail in different classes end with different statuses. *)
Definition classes_have_distinct_codes
    (run1 run2 : Res Z * World E * list Event) : Prop :=
  forall c1 c2,
    c1 ∈ failure_classes run1.2 -> c2 ∈ failure_classes run2.2 -> c1 <> c2 ->
    exit_status run1.1.1 <> exit_status run2.1.1.

(** The exported angle and distance are the raw values times 90 / 16384
    and divided by 4. *)
Definition conversion_is_exact (n : node) : Prop :=
  exists qa qd,
    float_value (SampleData.theta n) = Some qa
    /\ (qa == sl.angle_z_q14 n * 90 # 16384)%Q
    /\ float_value (SampleData.dist n) = Some qd
    /\ (qd == sl.dist_mm_q2 n # 4)%Q.

(** Modelled from the spec: [ascendScanData], a method of the driver whose
    code is not among the application sources, is the "angular-ascending
    reorder step": when it returns, the first [count] nodes of the buffer
    are in ascending angular order. *)
Definition ascendScanData_reorders : Prop :=
  forall nodes count e,
    ascending (slots (drv_ascendScanData nodes count e).1.2 count).

End Properties.

(** Order of two floats by the numbers they denote. *)
Definition float_le (x y : float) : Prop :=
  match float_value x, float_value y with
  | Some p, Some q => (p <= q)%Q
  | _, _ => False
  end.

(** ** A concrete header and a scripted device

    The values the Slamtec SDK gives to what [SlHeader] leaves open, and an
    environment that answers from a script.  They serve to run the programs
    on concrete inputs; no theorem about the programs depends on them. *)
Definition SL_RESULT_FAIL_BIT : Z := 2147483648.

Definition slamtec_header : SlHeader := {|
  SL_RESULT_OK := 0;
  SL_RESULT_ALREADY_DONE := 32;
  SL_RESULT_INVALID_DATA := 32768 + SL_RESULT_FAIL_BIT;
  SL_RESULT_OPERATION_FAIL := 32769 + SL_RESULT_FAIL_BIT;
  SL_RESULT_OPERATION_TIMEOUT := 32770 + SL_RESULT_FAIL_BIT;
  SL_RESULT_OPERATION_STOP := 32771 + SL_RESULT_FAIL_BIT;
  SL_RESULT_OPERATION_NOT_SUPPORT := 32772 + SL_RESULT_FAIL_BIT;
  SL_RESULT_FORMAT_NOT_SUPPORT := 32773 + SL_RESULT_FAIL_BIT;
  SL_RESULT_INSUFFICIENT_MEMORY := 32774 + SL_RESULT_FAIL_BIT;
  SL_IS_OK := fun x => Z.land x SL_RESULT_FAIL_BIT =? 0;
  SL_IS_FAIL := fun x => negb (Z.land x SL_RESULT_FAIL_BIT =? 0);
  Result_bool := fun x => Z.land x SL_RESULT_FAIL_BIT =? 0;
  SL_LIDAR_STATUS_ERROR := 2;
  SL_LIDAR_RESP_MEASUREMENT_QUALITY_SHIFT := 2;
  SL_LIDAR_RESP_HQ_FLAG_SYNCBIT := 1;
  sizeof_node := 8;
  node_repr := fun n =>
    le_bytes 2 (sl.angle_z_q14 n) ++ le_bytes 4 (sl.dist_mm_q2 n)
    ++ le_bytes 1 (sl.quality n) ++ le_bytes 1 (sl.flag n);
  node_repr_length := fun n => eq_refl;
  sizeof_node_array := conj eq_refl eq_refl
|}.

Section Scripted.
Local Existing Instance slamtec_header.

Definition angle_le (a b : node) : Prop := sl.angle_z_q14 a <= sl.angle_z_q14 b.

Definition angle_le_dec : RelDecision angle_le :=
  fun a b => decide (sl.angle_z_q14 a <= sl.angle_z_q14 b).

Local Existing Instance angle_le_dec.

Record Script := {
  on_createSerialPortChannel : sl_result * pointer;
  on_createLidarDriver : sl_result * pointer;
  on_connect : sl_result;
  on_getDeviceInfo : sl_result * sl.sl_lidar_response_device_info_t;
  on_getHealth : sl_result * sl.sl_lidar_response_device_health_t;
  on_setMotorSpeed : sl_result;
  on_getAllSupportedScanModes : sl_result * list sl.LidarScanMode;
  on_startScan : sl_result;
  on_startScanExpress : sl_result;
  on_grabScanDataHq : list (sl_result * list node);
  on_stop : sl_result;
  ticks : Z
}.

Definition zero_node : node :=
  {| sl.angle_z_q14 := 0; sl.dist_mm_q2 := 0; sl.quality := 0; sl.flag := 0 |}.

Definition buffer_of (l : list node) : buffer := fun i => nth i l zero_node.

(** The scripted retrieval hands out the next batch of the script, cut to
    the capacity of the buffer; when the script is exhausted it times out. *)
Definition scripted_grab (capacity : Z) (s : Script)
    : (sl_result * buffer * Z) * Script :=
  match on_grabScanDataHq s with
  | [] => ((SL_RESULT_OPERATION_TIMEOUT, buffer_of [], 0), s)
  | (res, batch) :: rest =>
      let stored := take (Z.to_nat capacity) batch in
      ((res, buffer_of stored, Z.of_nat (length stored)),
       {| on_createSerialPortChannel := on_createSerialPortChannel s;
          on_createLidarDriver := on_createLidarDriver s;
          on_connect := on_connect s;
          on_getDeviceInfo := on_getDeviceInfo s;
          on_getHealth := on_getHealth s;
          on_setMotorSpeed := on_setMotorSpeed s;
          on_getAllSupportedScanModes := on_getAllSupportedScanModes s;
          on_startScan := on_startScan s;
          on_startScanExpress := on_startScanExpress s;
          on_grabScanDataHq := rest;
          on_stop := on_stop s;
          ticks := ticks s |})
  end.

(** The scripted reorder sorts the first [count] nodes by angle. *)
Definition scripted_ascend (nodes : buffer) (count : Z) (s : Script)
    : (sl_result * buffer) * Script :=
  ((SL_RESULT_OK,
    fun i => nth i (merge_sort angle_le (slots nodes count)) (nodes i)), s).

Definition scripted_now (s : Script) : Z * Script :=
  (ticks s,
   {| on_createSerialPortChannel := on_createSerialPortChannel s;
      on_createLidarDriver := on_createLidarDriver s;
      on_connect := on_connect s;
      on_getDeviceInfo := on_getDeviceInfo s;
      on_getHealth := on_getHealth s;
      on_setMotorSpeed := on_setMotorSpeed s;
      on_getAllSupportedScanModes := on_getAllSupportedScanModes s;
      on_startScan := on_startScan s;
      on_startScanExpress := on_startScanExpress s;
      on_grabScanDataHq := on_grabScanDataHq s;
      on_stop := on_stop s;
      ticks := ticks s + 1 |}).

(** The mode the scripted device reports as negotiated: the advertised mode
    with the requested identifier, if there is one. *)
Definition scripted_mode (scanMode : Z) (s : Script) : sl.LidarScanMode :=
  default
    {| sl.id := scanMode; sl.us_per_sample := S754_zero false;
       sl.max_distance := S754_zero false; sl.ans_type := 0; sl.scan_mode := "" |}
    (head (filter (fun m => sl.id m = scanMode) (on_getAllSupportedScanModes s).2)).

Lemma scripted_grab_count (capacity : Z) (s : Script) :
  0 <= capacity -> 0 <= (scripted_grab capacity s).1.2 <= capacity.
Proof.
  intros Hc. unfold scripted_grab.
  destruct (on_grabScanDataHq s) as [|[res batch] rest]; simpl; [lia|].
  rewrite length_take. lia.
Qed.

Definition scripted : Sdk Script := {|
  sdk_createSerialPortChannel := fun _ _ s => (on_createSerialPortChannel s, s);
  sdk_createLidarDriver := fun s => (on_createLidarDriver s, s);
  drv_connect := fun s => (on_connect s, s);
  drv_getDeviceInfo := fun s => (on_getDeviceInfo s, s);
  drv_getHealth := fun s => (on_getHealth s, s);
  drv_setMotorSpeed := fun s => (on_setMotorSpeed s, s);
  drv_getAllSupportedScanModes := fun s => (on_getAllSupportedScanModes s, s);
  drv_startScan := fun _ _ s => (on_startScan s, s);
  drv_startScanExpress := fun _ scanMode _ s =>
    ((on_startScanExpress s, scripted_mode scanMode s), s);
  drv_grabScanDataHq := scripted_grab;
  drv_ascendScanData := scripted_ascend;
  drv_stop := fun s => (on_stop s, s);
  clock_now := scripted_now;
  duration_cast_milliseconds := fun ticks => ticks;
  drv_grabScanDataHq_count := scripted_grab_count
|}.

Local Existing Instance scripted.

(** A device that answers every call with success, reports the health
    [status], advertises [modes] and delivers [grabs] to the successive
    retrievals; [motor] and [express] are the results of motor start and of
    scan start in a given mode. *)
Definition device (status : Z) (motor express : sl_result)
    (modes : list sl.LidarScanMode) (grabs : list (sl_result * list node))
    : Script :=
  {| on_createSerialPortChannel := (SL_RESULT_OK, object);
     on_createLidarDriver := (SL_RESULT_OK, object);
     on_connect := SL_RESULT_OK;
     on_getDeviceInfo :=
       (SL_RESULT_OK,
        {| sl.firmware_version := 284; sl.hardware_version := 7;
           sl.serialnum := [] |});
     on_getHealth := (SL_RESULT_OK, {| sl.status := status; sl.error_code := 0 |});
     on_setMotorSpeed := motor;
     on_getAllSupportedScanModes := (SL_RESULT_OK, modes);
     on_startScan := SL_RESULT_OK;
     on_startScanExpress := express;
     on_grabScanDataHq := grabs;
     on_stop := SL_RESULT_OK;
     ticks := 0 |}.

(** No device on the port: the channel cannot be created. *)
Definition no_channel : Script :=
  {| on_createSerialPortChannel := (SL_RESULT_OPERATION_FAIL, nullptr);
     on_createLidarDriver := (SL_RESULT_OK, object);
     on_connect := SL_RESULT_OK;
     on_getDeviceInfo :=
       (SL_RESULT_OK,
        {| sl.firmware_version := 0; sl.hardware_version := 0; sl.serialnum := [] |});
     on_getHealth := (SL_RESULT_OK, {| sl.status := 0; sl.error_code := 0 |});
     on_setMotorSpeed := SL_RESULT_OK;
     on_getAllSupportedScanModes := (SL_RESULT_OK, []);
     on_startScan := SL_RESULT_OK;
     on_startScanExpress := SL_RESULT_OK;
     on_grabScanDataHq := [];
     on_stop := SL_RESULT_OK;
     ticks := 0 |}.

(** A port that opens but a device that does not answer: [connect] fails. *)
Definition no_connection : Script :=
  {| on_createSerialPortChannel := (SL_RESULT_OK, object);
     on_createLidarDriver := (SL_RESULT_OK, object);
     on_connect := SL_RESULT_OPERATION_TIMEOUT;
     on_getDeviceInfo :=
       (SL_RESULT_OK,
        {| sl.firmware_version := 0; sl.hardware_version := 0; sl.serialnum := [] |});
     on_getHealth := (SL_RESULT_OK, {| sl.status := 0; sl.error_code := 0 |});
     on_setMotorSpeed := SL_RESULT_OK;
     on_getAllSupportedScanModes := (SL_RESULT_OK, []);
     on_startScan := SL_RESULT_OK;
     on_startScanExpress := SL_RESULT_OK;
     on_grabScanDataHq := [];
     on_stop := SL_RESULT_OK;
     ticks := 0 |}.

Definition boot (s : Script) : World Script := {| env := s; fs := ∅ |}.

Definition Standard : sl.LidarScanMode :=
  {| sl.id := 0; sl.us_per_sample := float_of_int 508;
     sl.max_distance := float_of_int 12; sl.ans_type := 129;
     sl.scan_mode := "Standard" |}.

Definition Boost : sl.LidarScanMode :=
  {| sl.id := 2; sl.us_per_sample := float_of_int 127;
     sl.max_distance := float_of_int 12; sl.ans_type := 132;
     sl.scan_mode := "Boost" |}.

Definition sample (angle distance : Z) : node :=
  {| sl.angle_z_q14 := angle; sl.dist_mm_q2 := distance;
     sl.quality := 188; sl.flag := 0 |}.

(** Two samples, delivered out of angular order. *)
Definition two_samples : list node := [sample 16384 40; sample 8192 4000].

End Scripted.

(** ** The outcomes of the programs *)

Section ProgramOutcomes.
Context `{Hdr : SlHeader} {E : Type} `{Env : Sdk E}.

(** How [main] ends when the prologue does not let it go on. *)
Definition stopped (r : Res (option Z)) : option (Res Z) :=
  match r with
  | Ret (Some code) => Some (Ret code)
  | Exit code => Some (Exit code)
  | _ => None
  end.

(** The files after a sweep: each mode's table replaces the file of its
    name. *)
Definition sweep_fs (fs0 : gmap string (list Chunk))
    (modes : list sl.LidarScanMode) (rps : list SweepReply)
    : gmap string (list Chunk) :=
  fold_left (fun m mr => <[SampleData.filename mr.1 := sweep_file mr.2]> m)
            (zip modes rps) fs0.

(** [answer] is what [ascendScanData] returns for this buffer and count in
    some state of the environment. *)
Definition ascend_answer (nodes : buffer) (count : Z)
    (answer : sl_result * buffer) : Prop :=
  exists e, answer = (drv_ascendScanData nodes count e).1.

(** The answers of one iteration respect the driver's interface. *)
Definition sweep_ok (rp : SweepReply) : Prop :=
  0 <= (sr_grab rp).2 <= 8192
  /\ (SL_IS_OK (sr_grab rp).1.1 = true ->
      ascend_answer (sr_grab rp).1.2 (sr_grab rp).2 (sr_ascend rp)).

(** Every run of [sample_data]: result, files and trace. *)
Inductive sample_data_outcome (fs0 : gmap string (list Chunk))
  : Res Z -> gmap string (list Chunk) -> list Event -> Prop :=
| SD_stopped r_p r t_p :
    prologue_outcome r_p t_p ->
    stopped r_p = Some r ->
    sample_data_outcome fs0 r fs0 t_p
| SD_no_modes t_p motor res modes :
    prologue_outcome (Ret None) t_p ->
    SL_IS_FAIL res = true ->
    sample_data_outcome fs0 (Ret (-1)) fs0
      (t_p ++ [EvSetMotorSpeed motor;
               EvGetAllSupportedScanModes res modes;
               EvPrint Stderr "Failed to get scan modes\n" []])
| SD_swept t_p motor res modes rps stop_res :
    prologue_outcome (Ret None) t_p ->
    SL_IS_FAIL res = false ->
    length rps = length modes ->
    Forall sweep_ok rps ->
    sample_data_outcome fs0 (Ret 0) (sweep_fs fs0 modes rps)
      (t_p ++ [EvSetMotorSpeed motor; EvGetAllSupportedScanModes res modes]
       ++ concat (zip_with (sweep_events (SampleData.max_name_len modes)) modes rps)
       ++ [EvStop stop_res]).

Definition capture_ok (rp : CaptureReply) : Prop :=
  SL_IS_FAIL (cr_grab rp).1.1 = false
  /\ 0 <= (cr_grab rp).2 <= 8192
  /\ ascend_answer (cr_grab rp).1.2 (cr_grab rp).2 (cr_ascend rp).

(** From motor start to scan start in [read_data_bin]. *)
Definition capture_opening (motor started : sl_result) : list Event :=
  [EvSetMotorSpeed motor;
   EvOpen "data.bin";
   EvPrint Stdout "Reading from lidar...\n" [];
   EvStartScan false true started].

(** Every run of [read_data_bin] observed for [fuel] iterations. *)
Inductive read_data_bin_outcome (fuel : nat) (fs0 : gmap string (list Chunk))
  : Res Z -> gmap string (list Chunk) -> list Event -> Prop :=
| RD_stopped r_p r t_p :
    prologue_outcome r_p t_p ->
    stopped r_p = Some r ->
    read_data_bin_outcome fuel fs0 r fs0 t_p
| RD_running t_p motor started rps :
    prologue_outcome (Ret None) t_p ->
    length rps = fuel ->
    Forall capture_ok rps ->
    read_data_bin_outcome fuel fs0 Running
      (<["data.bin" := flat_map capture_chunks rps]> fs0)
      (t_p ++ capture_opening motor started ++ flat_map capture_events rps)
| RD_failed t_p motor started rps res nodes count stop_res :
    prologue_outcome (Ret None) t_p ->
    (length rps < fuel)%nat ->
    Forall capture_ok rps ->
    SL_IS_FAIL res = true ->
    read_data_bin_outcome fuel fs0 (Ret (-1))
      (<["data.bin" := flat_map capture_chunks rps]> fs0)
      (t_p ++ capture_opening motor started ++ flat_map capture_events rps
       ++ capture_failure res nodes count stop_res).

End ProgramOutcomes.

(** * Further observations *)

(** A call of a factory, of the driver or of the clock: every event that
    is neither console output nor a file operation. *)
Definition is_call (e : Event) : bool :=
  match e with
  | EvPrint _ _ _ | EvOpen _ | EvWrite _ _ => false
  | _ => true
  end.

(** The result and the count of every retrieval. *)
Definition grab_counts (t : list Event) : list (sl_result * Z) :=
  omap (fun e => match e with
                 | EvGrabScanDataHq _ res _ count => Some (res, count)
                 | _ => None
                 end) t.

Section Reports.
Context `{Hdr : SlHeader}.

(** The line a failed call of the bootstrap puts on the error stream: the
    test each caller applies to the answer, and the text it prints. *)
Definition failure_report (e : Event) : option (string * list FmtArg) :=
  match e with
  | EvCreateSerialPortChannel _ _ err value =>
      if negb (Result_bool err)
      then Some ("Failed to create channel: {}\n", [ArgStr (resultErrorString err)])
      else if is_null value then Some ("insufficent memory, exit\n", [])
      else None
  | EvCreateLidarDriver err value =>
      if negb (Result_bool err)
      then Some ("Failed to create lidar driver: {}\n", [ArgStr (resultErrorString err)])
      else if is_null value then Some ("insufficent memory, exit\n", [])
      else None
  | EvConnect res =>
      if SL_IS_FAIL res
      then Some ("Failed to connect channel to driver: {}\n",
                 [ArgStr (resultErrorString res)])
      else None
  | EvGetDeviceInfo res =>
      if SL_IS_FAIL res
      then Some ("Failed to get device info: {}\n", [ArgStr (resultErrorString res)])
      else None
  | EvGetHealth res _ =>
      if SL_IS_OK res then None
      else Some ("Error, cannot retrieve the lidar health code: {:x}\n", [ArgInt res])
  | EvGetAllSupportedScanModes res _ =>
      if SL_IS_FAIL res then Some ("Failed to get scan modes\n", []) else None
  | _ => None
  end.

(** The result codes [resultErrorString] has a name for. *)
Definition named_results : list sl_result :=
  [SL_RESULT_OK; SL_RESULT_ALREADY_DONE; SL_RESULT_INVALID_DATA;
   SL_RESULT_OPERATION_FAIL; SL_RESULT_OPERATION_TIMEOUT; SL_RESULT_OPERATION_STOP;
   SL_RESULT_OPERATION_NOT_SUPPORT; SL_RESULT_FORMAT_NOT_SUPPORT;
   SL_RESULT_INSUFFICIENT_MEMORY].

End Reports.

(** The chunks a trace writes to [path]. *)
Definition written (path : string) (t : list Event) : list Chunk :=
  omap (fun e => match e with
                 | EvWrite p c => if String.eqb p path then Some c else None
                 | _ => None
                 end) t.

(** The characters of a string. *)
Fixpoint chars (s : string) : list Ascii.ascii :=
  match s with
  | EmptyString => []
  | String c s' => c :: chars s'
  end.

(** The character that separates the parts of a file name. *)
Definition underscore : Ascii.ascii :=
  Ascii.Ascii true true true true true false true false.

(** * [app/print_stats/main.cpp]: the report of the device

    The third program shares the bootstrap with the two capture programs
    and then reports the motor and the scan modes.  It uses one more
    operation of the driver, [getMotorInfo], and the enumerators of
    [MotorCtrlSupport]; they extend the interface of the environment and
    what is taken from the header. *)

(** [LidarMotorInfo] *)
Record LidarMotorInfo := {
  motorCtrlSupport : Z;
  desired_speed : Z;
  max_speed : Z;
  min_speed : Z
}.

Class MotorHeader := {
  MotorCtrlSupportNone : Z;
  MotorCtrlSupportPwm : Z;
  MotorCtrlSupportRpm : Z
}.

Class MotorSdk (E : Type) := {
  drv_getMotorInfo : E -> (sl_result * LidarMotorInfo) * E
}.

(** The events of [print_stats]: those of the capture programs and the
    query of the motor. *)
Inductive StatsEvent :=
| Common (e : Event)
| EvGetMotorInfo (res : sl_result) (motor : LidarMotorInfo).

(** A program of [print_stats]: as [M], with [StatsEvent] for the trace. *)
Definition MS (E A : Type) : Type :=
  World E -> Res A * World E * list StatsEvent.

Section StatsMonad.
Context {E : Type}.

(** A program of the capture programs, run as a part of [print_stats]. *)
Definition lift {A} (m : M E A) : MS E A :=
  fun w =>
    match m w with
    | (r, w', t) => (r, w', map Common t)
    end.

Definition bindS {A B} (m : MS E A) (k : A -> MS E B) : MS E B :=
  fun w =>
    match m w with
    | (Ret a, w1, t1) =>
        match k a w1 with
        | (r, w2, t2) => (r, w2, t1 ++ t2)
        end
    | (Exit code, w1, t1) => (Exit code, w1, t1)
    | (Running, w1, t1) => (Running, w1, t1)
    end.

End StatsMonad.

Module PrintStats.
Section Program.
Context `{Hdr : SlHeader} `{MHdr : MotorHeader}.
Context {E : Type} `{Env : Sdk E} `{MEnv : MotorSdk E}.

Definition getMotorInfo : MS E (sl_result * LidarMotorInfo) :=
  fun w =>
    match drv_getMotorInfo (env w) with
    | (a, e') => (Ret a, {| env := e'; fs := fs w |}, [EvGetMotorInfo a.1 a.2])
    end.

(** *** [printMotorStats] *)
Definition printMotorStats (motor : LidarMotorInfo) : M E unit :=
  println Stdout "Motor specs:" [] ;;;
  print Stdout "Contorl Support: " [] ;;;
  (if motorCtrlSupport motor =? MotorCtrlSupportNone then
     println Stdout "None" []
   else if motorCtrlSupport motor =? MotorCtrlSupportPwm then
     println Stdout "PWM" []
   else if motorCtrlSupport motor =? MotorCtrlSupportRpm then
     println Stdout "RPM" []
   else
     println Stdout "Other {}" [ArgInt (motorCtrlSupport motor mod 2 ^ 32)]) ;;;
  println Stdout "Desired speed {} of [{}, {}]"
    [ArgInt (desired_speed motor); ArgInt (min_speed motor);
     ArgInt (max_speed motor)].

(** *** [printScanModes]

    The width of the name column is computed as in [sample_data]. *)
Definition printScanModes (modes : list sl.LidarScanMode) : M E unit :=
  let max_name_len := SampleData.max_name_len modes in
  println Stdout "Scan modes:" [] ;;;
  for_each modes (fun mode =>
    println Stdout "{} {:{}s} answer type: {:02x} us/sample: {:f} max dist: {:f} m"
      [ArgInt (sl.id mode); ArgStr (sl.scan_mode mode); ArgInt max_name_len;
       ArgInt (sl.ans_type mode); ArgFloat (sl.us_per_sample mode);
       ArgFloat (sl.max_distance mode)]).

(** What [main] does with the motor information. *)
Definition report (motor : LidarMotorInfo) : M E Z :=
  printMotorStats motor ;;;
  let* (res, modes) := getAllSupportedScanModes in
  if SL_IS_FAIL res then
    println Stderr "Failed to get scan modes" [] ;;;
    ret (-1)
  else
    printScanModes modes ;;;
    stop ;;;
    ret 0.

Definition main : MS E Z :=
  bindS (lift prologue) (fun r =>
    match r with
    | Some code => lift (ret code)
    | None =>
        bindS getMotorInfo (fun '(res, motor) =>
          if SL_IS_FAIL res then
            lift (println Stderr "Failed to get motor info" [] ;;; ret (-1))
          else
            lift (report motor))
    end).

End Program.
End PrintStats.

(** The events [print_stats] shares with the capture programs. *)
Definition stats_common (t : list StatsEvent) : list Event :=
  omap (fun e => match e with
                 | Common e' => Some e'
                 | EvGetMotorInfo _ _ => None
                 end) t.

Section StatsShapes.
Context `{Hdr : SlHeader} `{MHdr : MotorHeader}.

(** The line of the control support. *)
Definition support_line (motor : LidarMotorInfo) : string * list FmtArg :=
  if motorCtrlSupport motor =? MotorCtrlSupportNone then ("None\n", [])
  else if motorCtrlSupport motor =? MotorCtrlSupportPwm then ("PWM\n", [])
  else if motorCtrlSupport motor =? MotorCtrlSupportRpm then ("RPM\n", [])
  else ("Other {}\n", [ArgInt (motorCtrlSupport motor mod 2 ^ 32)]).

Definition motor_report (motor : LidarMotorInfo) : list Event :=
  [EvPrint Stdout "Motor specs:\n" [];
   EvPrint Stdout "Contorl Support: " [];
   EvPrint Stdout (support_line motor).1 (support_line motor).2;
   EvPrint Stdout "Desired speed {} of [{}, {}]\n"
     [ArgInt (desired_speed motor); ArgInt (min_speed motor);
      ArgInt (max_speed motor)]].

(** The line of a scan mode, in a column of width [k] for the names. *)
Definition mode_line (k : Z) (m : sl.LidarScanMode) : Event :=
  EvPrint Stdout "{} {:{}s} answer type: {:02x} us/sample: {:f} max dist: {:f} m\n"
    [ArgInt (sl.id m); ArgStr (sl.scan_mode m); ArgInt k;
     ArgInt (sl.ans_type m); ArgFloat (sl.us_per_sample m);
     ArgFloat (sl.max_distance m)].

Definition modes_report (modes : list sl.LidarScanMode) : list Event :=
  EvPrint Stdout "Scan modes:\n" []
  :: map (mode_line (SampleData.max_name_len modes)) modes.

(** Every run of [print_stats]: result and trace. *)
Inductive print_stats_outcome : Res Z -> list StatsEvent -> Prop :=
| PS_stopped r_p r t_p :
    prologue_outcome r_p t_p ->
    stopped r_p = Some r ->
    print_stats_outcome r (map Common t_p)
| PS_no_motor t_p res motor :
    prologue_outcome (Ret None) t_p ->
    SL_IS_FAIL res = true ->
    print_stats_outcome (Ret (-1))
      (map Common t_p
       ++ [EvGetMotorInfo res motor;
           Common (EvPrint Stderr "Failed to get motor info\n" [])])
| PS_no_modes t_p res_motor motor res modes :
    prologue_outcome (Ret None) t_p ->
    SL_IS_FAIL res_motor = false ->
    SL_IS_FAIL res = true ->
    print_stats_outcome (Ret (-1))
      (map Common t_p
       ++ EvGetMotorInfo res_motor motor
       :: map Common (motor_report motor
                      ++ [EvGetAllSupportedScanModes res modes;
                          EvPrint Stderr "Failed to get scan modes\n" []]))
| PS_reported t_p res_motor motor res modes stop_res :
    prologue_outcome (Ret None) t_p ->
    SL_IS_FAIL res_motor = false ->
    SL_IS_FAIL res = false ->
    print_stats_outcome (Ret 0)
      (map Common t_p
       ++ EvGetMotorInfo res_motor motor
       :: map Common (motor_report motor
                      ++ EvGetAllSupportedScanModes res modes
                      :: modes_report modes ++ [EvStop stop_res])).

End StatsShapes.

(** ** More scripted devices

    A device whose retrievals never fail, and the scripted answer to the
    query of the motor; as the scripted device they serve to run the
    programs on concrete inputs only. *)
Section MoreScripted.
Local Existing Instance slamtec_header.
Local Existing Instance angle_le_dec.

(** Every retrieval hands out the same two samples. *)
Definition endless_grab (capacity : Z) (s : Script)
    : (sl_result * buffer * Z) * Script :=
  let stored := take (Z.to_nat capacity) two_samples in
  ((SL_RESULT_OK, buffer_of stored, Z.of_nat (length stored)), s).

Lemma endless_grab_count (capacity : Z) (s : Script) :
  0 <= capacity -> 0 <= (endless_grab capacity s).1.2 <= capacity.
Proof. intros Hc. unfold endless_grab. cbn [fst snd]. rewrite length_take. lia. Qed.

Definition endless : Sdk Script := {|
  sdk_createSerialPortChannel := fun _ _ s => (on_createSerialPortChannel s, s);
  sdk_createLidarDriver := fun s => (on_createLidarDriver s, s);
  drv_connect := fun s => (on_connect s, s);
  drv_getDeviceInfo := fun s => (on_getDeviceInfo s, s);
  drv_getHealth := fun s => (on_getHealth s, s);
  drv_setMotorSpeed := fun s => (on_setMotorSpeed s, s);
  drv_getAllSupportedScanModes := fun s => (on_getAllSupportedScanModes s, s);
  drv_startScan := fun _ _ s => (on_startScan s, s);
  drv_startScanExpress := fun _ scanMode _ s =>
    ((on_startScanExpress s, scripted_mode scanMode s), s);
  drv_grabScanDataHq := endless_grab;
  drv_ascendScanData := scripted_ascend;
  drv_stop := fun s => (on_stop s, s);
  clock_now := scripted_now;
  duration_cast_milliseconds := fun ticks => ticks;
  drv_grabScanDataHq_count := endless_grab_count
|}.

(** The enumerators of [MotorCtrlSupport] in the Slamtec SDK. *)
Definition slamtec_motor_header : MotorHeader :=
  {| MotorCtrlSupportNone := 0; MotorCtrlSupportPwm := 1; MotorCtrlSupportRpm := 2 |}.

(** A driver that gives [reply] to every query of the motor. *)
Definition scripted_motor (reply : sl_result * LidarMotorInfo) : MotorSdk Script :=
  {| drv_getMotorInfo := fun s => (reply, s) |}.

Definition rpm_motor : LidarMotorInfo :=
  {| motorCtrlSupport := 2; desired_speed := 600; max_speed := 1200;
     min_speed := 200 |}.

(** Two modes that have the identifier and the name in common. *)
Definition Standard_again : sl.LidarScanMode :=
  {| sl.id := sl.id Standard; sl.us_per_sample := sl.us_per_sample Boost;
     sl.max_distance := sl.max_distance Boost; sl.ans_type := sl.ans_type Boost;
     sl.scan_mode := sl.scan_mode Standard |}.

End MoreScripted.

(** * Proofs *)

(** ** Running programs step by step *)

Section Run.
Context {E : Type}.

Lemma prepend_nil {A} (x : Res A * World E * list Event) : prepend [] x = x.
Proof. by destruct x as [[? ?] ?]. Qed.

Lemma prepend_prepend {A} t1 t2 (x : Res A * World E * list Event) :
  prepend t1 (prepend t2 x) = prepend (t1 ++ t2) x.
Proof. unfold prepend; simpl. by rewrite app_assoc. Qed.

Lemma prepend_value {A} t (r : Res A) (w : World E) t' :
  prepend t (r, w, t') = (r, w, t ++ t').
Proof. done. Qed.

Lemma bind_ret_l {A B} (a : A) (k : A -> M E B) w : bind (ret a) k w = k a w.
Proof. unfold bind, ret. by destruct (k a w) as [[? ?] ?]. Qed.

Lemma bind_run {A B} (m : M E A) (k : A -> M E B) w a w1 t1 :
  m w = (Ret a, w1, t1) -> bind m k w = prepend t1 (k a w1).
Proof. intros Hm. unfold bind. rewrite Hm. by destruct (k a w1) as [[? ?] ?]. Qed.

Lemma bind_exit {A B} (m : M E A) (k : A -> M E B) w code w1 t1 :
  m w = (Exit code, w1, t1) -> bind m k w = (Exit code, w1, t1).
Proof. intros Hm. unfold bind. by rewrite Hm. Qed.

Lemma bind_running {A B} (m : M E A) (k : A -> M E B) w w1 t1 :
  m w = (Running, w1, t1) -> bind m k w = (Running, w1, t1).
Proof. intros Hm. unfold bind. by rewrite Hm. Qed.

Lemma bind_assoc {A B C} (m : M E A) (k1 : A -> M E B) (k2 : B -> M E C) w :
  bind (bind m k1) k2 w = bind m (fun a => bind (k1 a) k2) w.
Proof.
  unfold bind. destruct (m w) as [[[a| |] w1] t1]; try done.
  destruct (k1 a w1) as [[[b| |] w2] t2]; try done.
  destruct (k2 b w2) as [[? ?] ?]. by rewrite app_assoc.
Qed.

Lemma bind_emit {B} ev (k : unit -> M E B) w :
  bind (emit ev) k w = prepend [ev] (k tt w).
Proof. by apply bind_run. Qed.

Lemma bind_print {B} to fmt args (k : unit -> M E B) w :
  bind (print to fmt args) k w = prepend [EvPrint to fmt args] (k tt w).
Proof. by apply bind_run. Qed.

Lemma bind_println {B} to fmt args (k : unit -> M E B) w :
  bind (println to fmt args) k w = prepend [EvPrint to (fmt +:+ "\n") args] (k tt w).
Proof. by apply bind_run. Qed.

Lemma bind_open {B} path (k : unit -> M E B) w :
  bind (open path) k w
  = prepend [EvOpen path] (k tt {| env := env w; fs := <[path := []]> (fs w) |}).
Proof. by apply bind_run. Qed.

Lemma bind_write {B} path c (k : unit -> M E B) w :
  bind (write path c) k w
  = prepend [EvWrite path c]
      (k tt {| env := env w;
               fs := <[path := default [] (fs w !! path) ++ [c]]> (fs w) |}).
Proof. by apply bind_run. Qed.

Lemma bind_call {A B} (op : E -> A * E) ev (k : A -> M E B) w :
  bind (call op ev) k w
  = prepend [ev (op (env w)).1]
      (k (op (env w)).1 {| env := (op (env w)).2; fs := fs w |}).
Proof. apply bind_run. unfold call. by destruct (op (env w)). Qed.

Lemma for_each_write (path : string) (f : nat -> Chunk) (l : list nat) (w : World E) c :
  fs w !! path = Some c ->
  for_each l (fun pos => write path (f pos)) w
  = (Ret tt, {| env := env w; fs := <[path := c ++ map f l]> (fs w) |},
     map (fun pos => EvWrite path (f pos)) l).
Proof.
  revert w c. induction l as [|x l IH]; intros [e m] c Hc; cbn [for_each env fs] in *.
  - unfold ret. cbn [map]. by rewrite app_nil_r, insert_id.
  - rewrite bind_write. cbn [env fs]. rewrite Hc. cbn [default].
    erewrite IH; [|cbn [fs]; apply lookup_insert_eq].
    cbn [env fs map]. rewrite prepend_value, insert_insert_eq, <-app_assoc. done.
Qed.

Lemma bind_exit_l {A B} code (k : A -> M E B) w :
  bind (exit code) k w = (Exit code, w, []).
Proof. done. Qed.

Lemma for_each_print {A} to fmt (args : A -> list FmtArg) (l : list A) (w : World E) :
  for_each l (fun x => print to fmt (args x)) w
  = (Ret tt, w, map (fun x => EvPrint to fmt (args x)) l).
Proof.
  induction l as [|x l IH]; [done|].
  cbn [for_each map]. by rewrite bind_print, IH.
Qed.

End Run.

(** Keep the events produced so far in one list. *)
Ltac run_norm :=
  rewrite ?prepend_prepend, ?prepend_value, <-?app_assoc, ?app_nil_r; cbn [app].

(** One output step. *)
Ltac run_out :=
  first [rewrite bind_println | rewrite bind_print | rewrite bind_open
        | rewrite bind_write | rewrite bind_emit];
  cbn [env fs]; run_norm.

(** After a call, name the answer of the environment. *)
Tactic Notation "run_call" "as" simple_intropattern(p) :=
  rewrite bind_call; cbn [env fs];
  match goal with
  | |- context [Build_World _ (snd ?x) _] => destruct x as p
  end;
  cbn [fst snd]; run_norm.

(** The end of a run. *)
Ltac run_end := rewrite ?bind_ret_l, ?bind_exit_l; unfold ret; run_norm.


(** ** The prologue *)

Section Prologue.
Context `{Hdr : SlHeader} {E : Type} `{Env : Sdk E}.

Lemma prologue_run (w : World E) :
  exists r e' t,
    prologue w = (r, {| env := e'; fs := fs w |}, t) /\ prologue_outcome r t.
Proof.
  destruct w as [e0 fs0].
  unfold prologue, makeChannel, makeDriver, checkSLAMTECLIDARHealth,
    createSerialPortChannel, createLidarDriver, connect, getDeviceInfo, getHealth.
  rewrite bind_assoc. run_call as [[err_c p] e1].
  destruct (Result_bool err_c) eqn:Hc; cbn [negb].
  2:{ rewrite bind_assoc. run_out. run_end.
      do 3 eexists; split; [reflexivity|]. by constructor. }
  destruct p; cbn [is_null].
  { rewrite bind_assoc. run_out. run_end.
    do 3 eexists; split; [reflexivity|]. by constructor. }
  rewrite bind_ret_l, bind_assoc. run_call as [[err_d p] e2].
  destruct (Result_bool err_d) eqn:Hd; cbn [negb].
  2:{ rewrite bind_assoc. run_out. run_end.
      do 3 eexists; split; [reflexivity|]. by constructor. }
  destruct p; cbn [is_null].
  { rewrite bind_assoc. run_out. run_end.
    do 3 eexists; split; [reflexivity|]. by constructor. }
  rewrite bind_assoc. run_call as [conn e3].
  destruct (SL_IS_FAIL conn) eqn:Hconn.
  { rewrite bind_assoc. run_out. run_end.
    do 3 eexists; split; [reflexivity|]. by apply Connect_failed. }
  rewrite !bind_ret_l. run_call as [[res_i devinfo] e4].
  destruct (SL_IS_FAIL res_i) eqn:Hinfo.
  { run_out. run_end.
    do 3 eexists; split; [reflexivity|]. by apply Info_failed. }
  run_out.
  erewrite bind_run by apply for_each_print. run_norm.
  run_out. rewrite bind_assoc. run_call as [[res_h health] e5].
  destruct (SL_IS_OK res_h) eqn:Hh.
  2:{ rewrite bind_assoc. run_out. run_end. cbn [negb].
      do 3 eexists; split; [reflexivity|].
      by apply (Health_failed _ _ _ _ devinfo). }
  rewrite bind_assoc. run_out.
  destruct (Z.eqb_spec (sl.status health) SL_LIDAR_STATUS_ERROR) as [Hs|Hs].
  { rewrite bind_assoc. run_out. run_end. cbn [negb].
    do 3 eexists; split; [reflexivity|]. rewrite Hs.
    by apply (Unhealthy _ _ _ _ devinfo). }
  run_end. cbn [negb].
  do 3 eexists; split; [reflexivity|]. by apply (Healthy _ _ _ _ devinfo).
Qed.

End Prologue.

(** ** Single-precision arithmetic on values that fit

    An integer below [2 ^ 24] converts exactly, a product that fits in 24
    bits is exact, and so is a division by a power of two. *)

Lemma iter_pos_nat {A} (f : A -> A) (p : positive) (x : A) :
  SpecFloat.iter_pos f p x = Nat.iter (Pos.to_nat p) f x.
Proof.
  revert x. induction p as [p IH|p IH|]; intros x; cbn [SpecFloat.iter_pos].
  - rewrite !IH, Pos2Nat.inj_xI, Nat.iter_succ_r.
    replace (2 * Pos.to_nat p)%nat with (Pos.to_nat p + Pos.to_nat p)%nat by lia.
    by rewrite Nat.iter_add.
  - rewrite !IH, Pos2Nat.inj_xO.
    replace (2 * Pos.to_nat p)%nat with (Pos.to_nat p + Pos.to_nat p)%nat by lia.
    by rewrite Nat.iter_add.
  - done.
Qed.

Lemma shr_1_double (y : positive) :
  shr_1 {| shr_m := Z.pos y~0; shr_r := false; shr_s := false |}
  = {| shr_m := Z.pos y; shr_r := false; shr_s := false |}.
Proof. done. Qed.

Lemma shr_exact (n : nat) (M y : positive) :
  Z.pos M = Z.pos y * 2 ^ Z.of_nat n ->
  Nat.iter n shr_1 {| shr_m := Z.pos M; shr_r := false; shr_s := false |}
  = {| shr_m := Z.pos y; shr_r := false; shr_s := false |}.
Proof.
  revert M. induction n as [|n IH]; intros M HM.
  - simpl in *. f_equal. lia.
  - rewrite Nat.iter_succ_r.
    assert (exists M', M = (M'~0)%positive /\ Z.pos M' = Z.pos y * 2 ^ Z.of_nat n) as (M' & -> & HM').
    { rewrite Nat2Z.inj_succ, Z.pow_succ_r in HM by lia.
      destruct M as [M'|M'|]; try lia. exists M'. split; [done|lia]. }
    rewrite shr_1_double. by apply IH.
Qed.

Lemma digits2_pos_bounds (p : positive) :
  2 ^ (Z.pos (digits2_pos p) - 1) <= Z.pos p < 2 ^ Z.pos (digits2_pos p).
Proof.
  induction p as [p IH|p IH|]; simpl digits2_pos.
  - rewrite !Pos2Z.inj_succ. replace (Z.succ (Z.pos (digits2_pos p)) - 1) with (Z.succ (Z.pos (digits2_pos p) - 1)) by lia.
    rewrite !Z.pow_succ_r by lia. lia.
  - rewrite !Pos2Z.inj_succ. replace (Z.succ (Z.pos (digits2_pos p)) - 1) with (Z.succ (Z.pos (digits2_pos p) - 1)) by lia.
    rewrite !Z.pow_succ_r by lia. lia.
  - simpl. lia.
Qed.

Lemma digits2_pos_unique (p : positive) (d : Z) :
  2 ^ (d - 1) <= Z.pos p < 2 ^ d -> Z.pos (digits2_pos p) = d.
Proof.
  intros [Hl Hu]. pose proof (digits2_pos_bounds p) as [Hl' Hu'].
  assert (0 < d).
  { destruct (Z.lt_trichotomy d 0) as [Hd|[->|Hd]]; [|simpl in Hu; lia|done].
    rewrite Z.pow_neg_r in Hu by done. lia. }
  destruct (Z.lt_trichotomy (Z.pos (digits2_pos p)) d) as [H1|[H1|H1]]; [|done|].
  - assert (2 ^ Z.pos (digits2_pos p) <= 2 ^ (d - 1)) by (apply Z.pow_le_mono_r; lia). lia.
  - assert (2 ^ d <= 2 ^ (Z.pos (digits2_pos p) - 1)) by (apply Z.pow_le_mono_r; lia). lia.
Qed.

Lemma digits2_pos_shift (M x : positive) (n : Z) :
  0 <= n -> Z.pos M = Z.pos x * 2 ^ n ->
  Z.pos (digits2_pos M) = Z.pos (digits2_pos x) + n.
Proof.
  intros Hn HM. apply digits2_pos_unique.
  pose proof (digits2_pos_bounds x) as [Hl Hu]. rewrite HM.
  replace (Z.pos (digits2_pos x) + n - 1) with (Z.pos (digits2_pos x) - 1 + n) by lia.
  rewrite !Z.pow_add_r by lia.
  assert (0 < 2 ^ n) by (apply Z.pow_pos_nonneg; lia). nia.
Qed.

(** rounding a mantissa that fits is exact *)
Lemma binary_round_aux_exact (M x : positive) (n e : Z) :
  let d := Z.pos (digits2_pos x) in
  0 <= n -> Z.pos M = Z.pos x * 2 ^ n ->
  d <= 24 -> 24 <= d + n ->
  -149 <= d + n + e - 24 -> e + d + n - 24 <= 104 ->
  exists m', Z.pos m' = Z.pos x * 2 ^ (24 - d)
    /\ digits2_pos m' = 24%positive
    /\ binary_round_aux 24 128 false (Z.pos M) e loc_Exact
       = S754_finite false m' (e + d + n - 24).
Proof.
  intros d Hn HM Hd Hdn Hlo Hhi.
  assert (0 < Z.pos x * 2 ^ (24 - d)) as Hpos.
  { apply Z.mul_pos_pos; [lia|]. apply Z.pow_pos_nonneg; lia. }
  destruct (Z.pos x * 2 ^ (24 - d)) as [|m'|] eqn:Hm'; try lia.
  exists m'. split; [done|].
  assert (Z.pos (digits2_pos m') = 24) as Hdm'.
  { rewrite (digits2_pos_shift m' x (24 - d)) by (fold d; lia). fold d. lia. }
  split; [congruence|].
  assert (Z.pos (digits2_pos M) = d + n) as HdM by (by apply digits2_pos_shift).
  unfold binary_round_aux, shr_fexp, Zdigits2, fexp, emin.
  rewrite HdM.
  replace (Z.max (d + n + e - 24) (3 - 128 - 24) - e) with (d + n - 24) by lia.
  assert (shr (shr_record_of_loc (Z.pos M) loc_Exact) e (d + n - 24)
          = ({| shr_m := Z.pos m'; shr_r := false; shr_s := false |}, e + d + n - 24)) as ->.
  { unfold shr, shr_record_of_loc. destruct (d + n - 24) as [|s|s] eqn:Hs; try lia.
    - f_equal; [|lia]. f_equal. rewrite HM, <-Hm'. f_equal. f_equal. lia.
    - f_equal; [|lia]. rewrite iter_pos_nat. apply shr_exact.
      rewrite positive_nat_Z, HM, <-Hs, <-Hm', <-Z.mul_assoc, <-Z.pow_add_r by lia.
      f_equal. f_equal. lia. }
  cbn [shr_m loc_of_shr_record round_nearest_even Zdigits2].
  rewrite Hdm'.
  replace (Z.max (24 + (e + d + n - 24) - 24) (3 - 128 - 24) - (e + d + n - 24)) with 0 by lia.
  cbn [shr shr_record_of_loc shr_m].
  destruct (Z.leb_spec (e + d + n - 24) (128 - 24)); [done|lia].
Qed.

Lemma iter_xO_pow (p s : positive) :
  Z.pos (Pos.iter xO p s) = Z.pos p * 2 ^ Z.pos s.
Proof.
  rewrite <-(positive_nat_Z s), Pos2Nat.inj_iter.
  induction (Pos.to_nat s) as [|n IH].
  - simpl. lia.
  - rewrite Nat2Z.inj_succ, Z.pow_succ_r by lia. cbn [nat_rect].
    rewrite Pos2Z.inj_xO, IH. lia.
Qed.

Lemma float_of_int_exact (z : Z) :
  0 < z < 2 ^ 24 ->
  exists (m : positive) (d : Z),
    1 <= d <= 24 /\ 2 ^ (d - 1) <= z < 2 ^ d
    /\ Z.pos m = z * 2 ^ (24 - d)
    /\ digits2_pos m = 24%positive
    /\ float_of_int z = S754_finite false m (d - 24).
Proof.
  intros [Hz Hlt]. destruct z as [|p|]; try lia.
  pose proof (digits2_pos_bounds p) as Hb.
  set (d := Z.pos (digits2_pos p)) in *.
  assert (d <= 24) as Hd.
  { destruct (Z.le_gt_cases d 24); [done|].
    assert (2 ^ 24 <= 2 ^ (d - 1)) by (apply Z.pow_le_mono_r; lia). lia. }
  unfold float_of_int, binary_normalize, binary_round, shl_align, fexp, emin,
    float_prec, float_emax. fold d.
  replace (Z.max (d + 0 - 24) (3 - 128 - 24) - 0) with (d - 24) by lia.
  replace (Z.max (d + 0 - 24) (3 - 128 - 24)) with (d - 24) by lia.
  destruct (d - 24) as [|s|s] eqn:Hs; try lia.
  - destruct (binary_round_aux_exact p p 0 0) as (m & Hm & Hdm & Hr); try (fold d; lia).
    fold d in Hm, Hr. exists m, d. rewrite Hr. repeat split; try lia; try done; try (f_equal; lia).
  - assert (exists M, Pos.iter xO p s = M /\ Z.pos M = Z.pos p * 2 ^ Z.pos s) as (M & -> & HM).
    { eexists; split; [done|]. apply iter_xO_pow. }
    destruct (binary_round_aux_exact M p (Z.pos s) (Z.neg s)) as (m & Hm & Hdm & Hr);
      try (fold d; lia).
    fold d in Hm, Hr. exists m, d. rewrite Hr. repeat split; try lia; try done; try (f_equal; lia).
Qed.

Lemma fdiv_pow2 (m : positive) (e k : Z) :
  digits2_pos m = 24%positive ->
  -125 <= e - k <= 127 ->
  fdiv (S754_finite false m e) (S754_finite false 8388608 k)
  = S754_finite false m (e - k - 23).
Proof.
  intros Hm He.
  unfold fdiv, SFdiv, SFdiv_core_binary, Zdigits2, fexp, emin, float_prec, float_emax.
  rewrite Hm. change (digits2_pos 8388608) with 24%positive.
  replace (Z.min (Z.max (24 + e - (24 + k) - 24) (3 - 128 - 24)) (e - k))
    with (e - k - 24) by lia.
  replace (e - k - (e - k - 24)) with 24 by lia.
  assert (Z.div_eucl (Z.shiftl (Z.pos m) 24) 8388608 = (Z.pos m~0, 0)) as ->.
  { rewrite Z.shiftl_mul_pow2 by lia.
    pose proof (Z.div_eucl_eq (Z.pos m * 2 ^ 24) 8388608 ltac:(lia)) as Heq.
    pose proof (Z.mod_pos_bound (Z.pos m * 2 ^ 24) 8388608 ltac:(lia)) as Hb.
    unfold Z.modulo in Hb.
    destruct (Z.div_eucl (Z.pos m * 2 ^ 24) 8388608) as [q r].
    change (2 ^ 24) with 16777216 in *. f_equal; lia. }
  change (xorb false false) with false.
  change (new_location 8388608 0) with loc_Exact.
  destruct (binary_round_aux_exact m~0 m 1 (e - k - 24)) as (m' & Hm' & _ & Hr);
    rewrite ?Hm; try lia.
  rewrite Hr, Hm. f_equal; [|lia].
  rewrite Hm in Hm'. simpl in Hm'. lia.
Qed.

(** the product of two floats whose exact product fits in 24 bits *)
Lemma fmul_fits (m1 m2 x : positive) (e1 e2 n : Z) :
  let d := Z.pos (digits2_pos x) in
  digits2_pos m1 = 24%positive ->
  digits2_pos m2 = 24%positive ->
  0 <= n -> Z.pos m1 * Z.pos m2 = Z.pos x * 2 ^ n ->
  d <= 24 ->
  -149 <= d + n + (e1 + e2) - 24 -> e1 + e2 + d + n - 24 <= 104 ->
  exists m', Z.pos m' = Z.pos x * 2 ^ (24 - d)
    /\ digits2_pos m' = 24%positive
    /\ fmul (S754_finite false m1 e1) (S754_finite false m2 e2)
       = S754_finite false m' (e1 + e2 + d + n - 24).
Proof.
  intros d H1 H2 Hn Hx Hd Hlo Hhi.
  unfold fmul, SFmul, float_prec, float_emax. change (xorb false false) with false.
  assert (Z.pos (m1 * m2) = Z.pos x * 2 ^ n) as HM by (by rewrite Pos2Z.inj_mul).
  assert (Z.pos (digits2_pos (m1 * m2)) = d + n) as Hdig
    by (by apply digits2_pos_shift).
  assert (24 <= d + n).
  { pose proof (digits2_pos_bounds m1) as B1. pose proof (digits2_pos_bounds m2) as B2.
    pose proof (digits2_pos_bounds (m1 * m2)) as B3.
    rewrite H1 in B1. rewrite H2 in B2. rewrite Hdig, Pos2Z.inj_mul in B3.
    destruct (Z.le_gt_cases 24 (d + n)); [done|].
    assert (2 ^ (d + n) <= 2 ^ 23) by (apply Z.pow_le_mono_r; lia).
    change (2 ^ (24 - 1)) with 8388608 in *. change (2 ^ 23) with 8388608 in *. nia. }
  apply (binary_round_aux_exact (m1 * m2) x n (e1 + e2)); fold d; try done; lia.
Qed.

Lemma float_value_finite_neg (m : positive) (e : Z) (num : Z) (den : positive) :
  e < 0 ->
  Z.pos m * Z.pos den = num * 2 ^ (- e) ->
  exists q, float_value (S754_finite false m e) = Some q /\ (q == num # den)%Q.
Proof.
  intros He Heq. unfold float_value.
  destruct (Z.leb_spec 0 e); [lia|].
  eexists; split; [done|].
  unfold Qeq. cbn [Qnum Qden].
  rewrite Pos2Z.inj_pow, Z2Pos.id by lia. done.
Qed.

Lemma theta_value (n : node) :
  0 <= sl.angle_z_q14 n < 65536 ->
  exists q, float_value (SampleData.theta n) = Some q
            /\ (q == sl.angle_z_q14 n * 90 # 16384)%Q.
Proof.
  intros Ha. unfold SampleData.theta.
  change (float_of_int 90) with (S754_finite false 11796480 (-17)).
  change (float_of_int 16384) with (S754_finite false 8388608 (-9)).
  destruct (Z.eq_dec (sl.angle_z_q14 n) 0) as [->|Hnz].
  { exists 0%Q. split; [done|]. done. }
  destruct (float_of_int_exact (sl.angle_z_q14 n)) as (ma & da & Hda & Hba & Hma & Hdma & ->);
    [change (2 ^ 24) with 16777216; lia|].
  destruct (sl.angle_z_q14 n * 90) as [|x|] eqn:Hx; try lia.
  pose proof (digits2_pos_bounds x) as Bx.
  set (d := Z.pos (digits2_pos x)) in *.
  assert (d <= 23).
  { destruct (Z.le_gt_cases d 23); [done|].
    assert (2 ^ 23 <= 2 ^ (d - 1)) by (apply Z.pow_le_mono_r; lia).
    change (2 ^ 23) with 8388608 in *. lia. }
  destruct (fmul_fits ma 11796480 x (da - 24) (-17) (41 - da)) as (m' & Hm' & Hdm' & ->);
    fold d; try done; try lia.
  { rewrite Hma, <-Hx. replace (41 - da) with ((24 - da) + 17) by lia.
    rewrite Z.pow_add_r by lia. change (2 ^ 17) with 131072. lia. }
  rewrite fdiv_pow2 by (done || lia).
  apply float_value_finite_neg; [lia|].
  fold d in Hm'. rewrite Hm'.
  replace (- (da - 24 + -17 + d + (41 - da) - 24 - -9 - 23)) with ((24 - d) + 14) by lia.
  rewrite Z.pow_add_r by lia. change (2 ^ 14) with 16384. lia.
Qed.

Lemma dist_value (n : node) :
  0 <= sl.dist_mm_q2 n < 2 ^ 24 ->
  exists q, float_value (SampleData.dist n) = Some q
            /\ (q == sl.dist_mm_q2 n # 4)%Q.
Proof.
  intros Ha. unfold SampleData.dist.
  change (float_of_int 4) with (S754_finite false 8388608 (-21)).
  destruct (Z.eq_dec (sl.dist_mm_q2 n) 0) as [->|Hnz].
  { exists 0%Q. split; [done|]. done. }
  destruct (float_of_int_exact (sl.dist_mm_q2 n)) as (m & d & Hd & Hb & Hm & Hdm & ->);
    [lia|].
  rewrite fdiv_pow2 by (done || lia).
  apply float_value_finite_neg; [lia|].
  rewrite Hm. replace (- (d - 24 - -21 - 23)) with ((24 - d) + 2) by lia.
  rewrite Z.pow_add_r by lia. change (2 ^ 2) with 4. lia.
Qed.

(** ** The loops and the whole programs *)

Section Loops.
Context `{Hdr : SlHeader} {E : Type} `{Env : Sdk E}.

Lemma session_run (acquire : M E Z) (w : World E) :
  exists r_p e1 t_p,
    prologue_outcome r_p t_p
    /\ session acquire w
       = match r_p with
         | Ret None => prepend t_p (acquire {| env := e1; fs := fs w |})
         | Ret (Some code) => (Ret code, {| env := e1; fs := fs w |}, t_p)
         | Exit code => (Exit code, {| env := e1; fs := fs w |}, t_p)
         | Running => (Running, {| env := e1; fs := fs w |}, t_p)
         end.
Proof.
  destruct (prologue_run w) as (r_p & e1 & t_p & Hrun & Hout).
  exists r_p, e1, t_p. split; [done|]. unfold session.
  destruct r_p as [[code|]|code|].
  - erewrite bind_run by done. unfold ret. by rewrite prepend_value, app_nil_r.
  - by erewrite bind_run by done.
  - by erewrite bind_exit by done.
  - by erewrite bind_running by done.
Qed.

Lemma sweep_run k m (w : World E) :
  exists rp e',
    sweep_ok rp
    /\ SampleData.sweep k m w
       = (Ret tt,
          {| env := e'; fs := <[SampleData.filename m := sweep_file rp]> (fs w) |},
          sweep_events k m rp).
Proof.
  destruct w as [e0 fs0].
  unfold SampleData.sweep, now, startScanExpress, grabScanDataHq, ascendScanData.
  run_out. run_out. run_out.
  run_call as [t0 e1]. run_call as [[r1 am] e2].
  run_out. run_call as [t1 e3]. run_out.
  pose proof (drv_grabScanDataHq_count 8192 e3 ltac:(lia)) as Hb.
  run_call as [[[r3 nodes] count] e4]. cbn [fst snd] in Hb.
  run_call as [t2 e5].
  rewrite lookup_insert_eq, insert_insert_eq. cbn [default app].
  destruct (SL_IS_OK r3) eqn:Hok.
  - rewrite bind_assoc.
    assert (ascend_answer nodes count (drv_ascendScanData nodes count e5).1) as Ha
      by (by exists e5).
    run_call as [[r5 nodes'] e6]. cbn [fst] in Ha.
    erewrite bind_run; [|apply for_each_write; cbn [fs]; apply lookup_insert_eq].
    run_norm. unfold println, emit. run_norm. cbn [env fs].
    exists {| sr_start := t0; sr_express := (r1, am); sr_mid := t1;
              sr_grab := (r3, nodes, count); sr_end := t2;
              sr_ascend := (r5, nodes') |}, e6.
    split; [by split|].
    unfold sweep_events, sweep_file, sweep_rows, slots.
    cbn [sr_start sr_express sr_mid sr_grab sr_end sr_ascend fst snd app].
    rewrite Hok, insert_insert_eq, !map_map. reflexivity.
  - rewrite bind_ret_l. unfold println, emit. run_norm.
    exists {| sr_start := t0; sr_express := (r1, am); sr_mid := t1;
              sr_grab := (r3, nodes, count); sr_end := t2;
              sr_ascend := (r3, nodes) |}, e5.
    split; [split; [done|]; cbn [sr_grab fst]; congruence|].
    unfold sweep_events, sweep_file, sweep_rows.
    cbn [sr_start sr_express sr_mid sr_grab sr_end sr_ascend fst snd app].
    rewrite Hok. reflexivity.
Qed.

Lemma sweeps_run k (modes : list sl.LidarScanMode) (w : World E) :
  exists rps e',
    length rps = length modes
    /\ Forall sweep_ok rps
    /\ for_each modes (SampleData.sweep k) w
       = (Ret tt, {| env := e'; fs := sweep_fs (fs w) modes rps |},
          concat (zip_with (sweep_events k) modes rps)).
Proof.
  revert w. induction modes as [|m modes IH]; intros w.
  - exists [], (env w). repeat split; [constructor|]. by destruct w.
  - destruct (sweep_run k m w) as (rp & e1 & Hok & Hrun).
    destruct (IH {| env := e1; fs := <[SampleData.filename m := sweep_file rp]> (fs w) |})
      as (rps & e' & Hlen & Hoks & Hruns).
    exists (rp :: rps), e'. split; [simpl; congruence|]. split; [by constructor|].
    cbn [for_each]. erewrite bind_run by done. rewrite Hruns, prepend_value.
    reflexivity.
Qed.

Lemma sample_data_run (w : World E) :
  exists r e' fs' t,
    SampleData.main w = (r, {| env := e'; fs := fs' |}, t)
    /\ sample_data_outcome (fs w) r fs' t.
Proof.
  unfold SampleData.main.
  destruct (session_run SampleData.acquire w) as (r_p & e1 & t_p & Hp & ->).
  destruct r_p as [[code|]|code|].
  - do 4 eexists. split; [done|]. by eapply SD_stopped.
  - unfold SampleData.acquire, setMotorSpeed, getAllSupportedScanModes, stop.
    run_call as [motor e2]. run_call as [[res modes] e3].
    destruct (SL_IS_FAIL res) eqn:Hres.
    + run_out. run_end.
      do 4 eexists. split; [reflexivity|]. by apply SD_no_modes.
    + destruct (sweeps_run (SampleData.max_name_len modes) modes {| env := e3; fs := fs w |})
        as (rps & e4 & Hlen & Hoks & Hruns).
      erewrite bind_run by done. run_norm.
      run_call as [stop_res e5]. run_end. cbn [fs].
      do 4 eexists. split; [reflexivity|].
      by apply (SD_swept _ _ motor).
  - do 4 eexists. split; [done|]. by eapply SD_stopped.
  - inversion Hp.
Qed.

Lemma capture_run (w : World E) (f0 : list Chunk) :
  fs w !! "data.bin" = Some f0 ->
  (exists rp e',
     capture_ok rp
     /\ ReadDataBin.capture w
        = (Ret None,
           {| env := e'; fs := <["data.bin" := f0 ++ capture_chunks rp]> (fs w) |},
           capture_events rp))
  \/ (exists res nodes count stop_res e',
        SL_IS_FAIL res = true
        /\ ReadDataBin.capture w
           = (Ret (Some (-1)), {| env := e'; fs := fs w |},
              capture_failure res nodes count stop_res)).
Proof.
  intros Hf. destruct w as [e0 fs0]. cbn [fs] in Hf.
  unfold ReadDataBin.capture, grabScanDataHq, ascendScanData, stop.
  pose proof (drv_grabScanDataHq_count 8192 e0 ltac:(lia)) as Hb.
  run_call as [[[res nodes] count] e1]. cbn [fst snd] in Hb.
  destruct (SL_IS_FAIL res) eqn:Hres.
  - right. run_out. run_call as [stop_res e2]. run_end.
    exists res, nodes, count, stop_res, e2. split; [done|]. reflexivity.
  - left.
    assert (ascend_answer nodes count (drv_ascendScanData nodes count e1).1) as Ha
      by (by exists e1).
    run_call as [[r2 nodes'] e2]. cbn [fst] in Ha.
    run_out. run_out. run_end.
    exists {| cr_grab := (res, nodes, count); cr_ascend := (r2, nodes') |}, e2.
    split; [done|].
    unfold capture_events, capture_chunks.
    cbn [cr_grab cr_ascend fst snd app map].
    rewrite Hf, lookup_insert_eq, insert_insert_eq.
    cbn [default from_option]. unfold id. by rewrite <-app_assoc.
Qed.

Lemma forever_capture (fuel : nat) (w : World E) (f0 : list Chunk) :
  fs w !! "data.bin" = Some f0 ->
  exists rps e',
    Forall capture_ok rps
    /\ let w' := {| env := e';
                   fs := <["data.bin" := f0 ++ flat_map capture_chunks rps]> (fs w) |} in
       (length rps = fuel
        /\ forever fuel ReadDataBin.capture w
           = (Running, w', flat_map capture_events rps))
       \/ (exists res nodes count stop_res,
             (length rps < fuel)%nat
             /\ SL_IS_FAIL res = true
             /\ forever fuel ReadDataBin.capture w
                = (Ret (-1), w',
                   flat_map capture_events rps
                   ++ capture_failure res nodes count stop_res)).
Proof.
  revert w f0. induction fuel as [|fuel IH]; intros w f0 Hf.
  - exists [], (env w). split; [constructor|]. left. split; [done|].
    cbn [flat_map forever]. rewrite app_nil_r, insert_id by done. by destruct w.
  - cbn [forever].
    destruct (capture_run w f0 Hf)
      as [(rp & e1 & Hok & Hrun)|(res & nodes & count & stop_res & e1 & Hres & Hrun)].
    + erewrite bind_run by done. cbn beta iota.
      destruct (IH {| env := e1;
                      fs := <["data.bin" := f0 ++ capture_chunks rp]> (fs w) |}
                   (f0 ++ capture_chunks rp))
        as (rps & e' & Hoks & Hcases); [apply lookup_insert_eq|].
      exists (rp :: rps), e'. split; [by constructor|].
      cbn [fs flat_map] in *. rewrite insert_insert_eq, <-app_assoc in Hcases.
      destruct Hcases as [[Hlen ->]|(res & nodes & count & stop_res & Hlen & Hres & ->)].
      * left. split; [simpl; congruence|]. by rewrite prepend_value.
      * right. exists res, nodes, count, stop_res.
        split; [simpl; lia|]. split; [done|].
        by rewrite prepend_value, app_assoc.
    + erewrite bind_run by done. cbn beta iota.
      exists [], e1. split; [constructor|]. right.
      exists res, nodes, count, stop_res. split; [simpl; lia|]. split; [done|].
      cbn [flat_map]. rewrite app_nil_r, insert_id by done.
      unfold ret. by rewrite prepend_value, app_nil_r.
Qed.

Lemma read_data_bin_run (fuel : nat) (w : World E) :
  exists r e' fs' t,
    ReadDataBin.main fuel w = (r, {| env := e'; fs := fs' |}, t)
    /\ read_data_bin_outcome fuel (fs w) r fs' t.
Proof.
  unfold ReadDataBin.main.
  destruct (session_run (ReadDataBin.acquire fuel) w) as (r_p & e1 & t_p & Hp & ->).
  destruct r_p as [[code|]|code|].
  - do 4 eexists. split; [done|]. by eapply RD_stopped.
  - unfold ReadDataBin.acquire, setMotorSpeed, startScan.
    run_call as [motor e2]. run_out. run_out.
    run_call as [started e3].
    destruct (forever_capture fuel {| env := e3; fs := <["data.bin" := []]> (fs w) |} [])
      as (rps & e' & Hoks & Hcases); [apply lookup_insert_eq|].
    cbn [fs app] in Hcases. rewrite insert_insert_eq in Hcases.
    destruct Hcases as [[Hlen ->]|(res & nodes & count & stop_res & Hlen & Hres & ->)].
    + run_norm. do 4 eexists. split; [reflexivity|].
      by apply (RD_running _ _ _ motor started).
    + run_norm. do 4 eexists. split; [reflexivity|].
      by apply (RD_failed _ _ _ motor started).
  - do 4 eexists. split; [done|]. by eapply RD_stopped.
  - inversion Hp.
Qed.

End Loops.

(** ** Facts about traces *)

Section TraceFacts.

Lemma each_suffix_nil (P : Event -> list Event -> Prop) : each_suffix P [].
Proof. intros pre e post Heq. by destruct pre. Qed.

Lemma each_suffix_cons (P : Event -> list Event -> Prop) e t :
  P e t -> each_suffix P t -> each_suffix P (e :: t).
Proof.
  intros He Ht [|e' pre] e0 post Heq; simplify_eq/=; [done|]. by eapply Ht.
Qed.

Lemma each_suffix_app (P : Event -> list Event -> Prop) a b :
  each_suffix (fun e post => P e (post ++ b)) a ->
  each_suffix P b ->
  each_suffix P (a ++ b).
Proof.
  induction a as [|x a IH]; intros Ha Hb; [done|].
  cbn [app]. apply each_suffix_cons.
  - by apply (Ha [] x a).
  - apply IH; [|done]. intros pre e post ->. by apply (Ha (x :: pre)).
Qed.

Lemma each_suffix_Forall (P : Event -> list Event -> Prop) a :
  Forall (fun e => forall post, P e post) a -> each_suffix P a.
Proof.
  intros Ha pre e post ->. rewrite Forall_app, Forall_cons in Ha.
  destruct Ha as (_ & He & _). apply He.
Qed.

Lemma each_suffix_skip (P : Event -> list Event -> Prop) a b :
  Forall (fun e => forall post, P e post) a ->
  each_suffix P b ->
  each_suffix P (a ++ b).
Proof.
  intros Ha Hb. apply each_suffix_app; [|done].
  apply each_suffix_Forall. eapply Forall_impl; [done|].
  intros e He post. apply He.
Qed.

Lemma each_suffix_lookup (P : Event -> list Event -> Prop) t i e :
  each_suffix P t -> t !! i = Some e -> P e (drop (S i) t).
Proof.
  intros Ht Hi. apply (Ht (take i t)). symmetry. by apply take_drop_middle.
Qed.

Lemma elem_of_map_2 {A B} (f : A -> B) (l : list A) (x : A) :
  x ∈ l -> f x ∈ map f l.
Proof.
  induction 1 as [x l|x y l _ IH]; cbn [map]; apply elem_of_cons; auto.
Qed.

Lemma lookup_map {A B} (f : A -> B) (l : list A) (i : nat) :
  map f l !! i = f <$> l !! i.
Proof. revert i. induction l as [|x l IH]; intros [|i]; cbn; auto. Qed.

Lemma omap_none {A B} (f : A -> option B) (l : list A) :
  Forall (fun x => f x = None) l -> omap f l = [].
Proof. induction 1 as [|x l Hx _ IH]; [done|]. cbn. by rewrite Hx. Qed.

Lemma writes_until_open_app a b :
  Forall (fun e => match e with EvOpen _ => False | _ => True end) a ->
  writes_until_open (a ++ b) = writes_until_open a ++ writes_until_open b.
Proof.
  induction 1 as [|e a He _ IH]; [done|].
  destruct e; cbn [app writes_until_open]; try done. by rewrite IH.
Qed.

Lemma files_written_skip a b :
  Forall (fun e => match e with EvOpen _ => False | _ => True end) a ->
  files_written (a ++ b) = files_written b.
Proof.
  induction 1 as [|e a He _ IH]; [done|]. by destruct e.
Qed.

End TraceFacts.

Section PrologueFacts.
Context `{Hdr : SlHeader}.

Lemma device_info_report_quiet devinfo :
  Forall (fun e => exists fmt args, e = EvPrint Stdout fmt args)
         (device_info_report devinfo).
Proof.
  unfold device_info_report. constructor; [eauto|].
  apply Forall_app. split.
  - apply Forall_map, Forall_forall. cbn. eauto.
  - repeat constructor. eauto.
Qed.

Lemma prologue_quiet r t :
  prologue_outcome r t -> Forall (fun e => quiet_event e = true) t.
Proof.
  assert (forall d, Forall (fun e => quiet_event e = true) (device_info_report d)) as Hd.
  { intros d. eapply Forall_impl; [apply device_info_report_quiet|].
    by intros e (fmt & args & ->). }
  destruct 1; unfold session_opening; cbn [app];
    repeat first [ apply Forall_nil_2
                 | apply Forall_cons_2; [reflexivity|]
                 | apply Forall_app_2; [apply Hd|] ].
Qed.

Lemma quiet_projections t :
  Forall (fun e => quiet_event e = true) t ->
  grab_results t = [] /\ express_modes t = [] /\ ascended t = []
  /\ opened t = [] /\ stops t = [] /\ files_written t = []
  /\ writes_until_open t = []
  /\ Forall (fun e => starts_motor_or_scan e = false) t
  /\ Forall (fun e => starts_scan_or_grabs e = false) t.
Proof.
  intros Ht. split_and!;
    try (apply omap_none; eapply Forall_impl; [done|]; by intros []).
  - induction Ht as [|e t He _ IH]; [done|]. by destruct e.
  - induction Ht as [|e t He _ IH]; [done|]. by destruct e.
  - eapply Forall_impl; [done|]. by intros [].
  - eapply Forall_impl; [done|]. by intros [].
Qed.

Lemma device_info_report_prints devinfo e :
  e ∈ device_info_report devinfo -> exists fmt args, e = EvPrint Stdout fmt args.
Proof.
  intros He. pose proof (device_info_report_quiet devinfo) as Hq.
  rewrite Forall_forall in Hq. by apply Hq.
Qed.

End PrologueFacts.

(** Decompose the membership of an event in a trace of the prologue. *)
Ltac in_prologue H :=
  unfold session_opening in H;
  repeat first [ rewrite elem_of_app in H | rewrite elem_of_cons in H
               | rewrite elem_of_nil in H ];
  repeat match type of H with
         | _ \/ _ => destruct H as [H|H]
         | _ ∈ device_info_report _ =>
             apply device_info_report_prints in H; destruct H as (? & ? & H)
         | False => destruct H
         end;
  try discriminate H.

Section PrologueHealth.
Context `{Hdr : SlHeader}.

Lemma prologue_health r t res status :
  prologue_outcome r t ->
  EvGetHealth res status ∈ t ->
  SL_IS_OK res = true ->
  (status = SL_LIDAR_STATUS_ERROR
   /\ r = Ret (Some (-1))
   /\ last t = Some (EvPrint Stderr
        "Error, slamtec lidar internal error detected. Please reboot the device to retry.\n"
        []))
  \/ (status <> SL_LIDAR_STATUS_ERROR /\ r = Ret None).
Proof.
  destruct 1; intros Hin Hok; in_prologue Hin; simplify_eq.
  - congruence.
  - left. split_and!; [done..|].
    unfold session_opening. by rewrite !last_app.
  - by right.
Qed.

End PrologueHealth.

(** *** The events of the acquisition *)

Section AcquisitionFacts.
Context `{Hdr : SlHeader} {E : Type} `{Env : Sdk E}.

Lemma sweep_events_loop k m rp :
  Forall (fun e => loop_event e = true) (sweep_events k m rp).
Proof.
  unfold sweep_events. rewrite !Forall_app. split_and!.
  - by repeat constructor.
  - destruct (SL_IS_OK _); [|done]. constructor; [done|].
    by apply Forall_map, Forall_forall.
  - by repeat constructor.
Qed.

Lemma sweeps_loop k modes rps :
  Forall (fun e => loop_event e = true)
         (concat (zip_with (sweep_events k) modes rps)).
Proof.
  apply Forall_concat, Forall_forall. intros seg Hseg.
  apply elem_of_lookup_zip_with in Hseg as (i & m & rp & -> & _ & _).
  apply sweep_events_loop.
Qed.

Lemma capture_events_loop rp :
  Forall (fun e => loop_event e = true) (capture_events rp).
Proof. by repeat constructor. Qed.

Lemma captures_loop rps :
  Forall (fun e => loop_event e = true) (flat_map capture_events rps).
Proof.
  induction rps as [|rp rps IH]; [done|].
  cbn [flat_map]. apply Forall_app. split; [apply capture_events_loop|done].
Qed.

Lemma loop_acquisition t :
  Forall (fun e => loop_event e = true) t ->
  Forall (fun e => session_event e = false) t.
Proof. intros Ht. eapply Forall_impl; [done|]. by intros []. Qed.

Lemma sweeps_acquisition k modes rps :
  Forall (fun e => session_event e = false)
         (concat (zip_with (sweep_events k) modes rps)).
Proof. apply loop_acquisition, sweeps_loop. Qed.

Lemma captures_acquisition rps :
  Forall (fun e => session_event e = false) (flat_map capture_events rps).
Proof. apply loop_acquisition, captures_loop. Qed.

(** A run is the trace of the prologue followed by that of the
    acquisition, which begins with the motor start. *)
Lemma sample_data_split fs0 r fs' t :
  sample_data_outcome fs0 r fs' t ->
  exists r_p t_p t_a,
    prologue_outcome r_p t_p /\ t = t_p ++ t_a
    /\ Forall (fun e => session_event e = false) t_a
    /\ ((stopped r_p = Some r /\ t_a = [])
        \/ (r_p = Ret None
            /\ exists motor res modes rest,
                 t_a = EvSetMotorSpeed motor
                       :: EvGetAllSupportedScanModes res modes :: rest)).
Proof.
  destruct 1 as [r_p r t_p Hp Hs|t_p motor res modes Hp Hres
                |t_p motor res modes rps stop_res Hp Hres Hlen Hoks].
  - exists r_p, t_p, []. rewrite app_nil_r. split_and!; [done..|by left].
  - eexists _, t_p, _. split_and!; [done..| |right; split; [done|]; eauto].
    by repeat constructor.
  - eexists _, t_p, _. split_and!; [done..| |right; split; [done|]].
    + cbn [app]. do 2 (constructor; [done|]).
      apply Forall_app. split; [apply sweeps_acquisition|by repeat constructor].
    + eexists motor, res, modes, _. reflexivity.
Qed.

Lemma read_data_bin_split fuel fs0 r fs' t :
  read_data_bin_outcome fuel fs0 r fs' t ->
  exists r_p t_p t_a,
    prologue_outcome r_p t_p /\ t = t_p ++ t_a
    /\ Forall (fun e => session_event e = false) t_a
    /\ ((stopped r_p = Some r /\ t_a = [])
        \/ (r_p = Ret None
            /\ exists motor started rest,
                 t_a = capture_opening motor started ++ rest)).
Proof.
  destruct 1 as [r_p r t_p Hp Hs|t_p motor started rps Hp Hlen Hoks
                |t_p motor started rps res nodes count stop_res Hp Hlen Hoks Hres].
  - exists r_p, t_p, []. rewrite app_nil_r. split_and!; [done..|by left].
  - eexists _, t_p, _. split_and!; [done..| |right; split; [done|]; eauto].
    apply Forall_app. split; [by repeat constructor|apply captures_acquisition].
  - eexists _, t_p, _. split_and!; [done..| |right; split; [done|]; eauto].
    rewrite !Forall_app. split_and!;
      [by repeat constructor|apply captures_acquisition|by repeat constructor].
Qed.

End AcquisitionFacts.

(** * The properties *)

(** ** Health check *)

Section Health.
Context `{Hdr : SlHeader} {E : Type} `{Env : Sdk E}.

(** What a successful health query decides, in a trace made of a prologue
    and an acquisition. *)
Lemma health_decides r_p t_p t_a res status :
  prologue_outcome r_p t_p ->
  Forall (fun e => session_event e = false) t_a ->
  EvGetHealth res status ∈ t_p ++ t_a ->
  SL_IS_OK res = true ->
  (status = SL_LIDAR_STATUS_ERROR
   /\ r_p = Ret (Some (-1))
   /\ last t_p = Some (EvPrint Stderr
        "Error, slamtec lidar internal error detected. Please reboot the device to retry.\n"
        []))
  \/ (status <> SL_LIDAR_STATUS_ERROR /\ r_p = Ret None).
Proof.
  intros Hp Ha Hin Hok. apply elem_of_app in Hin as [Hin|Hin].
  - by eapply prologue_health.
  - rewrite Forall_forall in Ha. by apply Ha in Hin.
Qed.

(** C3: when the health query succeeds and reports the status ERROR, the
    run makes no motor start and no scan start and returns -1 right after
    the report of the internal error; any other status, WARNING included,
    lets the run go on to the motor start (and, in continuous capture, to the
    scan start).  This holds for [read_data_bin] and for [sample_data]. *)
Theorem health_error_blocks_scanning (fuel : nat) (w : World E) (res : sl_result) :
  SL_IS_OK res = true ->
  let unhealthy (run : Res Z * World E * list Event) :=
    EvGetHealth res SL_LIDAR_STATUS_ERROR ∈ run.2 ->
    run.1.1 = Ret (-1)
    /\ Forall (fun e => starts_motor_or_scan e = false) run.2
    /\ last run.2 = Some (EvPrint Stderr
         "Error, slamtec lidar internal error detected. Please reboot the device to retry.\n"
         []) in
  unhealthy (ReadDataBin.main fuel w)
  /\ unhealthy (SampleData.main w)
  /\ (forall status,
        status <> SL_LIDAR_STATUS_ERROR ->
        EvGetHealth res status ∈ (ReadDataBin.main fuel w).2 ->
        exists motor started,
          EvSetMotorSpeed motor ∈ (ReadDataBin.main fuel w).2
          /\ EvStartScan false true started ∈ (ReadDataBin.main fuel w).2)
  /\ (forall status,
        status <> SL_LIDAR_STATUS_ERROR ->
        EvGetHealth res status ∈ (SampleData.main w).2 ->
        exists motor, EvSetMotorSpeed motor ∈ (SampleData.main w).2).
Proof.
  intros Hok unhealthy. unfold unhealthy.
  destruct (read_data_bin_run fuel w) as (r1 & e1 & fs1 & t1 & -> & Hrd).
  destruct (sample_data_run w) as (r2 & e2 & fs2 & t2 & -> & Hsd).
  cbn [fst snd].
  apply read_data_bin_split in Hrd as (rp1 & tp1 & ta1 & Hp1 & -> & Ha1 & Hc1).
  apply sample_data_split in Hsd as (rp2 & tp2 & ta2 & Hp2 & -> & Ha2 & Hc2).
  pose proof (prologue_quiet _ _ Hp1) as Hq1. apply quiet_projections in Hq1.
  pose proof (prologue_quiet _ _ Hp2) as Hq2. apply quiet_projections in Hq2.
  split_and!.
  - intros Hin.
    destruct (health_decides _ _ _ _ _ Hp1 Ha1 Hin Hok) as [(_ & -> & Hlast)|[? _]];
      [|done].
    destruct Hc1 as [[Hs ->]|[? _]]; [|done]. rewrite app_nil_r.
    destruct Hq1 as (_ & _ & _ & _ & _ & _ & _ & Hm & _).
    by simplify_eq/=.
  - intros Hin.
    destruct (health_decides _ _ _ _ _ Hp2 Ha2 Hin Hok) as [(_ & -> & Hlast)|[? _]];
      [|done].
    destruct Hc2 as [[Hs ->]|[? _]]; [|done]. rewrite app_nil_r.
    destruct Hq2 as (_ & _ & _ & _ & _ & _ & _ & Hm & _).
    by simplify_eq/=.
  - intros status Hst Hin.
    destruct (health_decides _ _ _ _ _ Hp1 Ha1 Hin Hok) as [[? _]|[_ ->]]; [done|].
    destruct Hc1 as [[Hs _]|(_ & motor & started & rest & ->)]; [done|].
    exists motor, started. unfold capture_opening.
    split; apply elem_of_app; right; apply elem_of_app; left;
      rewrite !elem_of_cons; auto 10.
  - intros status Hst Hin.
    destruct (health_decides _ _ _ _ _ Hp2 Ha2 Hin Hok) as [[? _]|[_ ->]]; [done|].
    destruct Hc2 as [[Hs _]|(_ & motor & r & modes & rest & ->)]; [done|].
    exists motor. apply elem_of_app; right. rewrite elem_of_cons; auto.
Qed.

End Health.

(** ** Exit status of the fatal paths *)

Section ExitStatus.
Context `{Hdr : SlHeader} {E : Type} `{Env : Sdk E}.

Lemma failure_classes_app a b :
  failure_classes (a ++ b) = failure_classes a ++ failure_classes b.
Proof. apply omap_app. Qed.

Lemma failure_classes_none t :
  Forall (fun e => fatal_class e = None) t -> failure_classes t = [].
Proof. apply omap_none. Qed.

Lemma device_info_report_no_failure devinfo :
  failure_classes (device_info_report devinfo) = [].
Proof.
  apply failure_classes_none. eapply Forall_impl; [apply device_info_report_quiet|].
  by intros e (fmt & args & ->).
Qed.

Lemma failure_classes_cons e t :
  failure_classes (e :: t) = failure_classes [e] ++ failure_classes t.
Proof. apply (failure_classes_app [e] t). Qed.

(** Every failure the prologue meets ends the run with the status of its
    class. *)
Lemma prologue_failure_classes r t :
  prologue_outcome r t ->
  Forall (fun c => exists r', stopped r = Some r'
                              /\ exit_status r' = Some (fatal_exit_code c))
         (failure_classes t).
Proof.
  destruct 1; unfold session_opening;
    rewrite ?failure_classes_app, ?device_info_report_no_failure;
    rewrite ?(failure_classes_cons (EvGetDeviceInfo _) (_ ++ _));
    rewrite ?failure_classes_app, ?device_info_report_no_failure;
    unfold failure_classes; cbn;
    repeat match goal with
           | H : _ = true |- _ => rewrite H; clear H
           | H : _ = false |- _ => rewrite H; clear H
           end;
    cbn;
    repeat first [ apply Forall_nil_2
                 | apply Forall_cons_2; [eexists; split; reflexivity|] ].
Qed.

Lemma prologue_healthy_no_failure t :
  prologue_outcome (Ret None) t -> failure_classes t = [].
Proof.
  intros Hp. apply prologue_failure_classes in Hp.
  destruct (failure_classes t) as [|c l]; [done|].
  apply Forall_cons in Hp as [(r' & Hs & _) _]. done.
Qed.

Lemma loop_no_failure t :
  Forall (fun e => loop_event e = true) t -> failure_classes t = [].
Proof.
  intros Ht. apply failure_classes_none. eapply Forall_impl; [done|].
  by intros [].
Qed.

(** C7, as amended: the fatal paths use two exit statuses, both negative.
    A failed allocation (a factory that returns no object) ends the process
    with -2; a failure to create the channel and a failed operation on the
    way to scanning (driver creation, connect, device information, health
    query, scan-mode query) both end it with -1.  So the status separates
    an allocation failure from the other two classes, and does not separate
    these two from each other. *)
Theorem fatal_paths_exit_status (fuel : nat) (w : World E) (c : FailureClass) :
  (c ∈ failure_classes (ReadDataBin.main fuel w).2 ->
   exit_status (ReadDataBin.main fuel w).1.1 = Some (fatal_exit_code c))
  /\ (c ∈ failure_classes (SampleData.main w).2 ->
      exit_status (SampleData.main w).1.1 = Some (fatal_exit_code c))
  /\ fatal_exit_code c < 0
  /\ fatal_exit_code ChannelCreation = fatal_exit_code Operational
  /\ fatal_exit_code Allocation <> fatal_exit_code Operational.
Proof.
  destruct (read_data_bin_run fuel w) as (r1 & e1 & fs1 & t1 & -> & Hrd).
  destruct (sample_data_run w) as (r2 & e2 & fs2 & t2 & -> & Hsd).
  cbn [fst snd]. split_and!; [| |by destruct c|done|done].
  - destruct Hrd as [r_p r t_p Hp Hs|t_p motor started rps Hp Hlen Hoks
                    |t_p motor started rps res nodes count stop_res Hp Hlen Hoks Hres].
    + intros Hc. pose proof (prologue_failure_classes _ _ Hp) as Hf.
      rewrite Forall_forall in Hf. destruct (Hf c Hc) as (r' & Hr' & Hcode).
      congruence.
    + rewrite !failure_classes_app, (prologue_healthy_no_failure _ Hp),
        (loop_no_failure _ (captures_loop rps)).
      cbn. by rewrite elem_of_nil.
    + rewrite !failure_classes_app, (prologue_healthy_no_failure _ Hp),
        (loop_no_failure _ (captures_loop rps)).
      cbn. by rewrite elem_of_nil.
  - destruct Hsd as [r_p r t_p Hp Hs|t_p motor res modes Hp Hres
                    |t_p motor res modes rps stop_res Hp Hres Hlen Hoks].
    + intros Hc. pose proof (prologue_failure_classes _ _ Hp) as Hf.
      rewrite Forall_forall in Hf. destruct (Hf c Hc) as (r' & Hr' & Hcode).
      congruence.
    + rewrite !failure_classes_app, (prologue_healthy_no_failure _ Hp).
      unfold failure_classes. cbn. rewrite Hres, list_elem_of_singleton.
      by intros ->.
    + rewrite !failure_classes_app, (prologue_healthy_no_failure _ Hp),
        (loop_no_failure _ (sweeps_loop _ modes rps)).
      unfold failure_classes. cbn. rewrite Hres. by rewrite elem_of_nil.
Qed.

End ExitStatus.

(** ** Motor start and scan start *)

Section MotorStart.
Context `{Hdr : SlHeader} {E : Type} `{Env : Sdk E}.

(** A property of what follows the motor start holds at every event that
    is not a motor start. *)
Lemma after_motor_skip (Q : list Event -> Prop) (t : list Event) :
  Forall (fun e => match e with EvSetMotorSpeed _ => False | _ => True end) t ->
  Forall (fun e => forall post,
            match e with EvSetMotorSpeed _ => Q post | _ => True end) t.
Proof. intros Ht. eapply Forall_impl; [done|]. by intros []. Qed.

Lemma quiet_no_motor t :
  Forall (fun e => quiet_event e = true) t ->
  Forall (fun e => match e with EvSetMotorSpeed _ => False | _ => True end) t.
Proof. intros Ht. eapply Forall_impl; [done|]. by intros []. Qed.

Lemma loop_no_motor t :
  Forall (fun e => loop_event e = true) t ->
  Forall (fun e => match e with EvSetMotorSpeed _ => False | _ => True end) t.
Proof. intros Ht. eapply Forall_impl; [done|]. by intros []. Qed.

(** C6, as amended: the result of the motor start is not inspected.
    Whatever [setMotorSpeed] returns, [read_data_bin] goes on to open
    [data.bin], announce the capture and start the scan, and [sample_data]
    goes on to query the scan modes; nothing is reported about the motor
    and a failed motor start does not end the run. *)
Theorem motor_start_result_is_ignored (fuel : nat) (w : World E) :
  each_suffix (fun e post =>
      match e with
      | EvSetMotorSpeed _ =>
          exists started rest,
            post = EvOpen "data.bin"
                   :: EvPrint Stdout "Reading from lidar...\n" []
                   :: EvStartScan false true started :: rest
      | _ => True
      end) (ReadDataBin.main fuel w).2
  /\ each_suffix (fun e post =>
      match e with
      | EvSetMotorSpeed _ =>
          exists res modes rest,
            post = EvGetAllSupportedScanModes res modes :: rest
      | _ => True
      end) (SampleData.main w).2.
Proof.
  destruct (read_data_bin_run fuel w) as (r1 & e1 & fs1 & t1 & -> & Hrd).
  destruct (sample_data_run w) as (r2 & e2 & fs2 & t2 & -> & Hsd).
  cbn [fst snd]. split.
  - destruct Hrd as [r_p r t_p Hp Hs|t_p motor started rps Hp Hlen Hoks
                    |t_p motor started rps res nodes count stop_res Hp Hlen Hoks Hres].
    + apply each_suffix_Forall, after_motor_skip, quiet_no_motor.
      by eapply prologue_quiet.
    + apply each_suffix_skip;
        [by eapply after_motor_skip, quiet_no_motor, prologue_quiet|].
      unfold capture_opening. cbn [app]. apply each_suffix_cons; [by eauto|].
      apply each_suffix_Forall, after_motor_skip.
      do 3 (constructor; [done|]). apply loop_no_motor, captures_loop.
    + apply each_suffix_skip;
        [by eapply after_motor_skip, quiet_no_motor, prologue_quiet|].
      unfold capture_opening. cbn [app]. apply each_suffix_cons; [by eauto|].
      apply each_suffix_Forall, after_motor_skip.
      do 3 (constructor; [done|]). apply Forall_app. split.
      * apply loop_no_motor, captures_loop.
      * by repeat constructor.
  - destruct Hsd as [r_p r t_p Hp Hs|t_p motor res modes Hp Hres
                    |t_p motor res modes rps stop_res Hp Hres Hlen Hoks].
    + apply each_suffix_Forall, after_motor_skip, quiet_no_motor.
      by eapply prologue_quiet.
    + apply each_suffix_skip;
        [by eapply after_motor_skip, quiet_no_motor, prologue_quiet|].
      apply each_suffix_cons; [by eauto|].
      apply each_suffix_Forall, after_motor_skip. by repeat constructor.
    + apply each_suffix_skip;
        [by eapply after_motor_skip, quiet_no_motor, prologue_quiet|].
      cbn [app]. apply each_suffix_cons; [by eauto|].
      apply each_suffix_Forall, after_motor_skip.
      constructor; [done|]. apply Forall_app. split.
      * apply loop_no_motor, sweeps_loop.
      * by repeat constructor.
Qed.

End MotorStart.

(** ** The multi-mode sweep *)

Section Sweep.
Context `{Hdr : SlHeader} {E : Type} `{Env : Sdk E}.

(** An observation that ignores file writes sees nothing in the rows. *)
Lemma omap_rows {B} (f : Event -> option B) path (rows : list node) :
  (forall c, f (EvWrite path c) = None) ->
  omap f (map (fun n => EvWrite path (SampleData.row n)) rows) = [].
Proof.
  intros Hf. apply omap_none, Forall_map, Forall_forall. intros n _. apply Hf.
Qed.

(** What one iteration shows of each kind of event. *)
Lemma sweep_events_observed k m rp :
  grab_results (sweep_events k m rp) = [(sr_grab rp).1.1]
  /\ express_modes (sweep_events k m rp) = [sl.id m]
  /\ opened (sweep_events k m rp) = [SampleData.filename m]
  /\ stderr_reports (sweep_events k m rp) = []
  /\ stops (sweep_events k m rp) = []
  /\ ascended (sweep_events k m rp)
     = (if SL_IS_OK (sr_grab rp).1.1
        then [slots (sr_ascend rp).2 (sr_grab rp).2] else []).
Proof.
  unfold sweep_events, grab_results, express_modes, opened, stderr_reports,
    stops, ascended.
  rewrite !omap_app. destruct (SL_IS_OK (sr_grab rp).1.1);
    cbn [omap list_omap app]; rewrite ?omap_rows by done; done.
Qed.

(** The same over the whole loop. *)
Lemma sweeps_observed k modes rps :
  length rps = length modes ->
  let t := concat (zip_with (sweep_events k) modes rps) in
  grab_results t = map (fun rp => (sr_grab rp).1.1) rps
  /\ express_modes t = map sl.id modes
  /\ opened t = map SampleData.filename modes
  /\ stderr_reports t = []
  /\ stops t = []
  /\ ascended t
     = flat_map (fun rp => if SL_IS_OK (sr_grab rp).1.1
                           then [slots (sr_ascend rp).2 (sr_grab rp).2]
                           else []) rps.
Proof.
  revert rps. induction modes as [|m modes IH]; intros [|rp rps] Hlen;
    try discriminate Hlen; [done|].
  injection Hlen as Hlen. cbn [zip_with concat map flat_map].
  destruct (IH rps Hlen) as (Hg & He & Ho & Hs & Hst & Ha).
  destruct (sweep_events_observed k m rp) as (Hg' & He' & Ho' & Hs' & Hst' & Ha').
  unfold grab_results, express_modes, opened, stderr_reports, stops, ascended in *.
  rewrite !omap_app, Hg, He, Ho, Hs, Hst, Ha, Hg', He', Ho', Hs', Hst', Ha'.
  done.
Qed.

(** A property of the suffixes of a sweep follows from the same property of
    one iteration, given what is known of the rest of the trace. *)
Lemma sweeps_each_suffix (P : Event -> list Event -> Prop)
    (I : list Event -> Prop) k modes rps rest :
  I rest ->
  (forall m rp tail,
     I tail ->
     each_suffix (fun e post => P e (post ++ tail)) (sweep_events k m rp)
     /\ I (sweep_events k m rp ++ tail)) ->
  each_suffix P rest ->
  each_suffix P (concat (zip_with (sweep_events k) modes rps) ++ rest)
  /\ I (concat (zip_with (sweep_events k) modes rps) ++ rest).
Proof.
  intros Hrest Hstep HP. revert rps.
  induction modes as [|m modes IH]; intros [|rp rps]; cbn [zip_with concat app];
    try done.
  destruct (IH rps) as [IH1 IH2]. rewrite <-app_assoc.
  destruct (Hstep m rp _ IH2) as [H1 H2].
  split; [|done]. by apply each_suffix_app.
Qed.

(** *** The files of a sweep *)

Lemma writes_until_open_rows path (rows : list node) rest :
  writes_until_open
    (map (fun n => EvWrite path (SampleData.row n)) rows ++ rest)
  = map SampleData.row rows ++ writes_until_open rest.
Proof. induction rows as [|n rows IH]; [done|]. cbn. by rewrite IH. Qed.

Lemma sweep_events_files k m rp rest :
  files_written (sweep_events k m rp ++ rest)
  = (SampleData.filename m, sweep_file rp ++ writes_until_open rest)
    :: files_written rest
  /\ writes_until_open (sweep_events k m rp ++ rest) = [].
Proof.
  split; [|done].
  unfold sweep_events, sweep_file, sweep_rows.
  destruct (SL_IS_OK (sr_grab rp).1.1); rewrite <-!app_assoc;
    cbn [app files_written writes_until_open].
  - rewrite writes_until_open_rows. cbn [app writes_until_open].
    f_equal. rewrite cons_middle, app_assoc. apply files_written_skip.
    apply Forall_app. split; [by apply Forall_map, Forall_forall|by repeat constructor].
  - done.
Qed.

Lemma sweeps_files k modes rps stop_res :
  length rps = length modes ->
  files_written (concat (zip_with (sweep_events k) modes rps) ++ [EvStop stop_res])
  = zip_with (fun m rp => (SampleData.filename m, sweep_file rp)) modes rps.
Proof.
  revert rps. induction modes as [|m modes IH]; intros [|rp rps] Hlen;
    try discriminate Hlen; [done|].
  injection Hlen as Hlen. cbn [zip_with concat]. rewrite <-app_assoc.
  destruct (sweep_events_files k m rp
              (concat (zip_with (sweep_events k) modes rps) ++ [EvStop stop_res]))
    as [-> _].
  rewrite IH by done. f_equal. f_equal.
  destruct modes as [|m' modes], rps as [|rp' rps]; try discriminate Hlen;
    cbn [zip_with concat app].
  - by rewrite app_nil_r.
  - rewrite <-app_assoc.
    destruct (sweep_events_files k m' rp'
                (concat (zip_with (sweep_events k) modes rps) ++ [EvStop stop_res]))
      as [_ ->].
    by rewrite app_nil_r.
Qed.

(** The file of a mode after the sweep is the table written for the last
    mode of that file name. *)
Lemma sweep_fs_other fs0 modes rps path :
  path ∉ map SampleData.filename modes ->
  sweep_fs fs0 modes rps !! path = fs0 !! path.
Proof.
  revert fs0 rps. induction modes as [|m modes IH]; intros fs0 [|rp rps] Hpath;
    try done.
  unfold sweep_fs. cbn [zip fold_left zip_with fst snd].
  cbn [map] in Hpath. rewrite not_elem_of_cons in Hpath.
  destruct Hpath as [Hne Hpath].
  fold (sweep_fs (<[SampleData.filename m:=sweep_file rp]> fs0) modes rps).
  rewrite IH by done. by rewrite lookup_insert_ne.
Qed.

Lemma sweep_fs_last fs0 modes1 m modes2 rps1 rp rps2 :
  length rps1 = length modes1 ->
  SampleData.filename m ∉ map SampleData.filename modes2 ->
  sweep_fs fs0 (modes1 ++ m :: modes2) (rps1 ++ rp :: rps2)
    !! SampleData.filename m
  = Some (sweep_file rp).
Proof.
  intros Hlen Hlast. unfold sweep_fs.
  rewrite zip_with_app by done. rewrite fold_left_app.
  cbn [zip_with fold_left fst snd].
  match goal with
  | |- fold_left _ _ ?f !! _ = _ =>
      change (sweep_fs f modes2 rps2 !! SampleData.filename m = Some (sweep_file rp))
  end.
  rewrite sweep_fs_other by done. apply lookup_insert_eq.
Qed.

Lemma sweep_fs_written fs0 modes rps path :
  length rps = length modes ->
  path ∈ map SampleData.filename modes ->
  exists rp, rp ∈ rps /\ sweep_fs fs0 modes rps !! path = Some (sweep_file rp).
Proof.
  revert fs0 rps. induction modes as [|m modes IH]; intros fs0 [|rp rps] Hlen Hpath;
    try discriminate Hlen.
  { by apply elem_of_nil in Hpath. }
  injection Hlen as Hlen.
  destruct (decide (path ∈ map SampleData.filename modes)) as [Hin|Hnot].
  - destruct (IH (<[SampleData.filename m:=sweep_file rp]> fs0) rps Hlen Hin)
      as (rp' & Hrp' & Hl).
    exists rp'. split; [by apply elem_of_cons; right|done].
  - exists rp. split; [apply elem_of_cons; by left|].
    cbn [map] in Hpath. apply elem_of_cons in Hpath as [->|Hpath]; [|done].
    apply (sweep_fs_last fs0 [] m modes [] rp rps); done.
Qed.

End Sweep.

Section SweepClaims.
Context `{Hdr : SlHeader} {E : Type} `{Env : Sdk E}.

Lemma int_of_size_t_small (count : Z) :
  0 <= count <= 8192 -> int_of_size_t count = count.
Proof.
  intros Hc. unfold int_of_size_t.
  change (2 ^ 31) with 2147483648. change (2 ^ 32) with 4294967296.
  rewrite Z.mod_small; lia.
Qed.

Lemma sweep_rows_ok rp :
  sweep_ok rp ->
  sweep_rows rp
  = if SL_IS_OK (sr_grab rp).1.1 then slots (sr_ascend rp).2 (sr_grab rp).2 else [].
Proof. intros [Hc _]. unfold sweep_rows. by rewrite int_of_size_t_small. Qed.

(** A run in which the scan modes have been enumerated is a sweep over
    these modes. *)
Lemma sample_data_swept fs0 r fs' t res modes :
  sample_data_outcome fs0 r fs' t ->
  EvGetAllSupportedScanModes res modes ∈ t ->
  SL_IS_FAIL res = false ->
  exists t_p motor rps stop_res,
    prologue_outcome (Ret None) t_p
    /\ length rps = length modes
    /\ Forall sweep_ok rps
    /\ r = Ret 0
    /\ fs' = sweep_fs fs0 modes rps
    /\ t = t_p ++ [EvSetMotorSpeed motor; EvGetAllSupportedScanModes res modes]
           ++ concat (zip_with (sweep_events (SampleData.max_name_len modes)) modes rps)
           ++ [EvStop stop_res].
Proof.
  assert (forall t_p r_p, prologue_outcome r_p t_p ->
            EvGetAllSupportedScanModes res modes ∉ t_p) as Hquiet.
  { intros t_p r_p Hp Hin. apply prologue_quiet in Hp.
    rewrite Forall_forall in Hp. by apply Hp in Hin. }
  destruct 1 as [r_p r t_p Hp Hs|t_p motor res' modes' Hp Hres
                |t_p motor res' modes' rps stop_res Hp Hres Hlen Hoks];
    intros Hin Hok.
  - by apply (Hquiet _ _ Hp) in Hin.
  - apply elem_of_app in Hin as [Hin|Hin]; [by apply (Hquiet _ _ Hp) in Hin|].
    rewrite !elem_of_cons, elem_of_nil in Hin.
    destruct Hin as [|[|[|[]]]]; simplify_eq. congruence.
  - apply elem_of_app in Hin as [Hin|Hin]; [by apply (Hquiet _ _ Hp) in Hin|].
    rewrite !elem_of_app, !elem_of_cons, !elem_of_nil in Hin.
    destruct Hin as [[|[|[]]]|[Hin|[|[]]]]; simplify_eq.
    + by exists t_p, motor, rps, stop_res.
    + pose proof (sweeps_loop (SampleData.max_name_len modes') modes' rps) as Hl.
      rewrite Forall_forall in Hl. by apply Hl in Hin.
Qed.

Lemma prologue_healthy_silent t :
  prologue_outcome (Ret None) t -> stderr_reports t = [].
Proof.
  inversion 1; subst. unfold stderr_reports, session_opening.
  rewrite (cons_middle (EvGetDeviceInfo _)), !omap_app.
  rewrite (omap_none _ (device_info_report _)); [done|].
  eapply Forall_impl; [apply device_info_report_quiet|].
  by intros e (fmt & args & ->).
Qed.

(** What a sweep shows of each kind of event. *)
Lemma swept_observed t_p motor res modes rps stop_res :
  prologue_outcome (Ret None) t_p ->
  length rps = length modes ->
  let t := t_p ++ [EvSetMotorSpeed motor; EvGetAllSupportedScanModes res modes]
           ++ concat (zip_with (sweep_events (SampleData.max_name_len modes)) modes rps)
           ++ [EvStop stop_res] in
  grab_results t = map (fun rp => (sr_grab rp).1.1) rps
  /\ express_modes t = map sl.id modes
  /\ opened t = map SampleData.filename modes
  /\ stderr_reports t = []
  /\ stops t = [stop_res]
  /\ ascended t
     = flat_map (fun rp => if SL_IS_OK (sr_grab rp).1.1
                           then [slots (sr_ascend rp).2 (sr_grab rp).2]
                           else []) rps
  /\ files_written t
     = zip_with (fun m rp => (SampleData.filename m, sweep_file rp)) modes rps.
Proof.
  intros Hp Hlen t.
  pose proof (prologue_healthy_silent _ Hp) as Hsilent.
  pose proof (prologue_quiet _ _ Hp) as Hq.
  destruct (quiet_projections _ Hq) as (Hg & He & Ha & Ho & Hs & Hf & Hw & _ & _).
  destruct (sweeps_observed (SampleData.max_name_len modes) modes rps Hlen)
    as (Hg' & He' & Ho' & Hs' & Hst' & Ha').
  unfold t, grab_results, express_modes, opened, stderr_reports, stops, ascended in *.
  rewrite !omap_app, Hg, He, Ha, Ho, Hs, Hsilent, Hg', He', Ho', Hs', Hst', Ha'.
  cbn [omap list_omap app]. rewrite !app_nil_r. split_and!; try done.
  rewrite files_written_skip.
  - cbn [app files_written]. by apply sweeps_files.
  - eapply Forall_impl; [done|]. by intros [].
Qed.

(** The iteration of the mode at position [i], and the iterations before
    it. *)
Lemma sweeps_at k (modes : list sl.LidarScanMode) (rps : list SweepReply) i m :
  length rps = length modes ->
  modes !! i = Some m ->
  exists rp rest,
    concat (zip_with (sweep_events k) modes rps)
    = concat (zip_with (sweep_events k) (take i modes) (take i rps))
      ++ sweep_events k m rp ++ rest
    /\ length (take i rps) = length (take i modes)
    /\ length (take i modes) = i.
Proof.
  intros Hlen Hm.
  assert (i < length rps)%nat as Hi by (apply lookup_lt_Some in Hm; lia).
  destruct (lookup_lt_is_Some_2 rps i Hi) as [rp Hrp].
  exists rp, (concat (zip_with (sweep_events k) (drop (S i) modes) (drop (S i) rps))).
  assert (length (take i rps) = length (take i modes)) as Htake
    by (rewrite !length_take; lia).
  split_and!; [|done|rewrite length_take; apply lookup_lt_Some in Hm; lia].
  rewrite <-(take_drop_middle modes i m Hm) at 1.
  rewrite <-(take_drop_middle rps i rp Hrp) at 1.
  rewrite zip_with_app by done. cbn [zip_with]. by rewrite concat_app.
Qed.

(** C9: in the sweep the result of [startScanExpress] is not inspected.
    Every scan start, whatever its result, is followed by the report of the
    mode the driver says it negotiated and then by the retrieval.  When the
    scan modes have been enumerated, this happens for every mode: the scan
    starts of the run are those of the enumerated modes, in order, and for
    the mode at each position the trace holds the scan start in that mode,
    the report of the negotiated mode and the retrieval, one after the
    other, after the scan starts and retrievals of the modes before it;
    there are as many retrievals as modes, nothing is put on the error
    stream and [main] returns 0. *)
Theorem scan_start_result_is_ignored (w : World E) (res : sl_result)
    (modes : list sl.LidarScanMode) :
  let t := (SampleData.main w).2 in
  each_suffix (fun e post =>
      match e with
      | EvStartScanExpress force _ options _ actualMode =>
          force = false /\ options = 0
          /\ exists mid res_grab nodes count rest,
               post = EvPrint Stdout "    Working in mode {} {}\n"
                        [ArgInt (sl.id actualMode); ArgStr (sl.scan_mode actualMode)]
                      :: EvClockNow mid
                      :: EvPrint Stdout "    Got {} points\n" [ArgInt 8192]
                      :: EvGrabScanDataHq 8192 res_grab nodes count
                      :: rest
      | _ => True
      end) t
  /\ (EvGetAllSupportedScanModes res modes ∈ t ->
      SL_IS_FAIL res = false ->
      express_modes t = map sl.id modes
      /\ length (grab_results t) = length modes
      /\ stderr_reports t = []
      /\ (SampleData.main w).1.1 = Ret 0
      /\ forall i m,
           modes !! i = Some m ->
           exists pre res_start actualMode mid res_grab nodes count rest,
             t = pre
                 ++ EvStartScanExpress false (sl.id m) 0 res_start actualMode
                 :: EvPrint Stdout "    Working in mode {} {}\n"
                      [ArgInt (sl.id actualMode); ArgStr (sl.scan_mode actualMode)]
                 :: EvClockNow mid
                 :: EvPrint Stdout "    Got {} points\n" [ArgInt 8192]
                 :: EvGrabScanDataHq 8192 res_grab nodes count
                 :: rest
             /\ express_modes pre = map sl.id (take i modes)
             /\ length (grab_results pre) = i).
Proof.
  intros t. unfold t. clear t.
  set (P := fun e post => match e with
                          | EvStartScanExpress _ _ _ _ _ => _
                          | _ => True
                          end).
  assert (forall t, Forall (fun e => quiet_event e = true) t ->
                    Forall (fun e => forall post, P e post) t) as Hquiet.
  { intros t Ht. eapply Forall_impl; [done|]. by intros []. }
  destruct (sample_data_run w) as (r & e' & fs' & t & Hrun & Hsd).
  rewrite Hrun. cbn [fst snd]. split.
  - destruct Hsd as [r_p r t_p Hp Hs|t_p motor res' modes' Hp Hres
                    |t_p motor res' modes' rps stop_res Hp Hres Hlen Hoks].
    + by eapply each_suffix_Forall, Hquiet, prologue_quiet.
    + apply each_suffix_skip; [by eapply Hquiet, prologue_quiet|].
      apply each_suffix_Forall. by repeat constructor.
    + apply each_suffix_skip; [by eapply Hquiet, prologue_quiet|].
      cbn [app]. do 2 (apply each_suffix_cons; [done|]).
      apply (sweeps_each_suffix P (fun _ => True)); [done| |].
      * intros m rp tail _. split; [|done].
        unfold sweep_events. cbn [app].
        do 4 (apply each_suffix_cons; [done|]).
        apply each_suffix_cons; [unfold P; split_and!; [done..|]; by eauto 10|].
        do 5 (apply each_suffix_cons; [done|]).
        apply each_suffix_Forall.
        destruct (SL_IS_OK _); cbn [app]; repeat (constructor; [done|]);
          try done.
        apply Forall_app. split; [by apply Forall_map, Forall_forall|].
        by repeat constructor.
      * apply each_suffix_Forall. by repeat constructor.
  - intros Hin Hres. clear P Hquiet.
    destruct (sample_data_swept _ _ _ _ _ _ Hsd Hin Hres)
      as (t_p & motor & rps & stop_res & Hp & Hlen & Hoks & -> & _ & ->).
    destruct (swept_observed t_p motor res modes rps stop_res Hp Hlen)
      as (Hg & He & _ & Hs & _).
    cbv zeta in Hg, He, Hs.
    split_and!; [done|by rewrite Hg, length_map|done|done|].
    intros i m Hi.
    destruct (sweeps_at (SampleData.max_name_len modes) modes rps i m Hlen Hi)
      as (rp & rest & -> & Htake & Hlen_i).
    destruct (sweeps_observed (SampleData.max_name_len modes) (take i modes)
                (take i rps) Htake) as (Hg' & He' & _).
    cbv zeta in Hg', He'.
    pose proof (prologue_quiet _ _ Hp) as Hq.
    destruct (quiet_projections _ Hq) as (Hg0 & He0 & _).
    eexists (t_p ++ [EvSetMotorSpeed motor; EvGetAllSupportedScanModes res modes]
             ++ concat (zip_with (sweep_events (SampleData.max_name_len modes))
                                 (take i modes) (take i rps))
             ++ [_; _; _; _]), _, _, _, _, _, _, _.
    split_and!.
    + unfold sweep_events. rewrite <-!app_assoc. cbn [app]. reflexivity.
    + unfold express_modes in *. rewrite !omap_app, He0, He'.
      cbn [omap list_omap app]. by rewrite app_nil_r.
    + unfold grab_results in *. rewrite !omap_app, Hg0, Hg'. cbn [omap list_omap app].
      by rewrite app_nil_r, length_map, Htake.
Qed.



(** C10: in the sweep every mode gets its table file, named from the
    identifier and the name of the mode and opened with the header line
    before the scan is started.  A mode whose retrieval fails leaves a file
    that holds the header and no row.  After the run the file of every mode
    exists and begins with the header; it is the header alone when the
    retrieval failed and no later mode wrote a file of the same name. *)
Theorem every_mode_gets_a_table (w : World E) (res : sl_result)
    (modes : list sl.LidarScanMode) :
  EvGetAllSupportedScanModes res modes ∈ (SampleData.main w).2 ->
  SL_IS_FAIL res = false ->
  let t := (SampleData.main w).2 in
  let files := fs (SampleData.main w).1.2 in
  let header := Formatted "theta,dist,q,flag\n" [] in
  Forall2 (fun m f => f.1 = SampleData.filename m /\ head f.2 = Some header)
          modes (files_written t)
  /\ Forall2 (fun res_i f => SL_IS_OK res_i = false -> f.2 = [header])
             (grab_results t) (files_written t)
  /\ (forall m, m ∈ modes ->
        exists rows, files !! SampleData.filename m = Some (header :: rows))
  /\ (forall modes1 m modes2 res_i,
        modes = modes1 ++ m :: modes2 ->
        grab_results t !! length modes1 = Some res_i ->
        SL_IS_OK res_i = false ->
        SampleData.filename m ∉ map SampleData.filename modes2 ->
        files !! SampleData.filename m = Some [header])
  /\ each_suffix (fun e post =>
        match e with
        | EvOpen path =>
            exists start scanMode res_s actualMode rest,
              post = EvWrite path header
                     :: EvClockNow start
                     :: EvStartScanExpress false scanMode 0 res_s actualMode
                     :: rest
        | _ => True
        end) t.
Proof.
  intros Hin Hres t files header. unfold t, files in *. clear t files.
  destruct (sample_data_run w) as (r & e' & fs' & t & Hrun & Hsd).
  rewrite Hrun in *. cbn [fst snd fs] in *.
  destruct (sample_data_swept _ _ _ _ _ _ Hsd Hin Hres)
    as (t_p & motor & rps & stop_res & Hp & Hlen & Hoks & -> & -> & ->).
  destruct (swept_observed t_p motor res modes rps stop_res Hp Hlen)
    as (Hg & He & Ho & Hs & Hst & Ha & Hf).
  rewrite Hg, Hf.
  assert (forall rp, SL_IS_OK (sr_grab rp).1.1 = false -> sweep_file rp = [header])
    as Hfailed.
  { intros rp Hrp. unfold sweep_file, sweep_rows. by rewrite Hrp. }
  split_and!.
  - clear -Hlen. revert rps Hlen.
    induction modes as [|m modes IH]; intros [|rp rps] Hlen;
      try discriminate Hlen; [constructor|].
    cbn [zip_with]. constructor; [done|]. apply IH. by injection Hlen.
  - clear -Hlen Hfailed. revert rps Hlen.
    induction modes as [|m modes IH]; intros [|rp rps] Hlen;
      try discriminate Hlen; [constructor|].
    cbn [zip_with map]. constructor; [apply Hfailed|]. apply IH. by injection Hlen.
  - intros m Hm.
    destruct (sweep_fs_written (fs w) modes rps (SampleData.filename m) Hlen)
      as (rp & _ & ->); [by apply elem_of_map_2|].
    by eexists.
  - intros modes1 m modes2 res_i -> Hi Hfail Hlast.
    rewrite lookup_map in Hi.
    destruct (rps !! length modes1) as [rp|] eqn:Hrp; [|done].
    cbn in Hi. injection Hi as <-.
    rewrite <-(take_drop_middle rps (length modes1) rp Hrp).
    rewrite sweep_fs_last; [by rewrite Hfailed| |done].
    rewrite length_take. apply lookup_lt_Some in Hrp. lia.
  - set (P := fun e post => match e with EvOpen _ => _ | _ => True end).
    assert (forall t, Forall (fun e => quiet_event e = true) t ->
                      Forall (fun e => forall post, P e post) t) as Hquiet.
    { intros t Ht. eapply Forall_impl; [done|]. by intros []. }
    apply each_suffix_skip; [by eapply Hquiet, prologue_quiet|].
    cbn [app]. do 2 (apply each_suffix_cons; [done|]).
    apply (sweeps_each_suffix P (fun _ => True)); [done| |].
    + intros m rp tail _. split; [|done].
      unfold sweep_events. cbn [app].
      apply each_suffix_cons; [done|].
      apply each_suffix_cons; [unfold P; by eauto 10|].
      do 8 (apply each_suffix_cons; [done|]).
      apply each_suffix_Forall.
      destruct (SL_IS_OK _); cbn [app]; repeat (constructor; [done|]);
        try done.
      apply Forall_app. split; [by apply Forall_map, Forall_forall|].
      by repeat constructor.
    + apply each_suffix_Forall. by repeat constructor.
Qed.

End SweepClaims.

(** ** Retrieval failure *)

Section RetrievalFailure.
Context `{Hdr : SlHeader} {E : Type} `{Env : Sdk E}.

(** What the iterations of a continuous capture show. *)
Lemma captures_observed rps :
  grab_results (flat_map capture_events rps) = map (fun rp => (cr_grab rp).1.1) rps
  /\ ascended (flat_map capture_events rps) = map capture_batch rps
  /\ stderr_reports (flat_map capture_events rps) = []
  /\ stops (flat_map capture_events rps) = [].
Proof.
  induction rps as [|rp rps (Hg & Ha & Hs & Hst)]; [done|].
  unfold grab_results, ascended, stderr_reports, stops in *.
  cbn [flat_map map]. rewrite !omap_app, Hg, Ha, Hs, Hst. done.
Qed.


End RetrievalFailure.

(** ** The artifact of continuous capture *)

Lemma byte_of_Z_value (z : Z) : Z.of_N (Byte.to_N (byte_of_Z z)) = z mod 256.
Proof.
  unfold byte_of_Z.
  assert (0 <= z mod 256 < 256) as Hr by (apply Z.mod_pos_bound; lia).
  destruct (Byte.of_N (Z.to_N (z mod 256))) as [b|] eqn:Hb.
  - apply Byte.to_of_N in Hb. cbn [default from_option]. unfold id.
    rewrite Hb. lia.
  - apply Byte.of_N_None_iff in Hb. lia.
Qed.

Lemma length_le_bytes (n : nat) (z : Z) : length (le_bytes n z) = n.
Proof. revert z. induction n as [|n IH]; intros z; cbn; [done|]. by rewrite IH. Qed.

Lemma le_value_bytes (n : nat) (z : Z) :
  le_value (le_bytes n z) = z mod 256 ^ Z.of_nat n.
Proof.
  revert z. induction n as [|n IH]; intros z.
  - cbn. by rewrite Z.mod_1_r.
  - cbn [le_bytes le_value fold_right]. fold (le_value (le_bytes n (z / 256))).
    rewrite IH, byte_of_Z_value, Nat2Z.inj_succ, Z.pow_succ_r by lia.
    rewrite Z.rem_mul_r; [lia|lia|apply Z.pow_pos_nonneg; lia].
Qed.

Lemma length_size_t_repr (z : Z) : length (size_t_repr z) = 8%nat.
Proof. unfold size_t_repr. by rewrite length_le_bytes. Qed.

Lemma le_value_size_t (z : Z) :
  0 <= z < 2 ^ 64 -> le_value (size_t_repr z) = z.
Proof.
  intros Hz. unfold size_t_repr, SIZE_MAX_succ, sizeof_size_t.
  rewrite le_value_bytes. change (256 ^ Z.of_nat (Z.to_nat 8)) with (2 ^ 64).
  rewrite Z.mod_mod by lia. by apply Z.mod_small.
Qed.

Section Capture.
Context `{Hdr : SlHeader} {E : Type} `{Env : Sdk E}.

Lemma length_nodes_repr (l : list node) :
  length (flat_map node_repr l) = (length l * Z.to_nat sizeof_node)%nat.
Proof.
  induction l as [|n l IH]; [done|].
  cbn [flat_map length]. rewrite length_app, IH.
  pose proof (node_repr_length n). lia.
Qed.

Lemma length_slots (nodes : buffer) (n : Z) :
  length (slots nodes n) = Z.to_nat n.
Proof. unfold slots. by rewrite length_map, length_seq. Qed.

(** [write] of [count * sizeof(node)] bytes writes the first [count] nodes. *)
Lemma array_bytes_exact (nodes : buffer) (count : Z) :
  0 <= count ->
  ReadDataBin.array_bytes nodes (count * sizeof_node)
  = flat_map node_repr (slots nodes count).
Proof.
  intros Hc. destruct sizeof_node_array as [Hs _].
  unfold ReadDataBin.array_bytes, slots.
  replace (Z.to_nat (count * sizeof_node))
    with (Z.to_nat count + (Z.to_nat (count * sizeof_node) - Z.to_nat count))%nat
    at 2 by nia.
  rewrite seq_app, map_app, flat_map_app.
  rewrite take_app_length'; [done|].
  rewrite length_nodes_repr, length_map, length_seq. nia.
Qed.

Lemma capture_chunks_block (rp : CaptureReply) :
  capture_ok rp ->
  file_bytes (capture_chunks rp) = block (capture_batch rp)
  /\ Z.of_nat (length (capture_batch rp)) = (cr_grab rp).2.
Proof.
  intros (_ & Hc & _). destruct sizeof_node_array as [Hs Hmax].
  unfold capture_chunks, capture_batch, block, file_bytes.
  cbn [flat_map chunk_bytes]. rewrite app_nil_r, length_slots.
  unfold SIZE_MAX_succ. rewrite Z.mod_small by nia.
  rewrite array_bytes_exact by lia. split; [|lia].
  by rewrite Z2Nat.id by lia.
Qed.

Lemma captures_bytes (rps : list CaptureReply) :
  Forall capture_ok rps ->
  file_bytes (flat_map capture_chunks rps)
  = flat_map block (map capture_batch rps).
Proof.
  induction 1 as [|rp rps Hok _ IH]; [done|].
  unfold file_bytes in *. cbn [flat_map map]. rewrite flat_map_app, IH.
  f_equal. by apply capture_chunks_block.
Qed.

(** C5: when the first N retrievals of a continuous capture succeed and the
    next one fails, [main] returns -1 and [data.bin] holds exactly N blocks
    and nothing after them: one for each batch that went through the
    reorder, in order.  A block is the 8 bytes of the [size_t] count, which
    read as the number of nodes of the batch, followed by the object
    representation of that many nodes; nothing of the failed retrieval is
    written. *)
Theorem capture_writes_whole_blocks (fuel : nat) (w : World E)
    (oks : list sl_result) (bad : sl_result) :
  grab_results (ReadDataBin.main fuel w).2 = oks ++ [bad] ->
  Forall (fun res => SL_IS_FAIL res = false) oks ->
  SL_IS_FAIL bad = true ->
  let run := ReadDataBin.main fuel w in
  let batches := ascended run.2 in
  run.1.1 = Ret (-1)
  /\ length batches = length oks
  /\ (exists chunks,
        fs run.1.2 !! "data.bin" = Some chunks
        /\ file_bytes chunks = flat_map block batches)
  /\ Forall (fun batch =>
        block batch = size_t_repr (Z.of_nat (length batch)) ++ flat_map node_repr batch
        /\ length (size_t_repr (Z.of_nat (length batch))) = 8%nat
        /\ le_value (size_t_repr (Z.of_nat (length batch))) = Z.of_nat (length batch)
        /\ Z.of_nat (length (flat_map node_repr batch))
           = Z.of_nat (length batch) * sizeof_node) batches.
Proof.
  destruct (read_data_bin_run fuel w) as (r & e' & fs' & t & -> & Hrd).
  cbn [fst snd fs]. intros Hgrabs Hoks Hbad.
  destruct Hrd as [r_p r t_p Hp Hs|t_p motor started rps Hp Hlen Hcaps
                  |t_p motor started rps res nodes count stop_res Hp Hlen Hcaps Hres];
    pose proof (prologue_quiet _ _ Hp) as Hq;
    destruct (quiet_projections _ Hq) as (Hg & _ & Ha & _).
  - rewrite Hg in Hgrabs. by destruct oks.
  - exfalso. destruct (captures_observed rps) as (Hg' & _).
    unfold grab_results in *. rewrite !omap_app, Hg, Hg' in Hgrabs.
    unfold capture_opening in Hgrabs. cbn [omap list_omap app] in Hgrabs.
    assert (bad ∈ map (fun rp => (cr_grab rp).1.1) rps) as Hin.
    { rewrite Hgrabs, elem_of_app, list_elem_of_singleton. by right. }
    apply list_elem_of_In, in_map_iff in Hin as (rp & <- & Hrp).
    apply list_elem_of_In in Hrp. rewrite Forall_forall in Hcaps.
    destruct (Hcaps rp Hrp) as [Hok _]. congruence.
  - destruct (captures_observed rps) as (Hg' & Ha' & _).
    assert (ascended (t_p ++ capture_opening motor started
                      ++ flat_map capture_events rps
                      ++ capture_failure res nodes count stop_res)
            = map capture_batch rps) as ->.
    { unfold ascended in *. rewrite !omap_app, Ha, Ha'. unfold capture_opening.
      cbn [omap list_omap app]. by rewrite app_nil_r. }
    unfold grab_results in *. rewrite !omap_app, Hg, Hg' in Hgrabs.
    unfold capture_opening in Hgrabs. cbn [omap list_omap app] in Hgrabs.
    apply app_inj_tail in Hgrabs as [Hmap _].
    split_and!; [done| | |].
    + by rewrite <-Hmap, !length_map.
    + exists (flat_map capture_chunks rps). split; [by rewrite lookup_insert|].
      by apply captures_bytes.
    + apply Forall_map, Forall_forall. intros rp Hrp.
      rewrite Forall_forall in Hcaps. pose proof (Hcaps rp Hrp) as (_ & Hc & _).
      destruct sizeof_node_array as [Hs _].
      split_and!; [done|apply length_size_t_repr| |].
      * apply le_value_size_t. unfold capture_batch. rewrite length_slots. lia.
      * rewrite length_nodes_repr. unfold capture_batch. rewrite length_slots. nia.
Qed.

End Capture.

(** ** The order of the exported samples *)

Lemma each_suffix_concat (P : Event -> list Event -> Prop)
    (ls : list (list Event)) (rest : list Event) :
  Forall (fun l => forall tail, each_suffix (fun e post => P e (post ++ tail)) l) ls ->
  each_suffix P rest ->
  each_suffix P (concat ls ++ rest).
Proof.
  intros Hls Hrest. induction Hls as [|l ls Hl _ IH]; [done|].
  cbn [concat]. rewrite <-app_assoc. by apply each_suffix_app.
Qed.

(** The angles in degrees grow with the raw angles. *)
Lemma theta_le (a b : node) :
  0 <= sl.angle_z_q14 a < 65536 ->
  0 <= sl.angle_z_q14 b < 65536 ->
  sl.angle_z_q14 a <= sl.angle_z_q14 b ->
  float_le (SampleData.theta a) (SampleData.theta b).
Proof.
  intros Ha Hb Hab. unfold float_le.
  destruct (theta_value a Ha) as (qa & -> & Hqa).
  destruct (theta_value b Hb) as (qb & -> & Hqb).
  rewrite Hqa, Hqb. unfold Qle. cbn [Qnum Qden]. lia.
Qed.

Lemma theta_sorted (batch : list node) :
  Forall (fun n => 0 <= sl.angle_z_q14 n < 65536) batch ->
  ascending batch ->
  Sorted float_le (map SampleData.theta batch).
Proof.
  intros Hrange Hsorted. induction Hsorted as [|a l _ IH Hhd]; [constructor|].
  apply Forall_cons in Hrange as [Ha Hl]. cbn [map].
  constructor; [by apply IH|].
  destruct Hhd as [|b l Hab]; [constructor|].
  apply Forall_cons in Hl as [Hb _]. constructor. by apply theta_le.
Qed.

Section Order.
Context `{Hdr : SlHeader} {E : Type} `{Env : Sdk E}.

Lemma ascend_answer_ascending nodes count answer :
  ascendScanData_reorders ->
  ascend_answer nodes count answer ->
  ascending (slots answer.2 count).
Proof. intros Hcontract [e ->]. apply Hcontract. Qed.

Lemma sweep_rows_ascending (rp : SweepReply) :
  ascendScanData_reorders -> sweep_ok rp -> ascending (sweep_rows rp).
Proof.
  intros Hcontract Hok. rewrite sweep_rows_ok by done.
  destruct Hok as [_ Hans].
  destruct (SL_IS_OK _); [|constructor].
  by eapply ascend_answer_ascending, Hans.
Qed.

(** C4: provided [ascendScanData] leaves the first [count] nodes in
    ascending angular order, every batch that was retrieved with success is
    handed to [ascendScanData] before anything of it is written, and what
    is written are the nodes as [ascendScanData] left them.  In
    [read_data_bin] the count and the nodes of the reordered batch follow
    the reorder at once, and [data.bin] is the sequence of the reordered
    batches.  In [sample_data] the rows of the reordered batch follow the
    reorder at once, and every table is the header followed by the rows of
    a batch in ascending order, whose angles in degrees ascend as well. *)
Theorem exports_are_reordered (fuel : nat) (w : World E) :
  ascendScanData_reorders ->
  let rd := ReadDataBin.main fuel w in
  let sd := SampleData.main w in
  each_suffix (fun e post =>
      match e with
      | EvGrabScanDataHq _ res nodes count =>
          SL_IS_FAIL res = false ->
          exists ares buf rest,
            post = EvAscendScanData count ares buf
                   :: EvWrite "data.bin" (Raw (size_t_repr count))
                   :: EvWrite "data.bin" (Raw (flat_map node_repr (slots buf count)))
                   :: rest
            /\ ascend_answer nodes count (ares, buf)
            /\ ascending (slots buf count)
      | _ => True
      end) rd.2
  /\ Forall ascending (ascended rd.2)
  /\ (forall chunks,
        EvOpen "data.bin" ∈ rd.2 ->
        fs rd.1.2 !! "data.bin" = Some chunks ->
        file_bytes chunks = flat_map block (ascended rd.2))
  /\ each_suffix (fun e post =>
      match e with
      | EvGrabScanDataHq _ res nodes count =>
          SL_IS_OK res = true ->
          exists end_ ares buf path rest,
            post = EvClockNow end_
                   :: EvAscendScanData count ares buf
                   :: map (fun n => EvWrite path (SampleData.row n)) (slots buf count)
                   ++ rest
            /\ ascend_answer nodes count (ares, buf)
            /\ ascending (slots buf count)
      | _ => True
      end) sd.2
  /\ (forall f, f ∈ files_written sd.2 ->
        exists batch,
          f.2 = SampleData.header :: map SampleData.row batch
          /\ ascending batch
          /\ (batch = [] \/ batch ∈ ascended sd.2)
          /\ (Forall (fun n => 0 <= sl.angle_z_q14 n < 65536) batch ->
              Sorted float_le (map SampleData.theta batch))).
Proof.
  intros Hcontract.
  destruct (read_data_bin_run fuel w) as (r1 & e1 & fs1 & t1 & -> & Hrd).
  destruct (sample_data_run w) as (r2 & e2 & fs2 & t2 & -> & Hsd).
  cbn [fst snd fs].
  assert (forall (Q : sl_result -> buffer -> Z -> list Event -> Prop) t,
            Forall (fun e => quiet_event e = true) t ->
            Forall (fun e => forall post,
                      match e with
                      | EvGrabScanDataHq _ res nodes count => Q res nodes count post
                      | _ => True
                      end) t) as Hquiet.
  { intros Q t Ht. eapply Forall_impl; [done|]. by intros []. }
  assert (forall rps,
            Forall capture_ok rps ->
            Forall ascending (map capture_batch rps)) as Hbatches.
  { intros rps Hoks. apply Forall_map. eapply Forall_impl; [done|].
    intros rp (_ & _ & Hans). by eapply ascend_answer_ascending, Hans. }
  match goal with
  | |- each_suffix ?P _ /\ _ =>
      assert (forall rps rest,
                Forall capture_ok rps -> each_suffix P rest ->
                each_suffix P (flat_map capture_events rps ++ rest)) as Hcaptures
  end.
  { intros rps rest Hoks Hrest. rewrite flat_map_concat_map.
    apply each_suffix_concat; [|done].
    apply Forall_map. eapply Forall_impl; [done|].
    intros rp (Hok & Hc & Hans) tail. destruct sizeof_node_array as [Hs Hmax].
    unfold capture_events, capture_chunks. cbn [map].
    apply each_suffix_cons.
    - intros _. exists (cr_ascend rp).1, (cr_ascend rp).2, tail.
      split_and!.
      + cbn [app]. unfold SIZE_MAX_succ. rewrite Z.mod_small by nia.
        by rewrite array_bytes_exact by lia.
      + by destruct (cr_ascend rp).
      + by eapply ascend_answer_ascending, Hans.
    - apply each_suffix_Forall. by repeat constructor. }
  split_and!.
  - destruct Hrd as [r_p r t_p Hp Hs|t_p motor started rps Hp Hlen Hoks
                    |t_p motor started rps res nodes count stop_res Hp Hlen Hoks Hres].
    + by eapply each_suffix_Forall, Hquiet, prologue_quiet.
    + apply each_suffix_skip; [by eapply Hquiet, prologue_quiet|].
      apply each_suffix_skip; [by repeat constructor|].
      rewrite <-(app_nil_r (flat_map _ _)).
      apply Hcaptures; [done|apply each_suffix_nil].
    + apply each_suffix_skip; [by eapply Hquiet, prologue_quiet|].
      apply each_suffix_skip; [by repeat constructor|].
      apply Hcaptures; [done|].
      unfold capture_failure. apply each_suffix_cons; [congruence|].
      apply each_suffix_Forall. by repeat constructor.
  - destruct Hrd as [r_p r t_p Hp Hs|t_p motor started rps Hp Hlen Hoks
                    |t_p motor started rps res nodes count stop_res Hp Hlen Hoks Hres];
      pose proof (prologue_quiet _ _ Hp) as Hq;
      destruct (quiet_projections _ Hq) as (_ & _ & Ha & _);
      [by rewrite Ha| |];
      destruct (captures_observed rps) as (_ & Ha' & _);
      unfold ascended in *; rewrite !omap_app, Ha, Ha';
      unfold capture_opening; cbn [omap list_omap app];
      rewrite ?app_nil_r; by apply Hbatches.
  - intros chunks Hopen Hfile.
    destruct Hrd as [r_p r t_p Hp Hs|t_p motor started rps Hp Hlen Hoks
                    |t_p motor started rps res nodes count stop_res Hp Hlen Hoks Hres];
      pose proof (prologue_quiet _ _ Hp) as Hq;
      destruct (quiet_projections _ Hq) as (_ & _ & Ha & _).
    { rewrite Forall_forall in Hq. by apply Hq in Hopen. }
    all: destruct (captures_observed rps) as (_ & Ha' & _);
      unfold ascended in *; rewrite !omap_app, Ha, Ha';
      unfold capture_opening; cbn [omap list_omap app];
      rewrite ?app_nil_r; rewrite lookup_insert in Hfile;
      injection Hfile as <-; by apply captures_bytes.
  - destruct Hsd as [r_p r t_p Hp Hs|t_p motor res modes Hp Hres
                    |t_p motor res modes rps stop_res Hp Hres Hlen Hoks].
    + by eapply each_suffix_Forall, Hquiet, prologue_quiet.
    + apply each_suffix_skip; [by eapply Hquiet, prologue_quiet|].
      apply each_suffix_Forall. by repeat constructor.
    + apply each_suffix_skip; [by eapply Hquiet, prologue_quiet|].
      cbn [app]. do 2 (apply each_suffix_cons; [done|]).
      apply each_suffix_concat; [|apply each_suffix_Forall; by repeat constructor].
      eapply Forall_zip_with_snd; [|exact Hoks].
      apply Forall_forall. intros m _ rp Hok tail.
      pose proof (sweep_rows_ok rp Hok) as Hrows.
      pose proof (sweep_rows_ascending rp Hcontract Hok) as Hasc.
      destruct Hok as [Hc Hans].
      unfold sweep_events. cbn [app].
      do 8 (apply each_suffix_cons; [done|]).
      apply each_suffix_cons.
      { intros Hgrab. rewrite Hgrab in *. cbn [app]. rewrite Hrows in *.
        eexists _, (sr_ascend rp).1, (sr_ascend rp).2, _, _.
        split_and!; [by rewrite <-app_assoc| |done].
        destruct (sr_ascend rp). by apply Hans. }
      apply each_suffix_cons; [done|].
      apply each_suffix_Forall.
      destruct (SL_IS_OK _); cbn [app]; repeat (constructor; [done|]);
        try done.
      apply Forall_app. split; [by apply Forall_map, Forall_forall|].
      by repeat constructor.
  - intros f Hf.
    destruct Hsd as [r_p r t_p Hp Hs|t_p motor res modes Hp Hres
                    |t_p motor res modes rps stop_res Hp Hres Hlen Hoks].
    + pose proof (prologue_quiet _ _ Hp) as Hq.
      destruct (quiet_projections _ Hq) as (_ & _ & _ & _ & _ & Hfw & _).
      rewrite Hfw in Hf. by apply elem_of_nil in Hf.
    + pose proof (prologue_quiet _ _ Hp) as Hq.
      destruct (quiet_projections _ Hq) as (_ & _ & _ & _ & _ & Hfw & _).
      rewrite files_written_skip in Hf
        by (eapply Forall_impl; [exact Hq|]; by intros []).
      by apply elem_of_nil in Hf.
    + destruct (swept_observed t_p motor res modes rps stop_res Hp Hlen)
        as (_ & _ & _ & _ & _ & Ha & Hfw).
      rewrite Hfw in Hf. rewrite Ha.
      apply elem_of_zip_with in Hf as (m & rp & -> & _ & Hrp).
      rewrite Forall_forall in Hoks. pose proof (Hoks rp Hrp) as Hok.
      pose proof (sweep_rows_ok rp Hok) as Hrows.
      pose proof (sweep_rows_ascending rp Hcontract Hok) as Hasc.
      exists (sweep_rows rp). split_and!; [done|done| |by intros; apply theta_sorted].
      rewrite Hrows. destruct (SL_IS_OK _) eqn:Hgrab; [right|by left].
      apply list_elem_of_In, in_flat_map. exists rp.
      split; [by apply list_elem_of_In|]. rewrite Hgrab. by left.
Qed.

End Order.

(** ** The units of the exported values *)

Section Units.
Context `{Hdr : SlHeader} {E : Type} `{Env : Sdk E}.

(** The writes of one iteration of the sweep. *)
Lemma sweep_events_writes k m rp path c :
  EvWrite path c ∈ sweep_events k m rp ->
  path = SampleData.filename m
  /\ (c = SampleData.header
      \/ exists n, n ∈ sweep_rows rp /\ SL_IS_OK (sr_grab rp).1.1 = true
                   /\ c = SampleData.row n).
Proof.
  unfold sweep_events. rewrite !elem_of_app, !elem_of_cons, elem_of_nil.
  intros [Hin|[Hin|Hin]].
  - destruct Hin as [?|[?|[Heq|Hin]]]; try discriminate.
    + injection Heq as -> ->. auto.
    + repeat (destruct Hin as [?|Hin]; [discriminate|]). done.
  - destruct (SL_IS_OK _); [|by apply elem_of_nil in Hin].
    apply elem_of_cons in Hin as [?|Hin]; [discriminate|].
    apply list_elem_of_In, in_map_iff in Hin as (n & Heq & Hn).
    injection Heq as <- <-. split; [done|]. right. exists n.
    by rewrite list_elem_of_In.
  - by destruct Hin.
Qed.

(** The writes of one iteration of the continuous capture. *)
Lemma capture_events_writes rp path c :
  capture_ok rp ->
  EvWrite path c ∈ capture_events rp ->
  path = "data.bin"
  /\ (c = Raw (size_t_repr (Z.of_nat (length (capture_batch rp))))
      \/ c = Raw (flat_map node_repr (capture_batch rp))).
Proof.
  intros Hok. destruct (capture_chunks_block rp Hok) as [_ Hlen].
  destruct Hok as (_ & Hc & _). destruct sizeof_node_array as [Hs Hmax].
  unfold capture_events, capture_chunks. cbn [map].
  rewrite !elem_of_cons, elem_of_nil.
  intros [?|[?|[Heq|[Heq|[]]]]]; try discriminate; injection Heq as -> ->.
  - rewrite Hlen. auto.
  - split; [done|]. right. unfold SIZE_MAX_succ.
    rewrite Z.mod_small by nia. by rewrite array_bytes_exact by lia.
Qed.

(** C8, as amended: for every node whose raw angle is a 16-bit value and
    whose raw distance is below 2^24, the angle [sample_data] exports is
    the raw angle times 90 / 16384 and the distance is the raw distance
    divided by 4, exactly; a raw angle of 16384 gives 90 and a raw distance
    of 40 gives 10.  The conversion takes place when the row is written:
    every write of [sample_data] is the header or the row of a node of a
    reordered batch, with the converted angle and distance.
    [read_data_bin] converts nothing: every write is the count of a
    reordered batch or the object representation of its nodes. *)
Theorem conversion_at_export (fuel : nat) (w : World E) :
  (forall n,
     0 <= sl.angle_z_q14 n < 65536 ->
     0 <= sl.dist_mm_q2 n < 2 ^ 24 ->
     conversion_is_exact n)
  /\ (forall n,
        sl.angle_z_q14 n = 16384 -> sl.dist_mm_q2 n = 40 ->
        exists qa qd,
          float_value (SampleData.theta n) = Some qa /\ (qa == 90)%Q
          /\ float_value (SampleData.dist n) = Some qd /\ (qd == 10)%Q)
  /\ (forall path c,
        EvWrite path c ∈ (SampleData.main w).2 ->
        c = Formatted "theta,dist,q,flag\n" []
        \/ exists batch n quality flag,
             batch ∈ ascended (SampleData.main w).2
             /\ n ∈ batch
             /\ c = Formatted "{},{},{},{}\n"
                      [ArgFloat (SampleData.theta n); ArgFloat (SampleData.dist n);
                       ArgInt quality; ArgStr flag])
  /\ (forall path c,
        EvWrite path c ∈ (ReadDataBin.main fuel w).2 ->
        path = "data.bin"
        /\ exists batch,
             batch ∈ ascended (ReadDataBin.main fuel w).2
             /\ (c = Raw (size_t_repr (Z.of_nat (length batch)))
                 \/ c = Raw (flat_map node_repr batch))).
Proof.
  assert (forall n,
            0 <= sl.angle_z_q14 n < 65536 ->
            0 <= sl.dist_mm_q2 n < 2 ^ 24 ->
            conversion_is_exact n) as Hexact.
  { intros n Ha Hd.
    destruct (theta_value n Ha) as (qa & Hqa & Hva).
    destruct (dist_value n Hd) as (qd & Hqd & Hvd).
    by exists qa, qd. }
  destruct (read_data_bin_run fuel w) as (r1 & e1 & fs1 & t1 & -> & Hrd).
  destruct (sample_data_run w) as (r2 & e2 & fs2 & t2 & -> & Hsd).
  cbn [fst snd].
  assert (forall t path c,
            Forall (fun e => quiet_event e = true) t -> EvWrite path c ∈ t -> False)
    as Hquiet.
  { intros t path c Ht Hin. rewrite Forall_forall in Ht. by apply Ht in Hin. }
  split_and!.
  - done.
  - intros n Ha Hd.
    destruct (Hexact n) as (qa & qd & Hqa & Hva & Hqd & Hvd); [lia..|].
    exists qa, qd. rewrite Ha in Hva. rewrite Hd in Hvd.
    split_and!; [done|by rewrite Hva|done|by rewrite Hvd].
  - intros path c Hin.
    destruct Hsd as [r_p r t_p Hp Hs|t_p motor res modes Hp Hres
                    |t_p motor res modes rps stop_res Hp Hres Hlen Hoks].
    + exfalso. by eapply Hquiet, Hin; eapply prologue_quiet.
    + exfalso. apply elem_of_app in Hin as [Hin|Hin];
        [by eapply Hquiet, Hin; eapply prologue_quiet|].
      rewrite !elem_of_cons, elem_of_nil in Hin.
      by destruct Hin as [?|[?|[?|[]]]].
    + destruct (swept_observed t_p motor res modes rps stop_res Hp Hlen)
        as (_ & _ & _ & _ & _ & Ha & _).
      rewrite Ha. clear Ha.
      apply elem_of_app in Hin as [Hin|Hin];
        [exfalso; by eapply Hquiet, Hin; eapply prologue_quiet|].
      cbn [app] in Hin. rewrite !elem_of_cons, elem_of_app in Hin.
      destruct Hin as [?|[?|[Hin|Hin]]]; try discriminate;
        [|apply list_elem_of_singleton in Hin; discriminate].
      apply list_elem_of_In, in_concat in Hin as (l & Hl & Hin).
      apply list_elem_of_In, elem_of_zip_with in Hl as (m & rp & -> & _ & Hrp).
      apply list_elem_of_In, sweep_events_writes in Hin
        as [_ [->|(n & Hn & Hgrab & ->)]]; [by left|right].
      rewrite Forall_forall in Hoks. pose proof (Hoks rp Hrp) as Hok.
      rewrite (sweep_rows_ok rp Hok), Hgrab in Hn.
      eexists _, n, _, _. split_and!; [|exact Hn|done].
      apply list_elem_of_In, in_flat_map. exists rp.
      split; [by apply list_elem_of_In|]. rewrite Hgrab. by left.
  - intros path c Hin.
    assert (forall rps,
              Forall capture_ok rps ->
              EvWrite path c ∈ flat_map capture_events rps ->
              path = "data.bin"
              /\ exists batch,
                   batch ∈ map capture_batch rps
                   /\ (c = Raw (size_t_repr (Z.of_nat (length batch)))
                       \/ c = Raw (flat_map node_repr batch))) as Hcaptures.
    { intros rps Hoks Hc.
      apply list_elem_of_In, in_flat_map in Hc as (rp & Hrp & Hc).
      apply list_elem_of_In in Hrp, Hc. rewrite Forall_forall in Hoks.
      destruct (capture_events_writes rp path c (Hoks rp Hrp) Hc) as [-> Hchunk].
      split; [done|]. exists (capture_batch rp). split; [|done].
      by apply elem_of_map_2. }
    destruct Hrd as [r_p r t_p Hp Hs|t_p motor started rps Hp Hlen Hoks
                    |t_p motor started rps res nodes count stop_res Hp Hlen Hoks Hres];
      pose proof (prologue_quiet _ _ Hp) as Hq;
      destruct (quiet_projections _ Hq) as (_ & _ & Ha & _).
    + exfalso. by eapply Hquiet, Hin.
    + destruct (captures_observed rps) as (_ & Ha' & _).
      unfold ascended in *. rewrite !omap_app, Ha, Ha'.
      unfold capture_opening in *. cbn [omap list_omap app].
      apply elem_of_app in Hin as [Hin|Hin]; [exfalso; by eapply Hquiet, Hin|].
      cbn [app] in Hin. rewrite !elem_of_cons in Hin.
      destruct Hin as [?|[?|[?|[?|Hin]]]]; try discriminate.
      by apply Hcaptures.
    + destruct (captures_observed rps) as (_ & Ha' & _).
      unfold ascended in *. rewrite !omap_app, Ha, Ha'.
      unfold capture_opening, capture_failure in *.
      cbn [omap list_omap app]. rewrite app_nil_r.
      apply elem_of_app in Hin as [Hin|Hin]; [exfalso; by eapply Hquiet, Hin|].
      cbn [app] in Hin. rewrite !elem_of_cons, elem_of_app in Hin.
      destruct Hin as [?|[?|[?|[?|[Hin|Hin]]]]]; try discriminate;
        [by apply Hcaptures|].
      rewrite !elem_of_cons, elem_of_nil in Hin.
      by destruct Hin as [?|[?|[?|[]]]].
Qed.

End Units.

(** ** Failures of the bootstrap *)

Section FailFast.
Context `{Hdr : SlHeader} {E : Type} `{Env : Sdk E}.

Lemma report_skip (Q : list Event -> string -> list FmtArg -> Prop)
    (t : list Event) :
  Forall (fun e => failure_report e = None) t ->
  Forall (fun e => forall post fmt args,
            failure_report e = Some (fmt, args) -> Q post fmt args) t.
Proof.
  intros Ht. eapply Forall_impl; [done|]. intros e He post fmt args. congruence.
Qed.

Lemma device_info_report_no_report devinfo :
  Forall (fun e => failure_report e = None) (device_info_report devinfo).
Proof.
  apply Forall_forall. intros e He.
  by apply device_info_report_prints in He as (fmt & args & ->).
Qed.

Lemma loop_no_report t :
  Forall (fun e => loop_event e = true) t ->
  Forall (fun e => failure_report e = None) t.
Proof. intros Ht. eapply Forall_impl; [done|]. by intros [| | | | | | | | | | | | |[]| |]. Qed.

(** In the prologue a failed call is followed by its report and nothing
    else; when the prologue lets [main] go on, no call has failed. *)
Lemma prologue_fail_fast r t :
  prologue_outcome r t ->
  each_suffix (fun e post =>
      forall fmt args,
        failure_report e = Some (fmt, args) -> post = [EvPrint Stderr fmt args]) t
  /\ (r = Ret None -> Forall (fun e => failure_report e = None) t).
Proof.
  intros Hp.
  assert (forall err, Result_bool err = true ->
            failure_report (EvCreateSerialPortChannel "/dev/ttyUSB0" 115200 err object)
            = None) as Hchannel
    by (intros err Herr; cbn; by rewrite Herr).
  assert (forall err, Result_bool err = true ->
            failure_report (EvCreateLidarDriver err object) = None) as Hdriver
    by (intros err Herr; cbn; by rewrite Herr).
  assert (forall res, SL_IS_FAIL res = false ->
            failure_report (EvConnect res) = None) as Hconnect
    by (intros res Hres; cbn; by rewrite Hres).
  assert (forall res, SL_IS_FAIL res = false ->
            failure_report (EvGetDeviceInfo res) = None) as Hinfo
    by (intros res Hres; cbn; by rewrite Hres).
  assert (forall a b c, Result_bool a = true -> Result_bool b = true ->
            SL_IS_FAIL c = false ->
            Forall (fun e => failure_report e = None) (session_opening a b c))
    as Hopening
    by (intros a b c Ha Hb Hc; unfold session_opening; repeat constructor; auto).
  destruct Hp as [err value Herr|err Herr|err_c err value Hc Herr|err_c err Hc Herr
                 |err_c err_d res Hc Hd Hres|err_c err_d conn res Hc Hd Hconn Hres
                 |err_c err_d conn res_i devinfo res status Hc Hd Hconn Hi Hres
                 |err_c err_d conn res_i devinfo res Hc Hd Hconn Hi Hres
                 |err_c err_d conn res_i devinfo res status Hc Hd Hconn Hi Hres Hst];
    (split; [|try discriminate]).
  - apply each_suffix_cons; [|by apply each_suffix_Forall; repeat constructor].
    cbn. rewrite Herr. cbn. by intros fmt args [= <- <-].
  - apply each_suffix_cons; [|by apply each_suffix_Forall; repeat constructor].
    cbn. rewrite Herr. cbn. by intros fmt args [= <- <-].
  - apply each_suffix_cons; [by rewrite Hchannel|].
    apply each_suffix_cons; [|by apply each_suffix_Forall; repeat constructor].
    cbn. rewrite Herr. cbn. by intros fmt args [= <- <-].
  - apply each_suffix_cons; [by rewrite Hchannel|].
    apply each_suffix_cons; [|by apply each_suffix_Forall; repeat constructor].
    cbn. rewrite Herr. cbn. by intros fmt args [= <- <-].
  - unfold session_opening. cbn [app].
    apply each_suffix_cons; [by rewrite Hchannel|].
    apply each_suffix_cons; [by rewrite Hdriver|].
    apply each_suffix_cons; [|by apply each_suffix_Forall; repeat constructor].
    cbn. rewrite Hres. by intros fmt args [= <- <-].
  - apply each_suffix_skip; [by apply report_skip, Hopening|].
    apply each_suffix_cons; [|by apply each_suffix_Forall; repeat constructor].
    cbn. rewrite Hres. by intros fmt args [= <- <-].
  - apply each_suffix_skip; [by apply report_skip, Hopening|].
    apply each_suffix_cons; [by rewrite Hinfo|].
    apply each_suffix_skip; [apply report_skip, device_info_report_no_report|].
    apply each_suffix_cons; [|by apply each_suffix_Forall; repeat constructor].
    cbn. rewrite Hres. by intros fmt args [= <- <-].
  - apply each_suffix_skip; [by apply report_skip, Hopening|].
    apply each_suffix_cons; [by rewrite Hinfo|].
    apply each_suffix_skip; [apply report_skip, device_info_report_no_report|].
    apply each_suffix_cons; [cbn; by rewrite Hres|].
    by apply each_suffix_Forall; repeat constructor.
  - apply each_suffix_skip; [by apply report_skip, Hopening|].
    apply each_suffix_cons; [by rewrite Hinfo|].
    apply each_suffix_skip; [apply report_skip, device_info_report_no_report|].
    apply each_suffix_cons; [cbn; by rewrite Hres|].
    by apply each_suffix_Forall; repeat constructor.
  - intros _. apply Forall_app. split; [by apply Hopening|].
    constructor; [by apply Hinfo|].
    apply Forall_app. split; [apply device_info_report_no_report|].
    repeat constructor. cbn. by rewrite Hres.
Qed.

(** X1: in [read_data_bin] and in [sample_data], a call of the bootstrap
    whose answer fails the test of its caller (channel or driver creation,
    allocation, connect, device information, health query, scan-mode query)
    is followed by exactly one event: the line of that failure on the error
    stream.  No further call is made, [stop] included, and nothing is
    written. *)
Theorem failed_call_is_reported_and_last (fuel : nat) (w : World E) :
  let fail_fast (t : list Event) :=
    each_suffix (fun e post =>
        forall fmt args,
          failure_report e = Some (fmt, args) -> post = [EvPrint Stderr fmt args]) t in
  fail_fast (ReadDataBin.main fuel w).2 /\ fail_fast (SampleData.main w).2.
Proof.
  destruct (read_data_bin_run fuel w) as (r1 & e1 & fs1 & t1 & -> & Hrd).
  destruct (sample_data_run w) as (r2 & e2 & fs2 & t2 & -> & Hsd).
  cbn [fst snd]. split.
  - destruct Hrd as [r_p r t_p Hp Hs|t_p motor started rps Hp Hlen Hoks
                    |t_p motor started rps res nodes count stop_res Hp Hlen Hoks Hres];
      destruct (prologue_fail_fast _ _ Hp) as [Hff Hnone]; [done| |].
    + apply each_suffix_skip; [by apply report_skip, Hnone|].
      apply each_suffix_Forall, report_skip, Forall_app.
      split; [by repeat constructor|apply loop_no_report, captures_loop].
    + apply each_suffix_skip; [by apply report_skip, Hnone|].
      apply each_suffix_Forall, report_skip. rewrite !Forall_app.
      split_and!; [by repeat constructor|apply loop_no_report, captures_loop
                  |by repeat constructor].
  - destruct Hsd as [r_p r t_p Hp Hs|t_p motor res modes Hp Hres
                    |t_p motor res modes rps stop_res Hp Hres Hlen Hoks];
      destruct (prologue_fail_fast _ _ Hp) as [Hff Hnone]; [done| |].
    + apply each_suffix_skip; [by apply report_skip, Hnone|].
      apply each_suffix_cons; [done|].
      apply each_suffix_cons; [|by apply each_suffix_Forall; repeat constructor].
      cbn. rewrite Hres. by intros fmt args [= <- <-].
    + apply each_suffix_skip; [by apply report_skip, Hnone|].
      apply each_suffix_Forall, report_skip. cbn [app].
      constructor; [done|]. constructor; [cbn; by rewrite Hres|].
      apply Forall_app. split; [apply loop_no_report, sweeps_loop|by repeat constructor].
Qed.

End FailFast.

(** ** Exit status and [stop] *)

Section Status.
Context `{Hdr : SlHeader} {E : Type} `{Env : Sdk E}.

Lemma prologue_stopped r t :
  prologue_outcome r t ->
  r = Ret None
  \/ exists r', stopped r = Some r' /\ r' ∈ [Ret (-1); Exit (-1); Exit (-2)].
Proof.
  destruct 1; [right..|by left]; eexists; (split; [reflexivity|]);
    rewrite !elem_of_cons; auto.
Qed.

Lemma quiet_last t e :
  Forall (fun e => quiet_event e = true) t -> last t = Some e -> quiet_event e = true.
Proof.
  intros Ht [t' ->]%last_Some. apply Forall_app in Ht as [_ Ht].
  by apply Forall_inv in Ht.
Qed.

(** X2: [sample_data] ends with status 0, -1 or -2 (the last one by [exit]
    only).  It returns 0 exactly when its last action is the one [stop] of
    the run.  When it ends otherwise it has issued no [stop], opened no file
    and left the file system as it found it; this includes the run whose
    scan-mode query fails, where the motor has been started and is not
    stopped. *)
Theorem sample_data_status_and_stop (w : World E) :
  let run := SampleData.main w in
  run.1.1 ∈ [Ret 0; Ret (-1); Exit (-1); Exit (-2)]
  /\ (run.1.1 = Ret 0 <-> exists res, last run.2 = Some (EvStop res))
  /\ (length (stops run.2) <= 1)%nat
  /\ (run.1.1 <> Ret 0 ->
      stops run.2 = [] /\ opened run.2 = [] /\ fs run.1.2 = fs w)
  /\ (forall res modes,
        EvGetAllSupportedScanModes res modes ∈ run.2 ->
        SL_IS_FAIL res = true ->
        run.1.1 = Ret (-1) /\ exists motor, EvSetMotorSpeed motor ∈ run.2).
Proof.
  destruct (sample_data_run w) as (r & e' & fs' & t & -> & Hsd).
  cbn [fst snd fs].
  destruct Hsd as [r_p r t_p Hp Hs|t_p motor res modes Hp Hres
                  |t_p motor res modes rps stop_res Hp Hres Hlen Hoks];
    pose proof (prologue_quiet _ _ Hp) as Hq;
    destruct (quiet_projections _ Hq) as (_ & _ & _ & Ho & Hst & _).
  - destruct (prologue_stopped _ _ Hp) as [->|(r' & Hr' & Hin)]; [done|].
    assert (r' = r) as -> by congruence.
    assert (r <> Ret 0) as Hne.
    { rewrite !elem_of_cons, elem_of_nil in Hin. intros ->.
      by destruct Hin as [?|[?|[?|[]]]]. }
    split_and!.
    + rewrite !elem_of_cons in *. tauto.
    + split; [done|]. intros [res Hlast].
      by apply (quiet_last _ _ Hq) in Hlast.
    + rewrite Hst. simpl. lia.
    + done.
    + intros res modes Hin'. rewrite Forall_forall in Hq. by apply Hq in Hin'.
  - split_and!.
    + rewrite !elem_of_cons. auto.
    + split; [done|]. intros [res' Hlast].
      by rewrite (last_app_cons t_p) in Hlast.
    + unfold stops in *. rewrite omap_app, Hst. simpl. lia.
    + intros _. unfold stops, opened in *. by rewrite !omap_app, Hst, Ho.
    + intros _ _ _ _. split; [done|]. exists motor.
      rewrite elem_of_app, !elem_of_cons. auto.
  - destruct (swept_observed t_p motor res modes rps stop_res Hp Hlen)
      as (_ & _ & _ & _ & Hstops & _).
    cbv zeta in Hstops. split_and!.
    + rewrite !elem_of_cons. auto.
    + split; [|done]. intros _. exists stop_res.
      by rewrite !app_assoc, last_snoc.
    + rewrite Hstops. simpl. lia.
    + done.
    + intros res' modes' Hin Hfail. exfalso.
      rewrite elem_of_app, !elem_of_app, !elem_of_cons, !elem_of_nil in Hin.
      destruct Hin as [Hin|[[?|[Heq|[]]]|[Hin|[?|[]]]]]; try discriminate.
      * rewrite Forall_forall in Hq. by apply Hq in Hin.
      * injection Heq as -> ->. congruence.
      * pose proof (sweeps_loop (SampleData.max_name_len modes) modes rps) as Hloop.
        rewrite Forall_forall in Hloop. by apply Hloop in Hin.
Qed.

(** X3: [read_data_bin] never returns 0: while it is observed it runs, or
    it has ended with -1 or -2.  It issues [stop] at most once, as its last
    action, and exactly when a retrieval has failed.  A run that is still
    going after [fuel] iterations has made [fuel] retrievals, all of them
    successful. *)
Theorem read_data_bin_status_and_stop (fuel : nat) (w : World E) :
  let run := ReadDataBin.main fuel w in
  run.1.1 ∈ [Running; Ret (-1); Exit (-1); Exit (-2)]
  /\ (length (stops run.2) <= 1)%nat
  /\ ((exists res, last run.2 = Some (EvStop res))
      <-> exists bad, bad ∈ grab_results run.2 /\ SL_IS_FAIL bad = true)
  /\ (stops run.2 <> [] -> exists res, last run.2 = Some (EvStop res))
  /\ (run.1.1 = Running ->
      length (grab_results run.2) = fuel
      /\ Forall (fun res => SL_IS_FAIL res = false) (grab_results run.2)
      /\ stops run.2 = []).
Proof.
  destruct (read_data_bin_run fuel w) as (r & e' & fs' & t & -> & Hrd).
  cbn [fst snd].
  assert (forall rps, Forall capture_ok rps ->
            Forall (fun res => SL_IS_FAIL res = false)
                   (map (fun rp => (cr_grab rp).1.1) rps)) as Hgood.
  { intros rps Hoks. apply Forall_map. eapply Forall_impl; [done|]. by intros rp []. }
  destruct Hrd as [r_p r t_p Hp Hs|t_p motor started rps Hp Hlen Hoks
                  |t_p motor started rps res nodes count stop_res Hp Hlen Hoks Hres];
    pose proof (prologue_quiet _ _ Hp) as Hq;
    destruct (quiet_projections _ Hq) as (Hg & _ & _ & _ & Hst & _).
  - destruct (prologue_stopped _ _ Hp) as [->|(r' & Hr' & Hin)]; [done|].
    assert (r' = r) as -> by congruence.
    split_and!.
    + rewrite !elem_of_cons in *. tauto.
    + rewrite Hst. simpl. lia.
    + rewrite Hg. split.
      * intros [res Hlast]. by apply (quiet_last _ _ Hq) in Hlast.
      * intros (bad & Hbad & _). by apply elem_of_nil in Hbad.
    + by rewrite Hst.
    + intros ->. rewrite !elem_of_cons, elem_of_nil in Hin.
      by destruct Hin as [?|[?|[?|[]]]].
  - destruct (captures_observed rps) as (Hg' & _ & _ & Hst').
    assert (grab_results (t_p ++ capture_opening motor started
                          ++ flat_map capture_events rps)
            = map (fun rp => (cr_grab rp).1.1) rps) as Hgrabs.
    { unfold grab_results in *. by rewrite !omap_app, Hg, Hg'. }
    assert (stops (t_p ++ capture_opening motor started
                   ++ flat_map capture_events rps) = []) as Hstops.
    { unfold stops in *. by rewrite !omap_app, Hst, Hst'. }
    rewrite Hgrabs, Hstops. split_and!.
    + rewrite !elem_of_cons. auto.
    + simpl. lia.
    + split.
      * intros [res Hlast]. exfalso.
        assert (EvStop res ∈ t_p ++ capture_opening motor started
                                 ++ flat_map capture_events rps) as Hin
          by (apply last_Some in Hlast as [t' ->];
              rewrite elem_of_app, list_elem_of_singleton; auto).
        assert (res ∈ stops (t_p ++ capture_opening motor started
                                 ++ flat_map capture_events rps)) as Hin'
          by (unfold stops; apply list_elem_of_omap; by exists (EvStop res)).
        rewrite Hstops in Hin'. by apply elem_of_nil in Hin'.
      * intros (bad & Hbad & Hfail). exfalso.
        pose proof (Hgood rps Hoks) as Hall. rewrite Forall_forall in Hall.
        apply Hall in Hbad. congruence.
    + done.
    + intros _. split_and!; [by rewrite length_map|by apply Hgood|done].
  - destruct (captures_observed rps) as (Hg' & _ & _ & Hst').
    assert (grab_results (t_p ++ capture_opening motor started
                          ++ flat_map capture_events rps
                          ++ capture_failure res nodes count stop_res)
            = map (fun rp => (cr_grab rp).1.1) rps ++ [res]) as Hgrabs.
    { unfold grab_results in *. by rewrite !omap_app, Hg, Hg'. }
    assert (stops (t_p ++ capture_opening motor started
                   ++ flat_map capture_events rps
                   ++ capture_failure res nodes count stop_res) = [stop_res])
      as Hstops.
    { unfold stops in *. by rewrite !omap_app, Hst, Hst'. }
    assert (last (t_p ++ capture_opening motor started
                  ++ flat_map capture_events rps
                  ++ capture_failure res nodes count stop_res)
            = Some (EvStop stop_res)) as Hlast.
    { unfold capture_failure.
      change [EvGrabScanDataHq 8192 res nodes count;
              EvPrint Stderr "Failed to read from lidar: {}\n"
                [ArgStr (resultErrorString res)];
              EvStop stop_res]
        with ([EvGrabScanDataHq 8192 res nodes count;
               EvPrint Stderr "Failed to read from lidar: {}\n"
                 [ArgStr (resultErrorString res)]] ++ [EvStop stop_res]).
      by rewrite !app_assoc, last_snoc. }
    rewrite Hgrabs, Hstops, Hlast. split_and!.
    + rewrite !elem_of_cons. auto.
    + simpl. lia.
    + split; [|by eauto]. intros _. exists res.
      rewrite elem_of_app, list_elem_of_singleton. auto.
    + by eauto.
    + done.
Qed.

End Status.

(** ** The loop of the continuous capture *)

Section Endless.
Context `{Hdr : SlHeader} {E : Type} `{Env : Sdk E}.

Lemma forever_capture_endless (fuel : nat) (w : World E) :
  (forall capacity e, SL_IS_FAIL (drv_grabScanDataHq capacity e).1.1.1 = false) ->
  exists w' t,
    forever fuel ReadDataBin.capture w = (Running, w', t)
    /\ length (ascended t) = fuel /\ stops t = [].
Proof.
  intros Hgood. revert w. induction fuel as [|fuel IH]; intros w.
  - by exists w, [].
  - cbn [forever]. destruct w as [e0 fs0].
    unfold ReadDataBin.capture at 1. unfold grabScanDataHq, ascendScanData.
    rewrite bind_assoc. pose proof (Hgood 8192 e0) as Hres.
    run_call as [[[res nodes] count] e1]. cbn [fst] in Hres. rewrite Hres.
    rewrite bind_assoc. run_call as [[r2 nodes'] e2].
    rewrite bind_assoc. run_out. rewrite bind_assoc. run_out. run_end.
    match goal with
    | |- context [forever fuel _ ?w1] => destruct (IH w1) as (w' & t & -> & Hlen & Hst)
    end.
    rewrite prepend_value. do 2 eexists. split; [reflexivity|].
    unfold ascended, stops in *. cbn [omap list_omap app].
    rewrite Hst. split; [|done]. simpl. by rewrite Hlen.
Qed.

(** X4: with a driver whose retrievals never fail, a run of
    [read_data_bin] that has reached the loop never leaves it: however long
    it is observed it is still running, it has reordered and written one
    batch per iteration and it has not issued [stop].  The [stop] and the
    [return 0] after the loop are never reached. *)
Theorem capture_loop_never_ends (w : World E) :
  (forall capacity e, SL_IS_FAIL (drv_grabScanDataHq capacity e).1.1.1 = false) ->
  (ReadDataBin.main 0 w).1.1 = Running ->
  forall fuel,
    (ReadDataBin.main fuel w).1.1 = Running
    /\ length (ascended (ReadDataBin.main fuel w).2) = fuel
    /\ stops (ReadDataBin.main fuel w).2 = [].
Proof.
  intros Hgood Hloop fuel.
  destruct (prologue_run w) as (r_p & e1 & t_p & Hrun & Hp).
  pose proof (prologue_quiet _ _ Hp) as Hq.
  destruct (quiet_projections _ Hq) as (_ & _ & Ha & _ & Hst & _).
  unfold ReadDataBin.main, session in *.
  destruct r_p as [[code|]|code|].
  - exfalso. erewrite bind_run in Hloop by done. by cbn in Hloop.
  - erewrite bind_run by done. cbn beta iota.
    unfold ReadDataBin.acquire, setMotorSpeed, startScan.
    run_call as [motor e2]. run_out. run_out. run_call as [started e3].
    match goal with
    | |- context [forever fuel _ ?w1] =>
        destruct (forever_capture_endless fuel w1 Hgood) as (w' & t & -> & Hlen & Hstops)
    end.
    rewrite !prepend_value. cbn [fst snd].
    unfold ascended, stops in *. rewrite !omap_app, Ha, Hst.
    cbn [omap list_omap app]. by rewrite Hstops.
  - exfalso. erewrite bind_exit in Hloop by done. by cbn in Hloop.
  - inversion Hp.
Qed.

End Endless.

(** ** The files *)

Section Files.
Context `{Hdr : SlHeader} {E : Type} `{Env : Sdk E}.

Lemma quiet_written path t :
  Forall (fun e => quiet_event e = true) t -> written path t = [].
Proof. intros Ht. apply omap_none. eapply Forall_impl; [done|]. by intros []. Qed.

Lemma captures_written rps :
  written "data.bin" (flat_map capture_events rps) = flat_map capture_chunks rps.
Proof.
  induction rps as [|rp rps IH]; [done|].
  unfold written in *. cbn [flat_map]. rewrite omap_app, IH. done.
Qed.

(** X6: [read_data_bin] touches no file but [data.bin].  It opens it at
    most once, exactly in the runs that start the motor, and then the file
    holds the chunks written in this run and nothing of what it held
    before; a run that does not open it leaves the file system as it found
    it. *)
Theorem read_data_bin_touches_only_data_bin (fuel : nat) (w : World E) :
  let run := ReadDataBin.main fuel w in
  (forall path, path <> "data.bin" -> fs run.1.2 !! path = fs w !! path)
  /\ (opened run.2 = [] \/ opened run.2 = ["data.bin"])
  /\ (opened run.2 = [] -> fs run.1.2 = fs w)
  /\ (opened run.2 <> [] ->
      fs run.1.2 !! "data.bin" = Some (written "data.bin" run.2))
  /\ (opened run.2 <> [] <-> exists motor, EvSetMotorSpeed motor ∈ run.2).
Proof.
  destruct (read_data_bin_run fuel w) as (r & e' & fs' & t & -> & Hrd).
  cbn [fst snd fs].
  assert (forall rps, opened (flat_map capture_events rps) = []) as Hcaps.
  { intros rps. induction rps as [|rp rps IH]; [done|].
    unfold opened in *. cbn [flat_map]. by rewrite omap_app, IH. }
  destruct Hrd as [r_p r t_p Hp Hs|t_p motor started rps Hp Hlen Hoks
                  |t_p motor started rps res nodes count stop_res Hp Hlen Hoks Hres];
    pose proof (prologue_quiet _ _ Hp) as Hq;
    destruct (quiet_projections _ Hq) as (_ & _ & _ & Ho & _).
  - rewrite Ho. split_and!; [done|by left|done|done|].
    split; [done|]. intros [motor Hin]. rewrite Forall_forall in Hq.
    by apply Hq in Hin.
  - assert (opened (t_p ++ capture_opening motor started
                    ++ flat_map capture_events rps) = ["data.bin"]) as ->.
    { unfold opened in *. by rewrite !omap_app, Ho, Hcaps. }
    split_and!; [|by right|done| |].
    + intros path Hpath. by rewrite lookup_insert_ne.
    + intros _. rewrite lookup_insert_eq. f_equal.
      unfold written. rewrite !omap_app.
      fold (written "data.bin" t_p). rewrite quiet_written by done.
      fold (written "data.bin" (flat_map capture_events rps)).
      by rewrite captures_written.
    + split; [|done]. intros _. exists motor.
      rewrite elem_of_app. right. unfold capture_opening. apply elem_of_cons. by left.
  - assert (opened (t_p ++ capture_opening motor started
                    ++ flat_map capture_events rps
                    ++ capture_failure res nodes count stop_res) = ["data.bin"]) as ->.
    { unfold opened in *. by rewrite !omap_app, Ho, Hcaps. }
    split_and!; [|by right|done| |].
    + intros path Hpath. by rewrite lookup_insert_ne.
    + intros _. rewrite lookup_insert_eq. f_equal.
      unfold written. rewrite !omap_app.
      fold (written "data.bin" t_p). rewrite quiet_written by done.
      fold (written "data.bin" (flat_map capture_events rps)).
      rewrite captures_written. cbn. by rewrite app_nil_r.
    + split; [|done]. intros _. exists motor.
      rewrite elem_of_app. right. unfold capture_opening. apply elem_of_cons. by left.
Qed.

Lemma snoc_length_inv {A B} (l : list A) (x : A) (k : list B) :
  length k = length (l ++ [x]) ->
  exists k1 y, k = k1 ++ [y] /\ length k1 = length l.
Proof.
  rewrite length_app. cbn. intros Hlen.
  destruct k as [|y k1 _] using rev_ind; [cbn in Hlen; lia|].
  exists k1, y. split; [done|]. rewrite length_app in Hlen. cbn in Hlen. lia.
Qed.

(** X7: after a sweep, every file that does not bear the name of an
    enumerated mode is as it was before, and the file of each mode is the
    table written for it.  When several enumerated modes give the same file
    name, the file holds the table of the last of them: the earlier tables
    are lost. *)
Theorem sweep_file_system_effect (w : World E) (res : sl_result)
    (modes : list sl.LidarScanMode) :
  EvGetAllSupportedScanModes res modes ∈ (SampleData.main w).2 ->
  SL_IS_FAIL res = false ->
  let t := (SampleData.main w).2 in
  let files := fs (SampleData.main w).1.2 in
  (forall path,
     path ∉ map SampleData.filename modes -> files !! path = fs w !! path)
  /\ (forall path,
        path ∈ map SampleData.filename modes ->
        exists table, (path, table) ∈ files_written t /\ files !! path = Some table)
  /\ (forall modes1 m modes2 table,
        modes = modes1 ++ m :: modes2 ->
        SampleData.filename m ∉ map SampleData.filename modes2 ->
        files_written t !! length modes1 = Some (SampleData.filename m, table) ->
        files !! SampleData.filename m = Some table).
Proof.
  intros Hin Hres t files. unfold t, files in *. clear t files.
  destruct (sample_data_run w) as (r & e' & fs' & t & Hrun & Hsd).
  rewrite Hrun in *. cbn [fst snd fs] in *.
  destruct (sample_data_swept _ _ _ _ _ _ Hsd Hin Hres)
    as (t_p & motor & rps & stop_res & Hp & Hlen & Hoks & -> & -> & ->).
  destruct (swept_observed t_p motor res modes rps stop_res Hp Hlen)
    as (_ & _ & _ & _ & _ & _ & Hf).
  rewrite Hf. split_and!.
  - intros path Hpath. by apply sweep_fs_other.
  - intros path Hpath.
    apply list_elem_of_In, in_map_iff in Hpath as (m & <- & Hm).
    apply list_elem_of_In, list_elem_of_lookup in Hm as [i Hi].
    assert (exists modes1 modes2, modes = modes1 ++ m :: modes2) as (modes1 & modes2 & ->).
    { exists (take i modes), (drop (S i) modes). by rewrite take_drop_middle. }
    clear Hi Hin Hsd Hrun Hf Hp. revert rps Hlen Hoks.
    induction modes2 as [|m2 modes2 IH] using rev_ind; intros rps Hlen Hoks.
    + assert (exists rps1 rpl, rps = rps1 ++ [rpl] /\ length rps1 = length modes1)
        as (rps1 & rpl & -> & Hlen1).
      { by eapply snoc_length_inv. }
      rewrite (sweep_fs_last (fs w) modes1 m [] rps1 rpl []) by (done || apply not_elem_of_nil).
      exists (sweep_file rpl). split; [|done].
      rewrite zip_with_app by done. rewrite elem_of_app. right. by left.
    + destruct (decide (SampleData.filename m2 = SampleData.filename m)) as [Heq|Hne].
      * clear IH. rewrite <-Heq.
        replace (modes1 ++ m :: modes2 ++ [m2])
          with ((modes1 ++ m :: modes2) ++ m2 :: []) in *
          by (by rewrite <-app_assoc).
        assert (exists rps1 rpl, rps = rps1 ++ [rpl]
                                 /\ length rps1 = length (modes1 ++ m :: modes2))
          as (rps1 & rpl & -> & Hlen1).
        { by eapply snoc_length_inv. }
        exists (sweep_file rpl). split.
        -- rewrite zip_with_app by done. rewrite elem_of_app. right. by left.
        -- by rewrite (sweep_fs_last (fs w) _ m2 [] rps1 rpl []) by (done || apply not_elem_of_nil).
      * replace (modes1 ++ m :: modes2 ++ [m2])
          with ((modes1 ++ m :: modes2) ++ [m2]) in *
          by (by rewrite <-app_assoc).
        assert (exists rps1 rpl, rps = rps1 ++ [rpl]
                                 /\ length rps1 = length (modes1 ++ m :: modes2))
          as (rps1 & rpl & -> & Hlen1).
        { by eapply snoc_length_inv. }
        apply Forall_app in Hoks as [Hoks1 _].
        destruct (IH rps1 Hlen1 Hoks1) as (table & Htable & Hfile).
        exists table. split.
        -- rewrite zip_with_app by done. rewrite elem_of_app. by left.
        -- unfold sweep_fs in *. rewrite zip_with_app, fold_left_app by done.
           cbn [zip_with fold_left fst snd].
           rewrite lookup_insert_ne by done. exact Hfile.
  - intros modes1 m modes2 table -> Hlast Hi.
    rewrite lookup_zip_with in Hi.
    rewrite list_lookup_middle in Hi by done. cbn in Hi.
    destruct (rps !! length modes1) as [rp|] eqn:Hrp; [|done].
    cbn in Hi. injection Hi as <-.
    rewrite <-(take_drop_middle rps (length modes1) rp Hrp).
    rewrite sweep_fs_last; [done| |done].
    rewrite length_take. apply lookup_lt_Some in Hrp. lia.
Qed.

Lemma sweeps_grab_counts k modes rps :
  length rps = length modes ->
  grab_counts (concat (zip_with (sweep_events k) modes rps))
  = map (fun rp => ((sr_grab rp).1.1, (sr_grab rp).2)) rps.
Proof.
  revert rps. induction modes as [|m modes IH]; intros [|rp rps] Hlen;
    try discriminate Hlen; [done|].
  injection Hlen as Hlen. cbn [zip_with concat map].
  unfold grab_counts in *. rewrite omap_app, IH by done.
  unfold sweep_events. rewrite !omap_app. cbn [omap list_omap app].
  destruct (SL_IS_OK _); cbn [omap list_omap app]; [|done].
  by rewrite omap_rows.
Qed.

(** X8: in [sample_data] the table of a mode has as many rows as the
    retrieval of that mode reported nodes: a successful retrieval with count
    [c] gives the header and [c] rows (the conversion of the count to [int]
    loses nothing), and a failed one gives the header alone. *)
Theorem table_has_one_row_per_node (w : World E) :
  Forall2 (fun gc table =>
             if SL_IS_OK gc.1
             then length table.2 = S (Z.to_nat gc.2)
             else table.2 = [SampleData.header])
          (grab_counts (SampleData.main w).2)
          (files_written (SampleData.main w).2).
Proof.
  destruct (sample_data_run w) as (r & e' & fs' & t & -> & Hsd).
  cbn [fst snd].
  destruct Hsd as [r_p r t_p Hp Hs|t_p motor res modes Hp Hres
                  |t_p motor res modes rps stop_res Hp Hres Hlen Hoks];
    pose proof (prologue_quiet _ _ Hp) as Hq;
    destruct (quiet_projections _ Hq) as (_ & _ & _ & _ & _ & Hfw & _);
    assert (grab_counts t_p = []) as Hgc
      by (apply omap_none; eapply Forall_impl; [exact Hq|]; by intros []).
  - rewrite Hgc, Hfw. constructor.
  - unfold grab_counts in *. rewrite omap_app, Hgc.
    rewrite files_written_skip by (eapply Forall_impl; [exact Hq|]; by intros []).
    constructor.
  - destruct (swept_observed t_p motor res modes rps stop_res Hp Hlen)
      as (_ & _ & _ & _ & _ & _ & Hf).
    cbv zeta in Hf. rewrite Hf.
    assert (grab_counts
              (t_p ++ [EvSetMotorSpeed motor; EvGetAllSupportedScanModes res modes]
               ++ concat (zip_with (sweep_events (SampleData.max_name_len modes)) modes rps)
               ++ [EvStop stop_res])
            = map (fun rp => ((sr_grab rp).1.1, (sr_grab rp).2)) rps) as ->.
    { pose proof (sweeps_grab_counts (SampleData.max_name_len modes) modes rps Hlen) as Hs.
      unfold grab_counts in *. rewrite !omap_app, Hgc, Hs.
      cbn [omap list_omap app]. by rewrite app_nil_r. }
    clear Hf. revert rps Hlen Hoks.
    induction modes as [|m modes' IH]; intros [|rp rps] Hlen Hoks;
      try discriminate Hlen; [constructor|].
    injection Hlen as Hlen. apply Forall_cons in Hoks as [Hok Hoks].
    cbn [zip_with map]. constructor; [|by apply IH].
    cbn [fst snd]. unfold sweep_file. rewrite (sweep_rows_ok rp Hok).
    destruct (SL_IS_OK _); [|done].
    cbn [length]. by rewrite length_map, length_slots.
Qed.

End Files.

(** ** Names, alignment and exported values *)

Section Names.
Context `{Hdr : SlHeader}.

Lemma max_name_len_from (modes : list sl.LidarScanMode) (a : Z) :
  let f := fun max_name_len mode =>
             let name_len := SampleData.strlen (sl.scan_mode mode) in
             if name_len >? max_name_len then name_len else max_name_len in
  a <= fold_left f modes a
  /\ Forall (fun m => SampleData.strlen (sl.scan_mode m) <= fold_left f modes a) modes
  /\ (fold_left f modes a = a
      \/ exists m, m ∈ modes
                   /\ fold_left f modes a = SampleData.strlen (sl.scan_mode m)).
Proof.
  intros f. revert a. induction modes as [|m modes IH]; intros a.
  - cbn. split_and!; [lia|constructor|by left].
  - cbn [fold_left]. destruct (IH (f a m)) as (Hle & Hall & Hmax).
    assert (a <= f a m /\ SampleData.strlen (sl.scan_mode m) <= f a m
            /\ (f a m = a \/ f a m = SampleData.strlen (sl.scan_mode m)))
      as (Ha & Hm & Hf).
    { unfold f. cbv zeta.
      destruct (Z.gtb_spec (SampleData.strlen (sl.scan_mode m)) a); lia. }
    split_and!.
    + lia.
    + constructor; [lia|done].
    + destruct Hmax as [Hmax|(m' & Hm' & Hmax)].
      * rewrite Hmax. destruct Hf as [Hf|Hf]; [by left|].
        right. exists m. split; [by left|done].
      * right. exists m'. split; [by right|done].
Qed.

(** X9: the width computed for the column of the mode names is the length
    of the longest name: no name of the list is longer, some name has that
    length when the list is not empty, and the width is 0 for an empty
    list. *)
Theorem max_name_len_is_the_longest (modes : list sl.LidarScanMode) :
  Forall (fun m => SampleData.strlen (sl.scan_mode m) <= SampleData.max_name_len modes)
         modes
  /\ (modes <> [] ->
      exists m, m ∈ modes
                /\ SampleData.max_name_len modes = SampleData.strlen (sl.scan_mode m))
  /\ (modes = [] -> SampleData.max_name_len modes = 0)
  /\ 0 <= SampleData.max_name_len modes.
Proof.
  destruct (max_name_len_from modes 0) as (Hle & Hall & Hmax).
  split_and!; [done| |by intros ->|done].
  intros Hne. destruct Hmax as [Hmax|Hmax]; [|done].
  destruct modes as [|m modes]; [done|]. clear Hne.
  apply Forall_inv in Hall. exists m. split; [by left|].
  unfold SampleData.max_name_len, SampleData.strlen in *. lia.
Qed.

Ltac compare_codes :=
  unfold resultErrorString;
  repeat match goal with
         | |- context [Z.eqb ?a ?b] => destruct (Z.eqb_spec a b); try congruence
         end.

(** X10: [resultErrorString] gives "No Error" for [SL_RESULT_OK] and
    "Other Error" for every code it has no case for.  When the nine result
    codes of the header are distinct, each of them gets its own name,
    different codes get different names, and "Other Error" stands for the
    codes without a case only. *)
Theorem resultErrorString_names (res : sl_result) :
  resultErrorString SL_RESULT_OK = "No Error"
  /\ (res ∉ named_results -> resultErrorString res = "Other Error")
  /\ (NoDup named_results ->
      map resultErrorString named_results
      = ["No Error"; "ALREADY_DONE"; "INVALID_DATA"; "OPERATION_FAIL";
         "OPERATION_TIMEOUT"; "OPERATION_STOP"; "OPERATION_NOT_SUPPORT";
         "FORMAT_NOT_SUPPORT"; "INSUFFICIENT_MEMORY"]
      /\ (resultErrorString res = "Other Error" -> res ∉ named_results)
      /\ forall other,
           res ∈ named_results -> other ∈ named_results ->
           resultErrorString res = resultErrorString other -> res = other).
Proof.
  split_and!.
  - unfold resultErrorString. by rewrite Z.eqb_refl.
  - unfold named_results. rewrite !not_elem_of_cons. intros Hres.
    destruct_and!. compare_codes.
  - unfold named_results. intros Hnodup.
    repeat match goal with
           | H : NoDup (_ :: _) |- _ => apply NoDup_cons in H as [? ?]
           end.
    repeat match goal with
           | H : _ ∉ _ :: _ |- _ => apply not_elem_of_cons in H as [? ?]
           end.
    assert (map resultErrorString named_results
            = ["No Error"; "ALREADY_DONE"; "INVALID_DATA"; "OPERATION_FAIL";
               "OPERATION_TIMEOUT"; "OPERATION_STOP"; "OPERATION_NOT_SUPPORT";
               "FORMAT_NOT_SUPPORT"; "INSUFFICIENT_MEMORY"]) as Hnames.
    { unfold named_results. cbn [map]. repeat f_equal; compare_codes. }
    unfold named_results in Hnames. cbn [map] in Hnames.
    injection Hnames as E0 E1 E2 E3 E4 E5 E6 E7 E8.
    split_and!.
    + cbn [map]. by rewrite E0, E1, E2, E3, E4, E5, E6, E7, E8.
    + intros Hother Hin. rewrite !elem_of_cons, elem_of_nil in Hin.
      destruct Hin as [->|[->|[->|[->|[->|[->|[->|[->|[->|[]]]]]]]]]]; congruence.
    + intros other Hin Hin'. rewrite !elem_of_cons, elem_of_nil in Hin, Hin'.
      destruct Hin as [->|[->|[->|[->|[->|[->|[->|[->|[->|[]]]]]]]]]];
        destruct Hin' as [->|[->|[->|[->|[->|[->|[->|[->|[->|[]]]]]]]]]];
        rewrite ?E0, ?E1, ?E2, ?E3, ?E4, ?E5, ?E6, ?E7, ?E8;
        first [reflexivity|discriminate].
Qed.

End Names.

(** X11: for a 16-bit raw angle the exported angle lies in [0, 360), for a
    raw distance below 2^24 the exported distance lies in [0, 4194304), and
    in these ranges the export loses nothing: nodes whose exported angles
    (distances) are equal have equal raw angles (distances). *)
Theorem exported_values_in_range (n : node) :
  (0 <= sl.angle_z_q14 n < 65536 ->
   exists q, float_value (SampleData.theta n) = Some q /\ (0 <= q)%Q /\ (q < 360)%Q)
  /\ (0 <= sl.dist_mm_q2 n < 2 ^ 24 ->
      exists q, float_value (SampleData.dist n) = Some q
                /\ (0 <= q)%Q /\ (q < 4194304)%Q)
  /\ (forall n', 0 <= sl.angle_z_q14 n < 65536 -> 0 <= sl.angle_z_q14 n' < 65536 ->
                 SampleData.theta n = SampleData.theta n' ->
                 sl.angle_z_q14 n = sl.angle_z_q14 n')
  /\ (forall n', 0 <= sl.dist_mm_q2 n < 2 ^ 24 -> 0 <= sl.dist_mm_q2 n' < 2 ^ 24 ->
                 SampleData.dist n = SampleData.dist n' ->
                 sl.dist_mm_q2 n = sl.dist_mm_q2 n').
Proof.
  split_and!.
  - intros Ha. destruct (theta_value n Ha) as (q & Hq & Hv).
    exists q. split; [done|]. rewrite Hv. unfold Qle, Qlt. cbn [Qnum Qden]. lia.
  - intros Hd. destruct (dist_value n Hd) as (q & Hq & Hv).
    exists q. split; [done|]. rewrite Hv. unfold Qle, Qlt. cbn [Qnum Qden]. lia.
  - intros n' Ha Ha' Heq.
    destruct (theta_value n Ha) as (q & Hq & Hv).
    destruct (theta_value n' Ha') as (q' & Hq' & Hv').
    rewrite Heq, Hq' in Hq. injection Hq as <-. rewrite Hv' in Hv.
    unfold Qeq in Hv. cbn [Qnum Qden] in Hv. lia.
  - intros n' Hd Hd' Heq.
    destruct (dist_value n Hd) as (q & Hq & Hv).
    destruct (dist_value n' Hd') as (q' & Hq' & Hv').
    rewrite Heq, Hq' in Hq. injection Hq as <-. rewrite Hv' in Hv.
    unfold Qeq in Hv. cbn [Qnum Qden] in Hv. lia.
Qed.

(** ** The report of the device *)

Section Stats.
Context `{Hdr : SlHeader} `{MHdr : MotorHeader}.
Context {E : Type} `{Env : Sdk E} `{MEnv : MotorSdk E}.

Lemma printMotorStats_run (motor : LidarMotorInfo) {B} (k : unit -> M E B) (w : World E) :
  bind (PrintStats.printMotorStats motor) k w = prepend (motor_report motor) (k tt w).
Proof.
  unfold PrintStats.printMotorStats, motor_report, support_line.
  rewrite bind_assoc. run_out. rewrite bind_assoc. run_out. rewrite bind_assoc.
  destruct (motorCtrlSupport motor =? MotorCtrlSupportNone);
    [|destruct (motorCtrlSupport motor =? MotorCtrlSupportPwm);
      [|destruct (motorCtrlSupport motor =? MotorCtrlSupportRpm)]];
    run_out; run_out; by destruct w.
Qed.

Lemma printScanModes_run (modes : list sl.LidarScanMode) {B} (k : unit -> M E B)
    (w : World E) :
  bind (PrintStats.printScanModes modes) k w = prepend (modes_report modes) (k tt w).
Proof.
  unfold PrintStats.printScanModes, modes_report. cbv zeta.
  rewrite bind_assoc. run_out.
  erewrite bind_run;
    [|exact (for_each_print Stdout _
               (fun mode => [ArgInt (sl.id mode); ArgStr (sl.scan_mode mode);
                             ArgInt (SampleData.max_name_len modes);
                             ArgInt (sl.ans_type mode);
                             ArgFloat (sl.us_per_sample mode);
                             ArgFloat (sl.max_distance mode)]) modes _)].
  run_norm. by destruct w.
Qed.

Lemma print_stats_run (w : World E) :
  exists r e' t,
    PrintStats.main w = (r, {| env := e'; fs := fs w |}, t)
    /\ print_stats_outcome r t.
Proof.
  destruct (prologue_run w) as (r_p & e1 & t_p & Hrun & Hp).
  unfold PrintStats.main, bindS, lift. rewrite Hrun.
  destruct r_p as [[code|]|code|].
  - unfold ret. do 3 eexists. split; [by rewrite app_nil_r|]. by eapply PS_stopped.
  - unfold PrintStats.getMotorInfo. cbn [env fs].
    destruct (drv_getMotorInfo e1) as [[res_motor motor] e2]. cbn [fst snd].
    destruct (SL_IS_FAIL res_motor) eqn:Hmotor.
    + rewrite bind_println. unfold ret. rewrite prepend_value. cbn [map app].
      do 3 eexists. split; [reflexivity|]. by apply PS_no_motor.
    + unfold PrintStats.report, getAllSupportedScanModes, stop.
      rewrite printMotorStats_run. run_call as [[res modes] e3].
      destruct (SL_IS_FAIL res) eqn:Hres.
      * run_out. run_end. do 3 eexists. split; [reflexivity|].
        by apply PS_no_modes.
      * rewrite printScanModes_run. run_norm. run_call as [stop_res e4]. run_end.
        do 3 eexists. split; [reflexivity|].
        by apply (PS_reported _ _ _ _ _ stop_res).
  - do 3 eexists. split; [reflexivity|]. by eapply PS_stopped.
  - inversion Hp.
Qed.

Lemma stats_common_lift (t : list Event) : stats_common (map Common t) = t.
Proof. induction t as [|e t IH]; [done|]. unfold stats_common in *. cbn. by rewrite IH. Qed.

Lemma common_in_lift (e : Event) (t : list Event) : Common e ∈ map Common t -> e ∈ t.
Proof.
  intros (e' & [= ->] & He)%list_elem_of_In%in_map_iff. by apply list_elem_of_In.
Qed.

Lemma stats_common_app a b :
  stats_common (a ++ b) = stats_common a ++ stats_common b.
Proof. apply omap_app. Qed.

Lemma stats_common_motor res motor t :
  stats_common (EvGetMotorInfo res motor :: t) = stats_common t.
Proof. done. Qed.

Lemma motor_report_quiet motor :
  Forall (fun e => quiet_event e = true) (motor_report motor).
Proof. by repeat constructor. Qed.

Lemma modes_report_quiet modes :
  Forall (fun e => quiet_event e = true) (modes_report modes).
Proof. constructor; [done|]. by apply Forall_map, Forall_forall. Qed.

(** X12: [print_stats] only asks and prints.  It leaves the file system as
    it found it, and among its events there is no motor start, no scan
    start, no retrieval, no reorder, no reading of the clock and no file
    operation. *)
Theorem print_stats_only_reports (w : World E) :
  fs (PrintStats.main w).1.2 = fs w
  /\ Forall (fun e =>
        match e with
        | Common (EvSetMotorSpeed _) | Common (EvStartScan _ _ _)
        | Common (EvStartScanExpress _ _ _ _ _) | Common (EvGrabScanDataHq _ _ _ _)
        | Common (EvAscendScanData _ _ _) | Common (EvClockNow _)
        | Common (EvOpen _) | Common (EvWrite _ _) => False
        | _ => True
        end) (PrintStats.main w).2.
Proof.
  destruct (print_stats_run w) as (r & e' & t & -> & Hout). cbn [fst snd fs].
  split; [done|].
  assert (forall t, Forall (fun e => quiet_event e = true) t ->
            Forall (fun e =>
              match e with
              | Common (EvSetMotorSpeed _) | Common (EvStartScan _ _ _)
              | Common (EvStartScanExpress _ _ _ _ _) | Common (EvGrabScanDataHq _ _ _ _)
              | Common (EvAscendScanData _ _ _) | Common (EvClockNow _)
              | Common (EvOpen _) | Common (EvWrite _ _) => False
              | _ => True
              end) (map Common t)) as Hquiet.
  { intros t' Ht. apply Forall_map. eapply Forall_impl; [done|]. by intros []. }
  destruct Hout as [r_p r t_p Hp Hs|t_p res motor Hp Hres
                   |t_p res_m motor res modes Hp Hm Hres
                   |t_p res_m motor res modes stop_res Hp Hm Hres];
    pose proof (Hquiet _ (prologue_quiet _ _ Hp)) as Hpro.
  - done.
  - apply Forall_app. split; [done|]. by repeat constructor.
  - apply Forall_app. split; [done|]. constructor; [done|].
    rewrite map_app. apply Forall_app. split; [apply Hquiet, motor_report_quiet|].
    by repeat constructor.
  - apply Forall_app. split; [done|]. constructor; [done|].
    rewrite map_app. apply Forall_app. split; [apply Hquiet, motor_report_quiet|].
    cbn [map]. constructor; [done|]. rewrite map_app. apply Forall_app.
    split; [apply Hquiet, modes_report_quiet|]. by repeat constructor.
Qed.

(** X13: [print_stats] ends with status 0, -1 or -2.  It returns 0 exactly
    when its last action is [stop], which then is the only [stop] of the
    run; a run that ends otherwise issues no [stop].  A query of the motor
    that fails is followed by its line on the error stream and nothing else,
    and [main] returns -1; one that succeeds is followed by the four lines
    of the motor report and the query of the scan modes. *)
Theorem print_stats_status_and_motor (w : World E) :
  let run := PrintStats.main w in
  run.1.1 ∈ [Ret 0; Ret (-1); Exit (-1); Exit (-2)]
  /\ (run.1.1 = Ret 0 <-> exists res, last run.2 = Some (Common (EvStop res)))
  /\ (run.1.1 = Ret 0 -> exists res, stops (stats_common run.2) = [res])
  /\ (run.1.1 <> Ret 0 -> stops (stats_common run.2) = [])
  /\ (forall pre res motor post,
        run.2 = pre ++ EvGetMotorInfo res motor :: post ->
        if SL_IS_FAIL res
        then post = [Common (EvPrint Stderr "Failed to get motor info\n" [])]
             /\ run.1.1 = Ret (-1)
        else exists res_modes modes rest,
               post = map Common (motor_report motor)
                      ++ Common (EvGetAllSupportedScanModes res_modes modes) :: rest).
Proof.
  destruct (print_stats_run w) as (r & e' & t & -> & Hout). cbn [fst snd].
  assert (forall t_p pre res motor post tail res' motor',
            map Common t_p ++ EvGetMotorInfo res' motor' :: tail
            = pre ++ EvGetMotorInfo res motor :: post ->
            Forall (fun e => match e with EvGetMotorInfo _ _ => False | _ => True end)
                   tail ->
            res = res' /\ motor = motor' /\ post = tail) as Hsplit.
  { intros t_p pre res motor post tail res' motor' Heq Htail.
    revert pre Heq. induction t_p as [|e t_p IH]; intros pre Heq.
    - destruct pre as [|e0 pre]; cbn in Heq.
      + by injection Heq as -> -> ->.
      + exfalso. injection Heq as _ Heq. rewrite Heq in Htail.
        apply Forall_app in Htail as [_ Htail]. by apply Forall_inv in Htail.
    - destruct pre as [|e0 pre]; cbn in Heq; [discriminate|].
      injection Heq as _ Heq. by apply (IH pre). }
  assert (forall l : list Event,
            Forall (fun e => match e with EvGetMotorInfo _ _ => False | _ => True end)
                   (map Common l)) as Hcommon
    by (intros l; by apply Forall_map, Forall_forall).
  destruct Hout as [r_p r t_p Hp Hs|t_p res motor Hp Hres
                   |t_p res_m motor res modes Hp Hm Hres
                   |t_p res_m motor res modes stop_res Hp Hm Hres];
    pose proof (prologue_quiet _ _ Hp) as Hq;
    destruct (quiet_projections _ Hq) as (_ & _ & _ & _ & Hst & _).
  - destruct (prologue_stopped _ _ Hp) as [->|(r' & Hr' & Hin)]; [done|].
    assert (r' = r) as -> by congruence.
    assert (r <> Ret 0) as Hne.
    { rewrite !elem_of_cons, elem_of_nil in Hin. intros ->.
      by destruct Hin as [?|[?|[?|[]]]]. }
    rewrite stats_common_lift, Hst. split_and!.
    + rewrite !elem_of_cons in *. tauto.
    + split; [done|]. intros [res Hlast]. apply last_Some in Hlast as [l' Hl'].
      assert (Common (EvStop res) ∈ map Common t_p) as Hin'
        by (rewrite Hl', elem_of_app, list_elem_of_singleton; auto).
      apply common_in_lift in Hin'. rewrite Forall_forall in Hq.
      by apply Hq in Hin'.
    + done.
    + done.
    + intros pre res motor post Heq. exfalso.
      pose proof (Hcommon t_p) as Hall. rewrite Heq in Hall.
      apply Forall_app in Hall as [_ Hall]. by apply Forall_inv in Hall.
  - rewrite stats_common_app, stats_common_lift, stats_common_motor.
    unfold stops in *. rewrite omap_app, Hst. split_and!.
    + rewrite !elem_of_cons. auto.
    + split; [done|]. intros [res' Hlast]. by rewrite last_app_cons in Hlast.
    + done.
    + done.
    + intros pre res' motor' post Heq.
      apply Hsplit in Heq as (-> & -> & ->); [|by repeat constructor].
      by rewrite Hres.
  - rewrite stats_common_app, stats_common_lift, stats_common_motor, stats_common_lift.
    unfold stops in *. rewrite !omap_app, Hst.
    rewrite (omap_none _ (motor_report motor))
      by (eapply Forall_impl; [apply motor_report_quiet|]; by intros []).
    split_and!.
    + rewrite !elem_of_cons. auto.
    + split; [done|]. intros [res' Hlast].
      rewrite map_app, app_comm_cons, app_assoc in Hlast.
      cbn [map] in Hlast. by rewrite last_app_cons in Hlast.
    + done.
    + done.
    + intros pre res' motor' post Heq.
      apply Hsplit in Heq as (-> & -> & ->); [|apply Hcommon].
      rewrite Hm, map_app. by eauto.
  - rewrite stats_common_app, stats_common_lift, stats_common_motor, stats_common_lift.
    unfold stops in *. rewrite !omap_app, Hst.
    rewrite (omap_none _ (motor_report motor))
      by (eapply Forall_impl; [apply motor_report_quiet|]; by intros []).
    cbn [omap list_omap]. rewrite omap_app.
    rewrite (omap_none _ (modes_report modes))
      by (eapply Forall_impl; [apply modes_report_quiet|]; by intros []).
    split_and!.
    + rewrite !elem_of_cons. auto.
    + split; [|done]. intros _. exists stop_res.
      rewrite map_app. cbn [map]. rewrite map_app. cbn [map].
      rewrite !app_comm_cons, !app_assoc. by rewrite last_snoc.
    + by eauto.
    + done.
    + intros pre res' motor' post Heq.
      apply Hsplit in Heq as (-> & -> & ->); [|apply Hcommon].
      rewrite Hm, map_app. cbn [map]. by eauto.
Qed.

Lemma split_at_first {A} (l1 l2 pre post : list A) (x y : A) :
  l1 ++ x :: l2 = pre ++ y :: post ->
  y ∉ l1 -> y ∉ l2 ->
  x = y /\ l2 = post.
Proof.
  revert pre. induction l1 as [|a l1 IH]; intros [|e pre] Heq Hl1 Hl2;
    cbn in Heq; injection Heq as Hhead Htail.
  - done.
  - exfalso. apply Hl2. rewrite Htail, elem_of_app, elem_of_cons. auto.
  - exfalso. apply Hl1. rewrite Hhead. by left.
  - apply (IH pre); [done| |done]. intros Hin. apply Hl1. by right.
Qed.

Lemma quiet_not_modes_query (l : list Event) res modes :
  Forall (fun e => quiet_event e = true) l ->
  Common (EvGetAllSupportedScanModes res modes) ∉ map Common l.
Proof.
  intros Hl Hin%common_in_lift. rewrite Forall_forall in Hl. by apply Hl in Hin.
Qed.

Lemma find_modes_query (t_p a tail : list Event) res_m motor res' modes'
    (pre post : list StatsEvent) res modes :
  Forall (fun e => quiet_event e = true) t_p ->
  Forall (fun e => quiet_event e = true) a ->
  Common (EvGetAllSupportedScanModes res modes) ∉ map Common tail ->
  map Common t_p ++ EvGetMotorInfo res_m motor
    :: map Common (a ++ EvGetAllSupportedScanModes res' modes' :: tail)
  = pre ++ Common (EvGetAllSupportedScanModes res modes) :: post ->
  res = res' /\ modes = modes' /\ post = map Common tail.
Proof.
  intros Hq Ha Htail Heq.
  rewrite map_app in Heq. cbn [map] in Heq.
  rewrite app_comm_cons, app_assoc in Heq.
  apply split_at_first in Heq as [[= -> ->] <-]; [done| |done].
  rewrite elem_of_app, elem_of_cons.
  intros [Hin|[?|Hin]]; [|done|]; by eapply quiet_not_modes_query, Hin.
Qed.

(** X14: when the query of the scan modes succeeds, [print_stats] prints
    the heading and one line for each enumerated mode, in the order of the
    enumeration, every name in a column as wide as the longest name, then
    issues [stop] and returns 0; when the query fails it prints the line of
    the failure on the error stream, issues no [stop] and returns -1. *)
Theorem print_stats_lists_the_modes (w : World E) (res : sl_result)
    (modes : list sl.LidarScanMode) (pre post : list StatsEvent) :
  (PrintStats.main w).2
  = pre ++ Common (EvGetAllSupportedScanModes res modes) :: post ->
  if SL_IS_FAIL res
  then post = [Common (EvPrint Stderr "Failed to get scan modes\n" [])]
       /\ (PrintStats.main w).1.1 = Ret (-1)
  else (exists stop_res,
          post = map Common
                   (EvPrint Stdout "Scan modes:\n" []
                    :: map (mode_line (SampleData.max_name_len modes)) modes
                    ++ [EvStop stop_res]))
       /\ (PrintStats.main w).1.1 = Ret 0.
Proof.
  destruct (print_stats_run w) as (r & e' & t & -> & Hout). cbn [fst snd].
  intros Heq.
  assert (Common (EvGetAllSupportedScanModes res modes) ∈ t) as Hin
    by (rewrite Heq, elem_of_app, elem_of_cons; auto).
  destruct Hout as [r_p r t_p Hp Hs|t_p res_m motor Hp Hres
                   |t_p res_m motor res' modes' Hp Hm Hres
                   |t_p res_m motor res' modes' stop_res Hp Hm Hres];
    pose proof (prologue_quiet _ _ Hp) as Hq.
  - exfalso. by eapply quiet_not_modes_query, Hin.
  - exfalso. apply elem_of_app in Hin as [Hin|Hin];
      [by eapply quiet_not_modes_query, Hin|].
    rewrite !elem_of_cons, elem_of_nil in Hin. by destruct Hin as [?|[?|[]]].
  - apply find_modes_query in Heq as (-> & -> & ->);
      [|done|apply motor_report_quiet
       |apply quiet_not_modes_query; by repeat constructor].
    by rewrite Hres.
  - apply find_modes_query in Heq as (-> & -> & ->);
      [|done|apply motor_report_quiet|].
    + rewrite Hres. split; [|done]. by exists stop_res.
    + rewrite map_app, elem_of_app. cbn [map]. rewrite list_elem_of_singleton.
      intros [Hin'|?]; [|done].
      by eapply quiet_not_modes_query, Hin'; apply modes_report_quiet.
Qed.

End Stats.

(** ** File names *)

Lemma chars_app (s1 s2 : string) : chars (s1 +:+ s2) = chars s1 ++ chars s2.
Proof.
  induction s1 as [|c s1 IH]; [done|].
  change (String c s1 +:+ s2) with (String c (s1 +:+ s2)).
  cbn [chars app]. by rewrite IH.
Qed.

Lemma chars_inj (s1 s2 : string) : chars s1 = chars s2 -> s1 = s2.
Proof.
  revert s2. induction s1 as [|c s1 IH]; intros [|c' s2] Heq; try done.
  cbn in Heq. injection Heq as -> Heq. f_equal. by apply IH.
Qed.

Lemma pretty_N_go_chars (x : N) (s : string) :
  Forall (fun c => c <> underscore) (chars s) ->
  Forall (fun c => c <> underscore) (chars (pretty_N_go x s)).
Proof.
  revert s. induction (N.lt_wf_0 x) as [x _ IH]; intros s Hs.
  destruct (decide (x = 0)%N) as [->|Hx]; [by rewrite pretty_N_go_0|].
  rewrite pretty_N_go_step by lia. apply IH; [apply N.div_lt; lia|].
  cbn [chars]. constructor; [|done].
  unfold pretty_N_char. by repeat case_match.
Qed.

Lemma pretty_Z_chars (z : Z) : Forall (fun c => c <> underscore) (chars (pretty z)).
Proof.
  assert (forall n : N, Forall (fun c => c <> underscore) (chars (pretty n))) as HN.
  { intros n. unfold pretty, pretty_N. case_decide; [by repeat constructor|].
    by apply pretty_N_go_chars. }
  destruct z as [|p|p]; [by repeat constructor|apply HN|].
  change (chars (pretty (Z.neg p))) with (chars "-" ++ chars (pretty (N.pos p))).
  apply Forall_app. split; [by repeat constructor|apply HN].
Qed.

Section FileNames.
Context `{Hdr : SlHeader}.

(** X15: the file name of a mode determines its identifier and its name:
    two modes are written to the same file exactly when they have the same
    identifier and the same name. *)
Theorem filename_determines_the_mode (m1 m2 : sl.LidarScanMode) :
  SampleData.filename m1 = SampleData.filename m2
  <-> sl.id m1 = sl.id m2 /\ sl.scan_mode m1 = sl.scan_mode m2.
Proof.
  split; [|by intros [Hid Hname]; unfold SampleData.filename; rewrite Hid, Hname].
  unfold SampleData.filename. intros Heq.
  apply (f_equal chars) in Heq. rewrite !chars_app in Heq.
  change (chars "_") with [underscore] in Heq. cbn [app] in Heq.
  assert (forall (l1 l2 r1 r2 : list Ascii.ascii) c,
            Forall (fun c' => c' <> c) l1 -> Forall (fun c' => c' <> c) l2 ->
            l1 ++ c :: r1 = l2 ++ c :: r2 -> l1 = l2 /\ r1 = r2) as Hsplit.
  { intros l1. induction l1 as [|a l1 IH]; intros [|b l2] r1 r2 c H1 H2 Hs;
      cbn in Hs.
    - by injection Hs as ->.
    - injection Hs as Hhead _. apply Forall_inv in H2. congruence.
    - injection Hs as Hhead _. apply Forall_inv in H1. congruence.
    - injection Hs as Hhead Htail.
      apply Forall_cons in H1 as [_ H1]. apply Forall_cons in H2 as [_ H2].
      destruct (IH l2 r1 r2 c H1 H2 Htail) as [-> ->]. by rewrite Hhead. }
  apply Hsplit in Heq as [Hid Hname]; [|apply pretty_Z_chars..].
  apply app_inv_tail in Hname.
  split; [by apply (inj pretty), chars_inj|by apply chars_inj].
Qed.

End FileNames.

(** ** The bootstrap of the report *)

Section StatsFailFast.
Context `{Hdr : SlHeader} `{MHdr : MotorHeader}.
Context {E : Type} `{Env : Sdk E} `{MEnv : MotorSdk E}.

(** X16: in [print_stats] as in the capture programs, a call of the
    bootstrap or the query of the scan modes whose answer fails the test of
    its caller is followed by the line of that failure on the error stream
    and by nothing else: no further call, no [stop]. *)
Theorem print_stats_failed_call_is_last (w : World E) (pre post : list StatsEvent)
    (e : Event) (fmt : string) (args : list FmtArg) :
  (PrintStats.main w).2 = pre ++ Common e :: post ->
  failure_report e = Some (fmt, args) ->
  post = [Common (EvPrint Stderr fmt args)]
  /\ (PrintStats.main w).1.1 <> Ret 0.
Proof.
  destruct (print_stats_run w) as (r & e' & t & -> & Hout). cbn [fst snd].
  intros Heq Hfail.
  assert (forall l, Forall (fun e => failure_report e = None) l ->
                    Common e ∉ map Common l) as Hnone.
  { intros l Hl Hin%common_in_lift. rewrite Forall_forall in Hl.
    apply Hl in Hin. congruence. }
  assert (Common e ∈ t) as Hin by (rewrite Heq, elem_of_app, elem_of_cons; auto).
  destruct Hout as [r_p r t_p Hp Hs|t_p res_m motor Hp Hres
                   |t_p res_m motor res modes Hp Hm Hres
                   |t_p res_m motor res modes stop_res Hp Hm Hres];
    destruct (prologue_fail_fast _ _ Hp) as [Hff Hquiet].
  - destruct (prologue_stopped _ _ Hp) as [->|(r' & Hr' & Hin')]; [done|].
    assert (r' = r) as -> by congruence.
    split.
    + assert (exists pre0 post0, t_p = pre0 ++ e :: post0
                                 /\ post = map Common post0) as (pre0 & post0 & -> & ->).
      { clear -Heq. revert pre Heq. induction t_p as [|a t_p IH]; intros pre Heq.
        - by destruct pre.
        - destruct pre as [|p pre]; cbn in Heq; injection Heq as Hhead Htail.
          + exists [], t_p. by rewrite Hhead, Htail.
          + destruct (IH pre Htail) as (pre0 & post0 & -> & ->).
            by exists (a :: pre0), post0. }
      by rewrite (Hff pre0 e post0 eq_refl fmt args Hfail).
    + rewrite !elem_of_cons, elem_of_nil in Hin'. intros ->.
      by destruct Hin' as [?|[?|[?|[]]]].
  - exfalso. apply elem_of_app in Hin as [Hin|Hin]; [by eapply Hnone, Hin; auto|].
    rewrite !elem_of_cons, elem_of_nil in Hin.
    destruct Hin as [?|[[= ->]|[]]]; done.
  - split; [|done].
    assert (failure_report (EvGetAllSupportedScanModes res modes)
            = Some ("Failed to get scan modes\n", [])) as Hrep
      by (cbn; by rewrite Hres).
    rewrite map_app in Heq. cbn [map] in Heq.
    rewrite app_comm_cons, app_assoc in Heq.
    apply split_at_first in Heq as [[= <-] <-].
    + rewrite Hrep in Hfail. by injection Hfail as <- <-.
    + rewrite elem_of_app, elem_of_cons.
      intros [Hin'|[?|Hin']]; [|done|]; eapply Hnone, Hin'; [by auto|].
      by repeat constructor.
    + by intros [[= ->]|[]%elem_of_nil]%elem_of_cons.
  - exfalso. apply elem_of_app in Hin as [Hin|Hin]; [by eapply Hnone, Hin; auto|].
    apply elem_of_cons in Hin as [?|Hin]; [done|].
    eapply Hnone, Hin. apply Forall_app. split; [by repeat constructor|].
    constructor; [cbn; by rewrite Hres|].
    apply Forall_app. split; [|by repeat constructor].
    constructor; [done|]. by apply Forall_map, Forall_forall.
Qed.

End StatsFailFast.

(** ** The error stream *)

Section ErrorStream.
Context `{Hdr : SlHeader} {E : Type} `{Env : Sdk E}.

Lemma device_info_report_silent devinfo :
  stderr_reports (device_info_report devinfo) = [].
Proof.
  apply omap_none, Forall_forall. intros e He.
  by apply device_info_report_prints in He as (fmt & args & ->).
Qed.

(** A prologue that stops has put one line on the error stream. *)
Lemma prologue_one_report r t :
  prologue_outcome r t ->
  r <> Ret None ->
  length (stderr_reports t) = 1%nat.
Proof.
  destruct 1; intros Hne; try done; unfold stderr_reports, session_opening;
    rewrite ?omap_app; cbn [omap list_omap app length];
    rewrite ?omap_app;
    fold (stderr_reports (device_info_report devinfo));
    rewrite ?device_info_report_silent; done.
Qed.

Lemma sweeps_silent k modes rps :
  length rps = length modes ->
  stderr_reports (concat (zip_with (sweep_events k) modes rps)) = [].
Proof. intros Hlen. by destruct (sweeps_observed k modes rps Hlen) as (_ & _ & _ & ? & _). Qed.

(** X17: a run of [sample_data] or of [read_data_bin] puts at most one
    line on the error stream, and it does so exactly when it ends with a
    status other than 0.  In particular [sample_data] returns 0 with an
    empty error stream whatever the retrievals returned, and
    [read_data_bin] is silent on the error stream as long as it runs. *)
Theorem one_line_on_the_error_stream (fuel : nat) (w : World E) :
  let silent_until_failure (run : Res Z * World E * list Event) :=
    (length (stderr_reports run.2) <= 1)%nat
    /\ (stderr_reports run.2 = []
        <-> exit_status run.1.1 = Some 0 \/ exit_status run.1.1 = None) in
  silent_until_failure (SampleData.main w)
  /\ silent_until_failure (ReadDataBin.main fuel w).
Proof.
  destruct (read_data_bin_run fuel w) as (r1 & e1 & fs1 & t1 & -> & Hrd).
  destruct (sample_data_run w) as (r2 & e2 & fs2 & t2 & -> & Hsd).
  cbn [fst snd].
  assert (forall r_p r t_p,
            prologue_outcome r_p t_p -> stopped r_p = Some r ->
            (length (stderr_reports t_p) <= 1)%nat
            /\ (stderr_reports t_p = []
                <-> exit_status r = Some 0 \/ exit_status r = None)) as Hstopped.
  { intros r_p r t_p Hp Hs.
    destruct (prologue_stopped _ _ Hp) as [->|(r' & Hr' & Hin)]; [done|].
    assert (r' = r) as -> by congruence.
    assert (r_p <> Ret None) as Hne by (intros ->; done).
    pose proof (prologue_one_report _ _ Hp Hne) as Hone.
    split; [lia|]. rewrite !elem_of_cons, elem_of_nil in Hin. split.
    - intros Hnil. rewrite Hnil in Hone. done.
    - destruct Hin as [->|[->|[->|[]]]]; by intros [|]. }
  split.
  - destruct Hsd as [r_p r t_p Hp Hs|t_p motor res modes Hp Hres
                    |t_p motor res modes rps stop_res Hp Hres Hlen Hoks].
    + by eapply Hstopped.
    + unfold stderr_reports. rewrite omap_app.
      fold (stderr_reports t_p). rewrite (prologue_healthy_silent _ Hp).
      cbn. split; [lia|]. split; [done|]. by intros [|].
    + destruct (swept_observed t_p motor res modes rps stop_res Hp Hlen)
        as (_ & _ & _ & Hsilent & _).
      cbv zeta in Hsilent. rewrite Hsilent. cbn. split; [lia|]. split; auto.
  - destruct Hrd as [r_p r t_p Hp Hs|t_p motor started rps Hp Hlen Hoks
                    |t_p motor started rps res nodes count stop_res Hp Hlen Hoks Hres].
    + by eapply Hstopped.
    + destruct (captures_observed rps) as (_ & _ & Hsilent & _).
      unfold stderr_reports in *. rewrite !omap_app.
      fold (stderr_reports t_p). rewrite (prologue_healthy_silent _ Hp), Hsilent.
      cbn. split; [lia|]. split; auto.
    + destruct (captures_observed rps) as (_ & _ & Hsilent & _).
      unfold stderr_reports in *. rewrite !omap_app.
      fold (stderr_reports t_p). rewrite (prologue_healthy_silent _ Hp), Hsilent.
      cbn. split; [lia|]. split; [done|]. by intros [|].
Qed.

End ErrorStream.

Section StatsErrorStream.
Context `{Hdr : SlHeader} `{MHdr : MotorHeader}.
Context {E : Type} `{Env : Sdk E} `{MEnv : MotorSdk E}.

(** X19: [print_stats] too puts at most one line on the error stream, and
    exactly when it does not return 0. *)
Theorem print_stats_error_stream (w : World E) :
  let reports := stderr_reports (stats_common (PrintStats.main w).2) in
  (length reports <= 1)%nat
  /\ (reports = [] <-> (PrintStats.main w).1.1 = Ret 0).
Proof.
  destruct (print_stats_run w) as (r & e' & t & -> & Hout). cbn [fst snd].
  assert (forall motor, stderr_reports (motor_report motor) = []) as Hmotor by done.
  assert (forall modes, stderr_reports (modes_report modes) = []) as Hmodes.
  { intros modes. unfold modes_report, stderr_reports. cbn [omap list_omap].
    apply omap_none, Forall_map, Forall_forall. done. }
  destruct Hout as [r_p r t_p Hp Hs|t_p res_m motor Hp Hres
                   |t_p res_m motor res modes Hp Hm Hres
                   |t_p res_m motor res modes stop_res Hp Hm Hres].
  - rewrite stats_common_lift.
    destruct (prologue_stopped _ _ Hp) as [->|(r' & Hr' & Hin)]; [done|].
    assert (r' = r) as -> by congruence.
    assert (r_p <> Ret None) as Hne by (intros ->; done).
    pose proof (prologue_one_report _ _ Hp Hne) as Hone.
    split; [lia|]. rewrite !elem_of_cons, elem_of_nil in Hin. split.
    + intros Hnil. rewrite Hnil in Hone. done.
    + intros ->. by destruct Hin as [?|[?|[?|[]]]].
  - rewrite stats_common_app, stats_common_lift, stats_common_motor.
    unfold stderr_reports. rewrite omap_app.
    fold (stderr_reports t_p). rewrite (prologue_healthy_silent _ Hp).
    cbn. split; [lia|]. by split.
  - rewrite stats_common_app, stats_common_lift, stats_common_motor, stats_common_lift.
    unfold stderr_reports. rewrite !omap_app.
    fold (stderr_reports t_p). fold (stderr_reports (motor_report motor)).
    rewrite (prologue_healthy_silent _ Hp), Hmotor.
    cbn. split; [lia|]. by split.
  - rewrite stats_common_app, stats_common_lift, stats_common_motor, stats_common_lift.
    unfold stderr_reports. rewrite !omap_app. cbn [omap list_omap]. rewrite omap_app.
    fold (stderr_reports t_p). fold (stderr_reports (motor_report motor)).
    fold (stderr_reports (modes_report modes)).
    rewrite (prologue_healthy_silent _ Hp), Hmotor, Hmodes.
    cbn. split; [lia|]. by split.
Qed.

End StatsErrorStream.

(** * The properties on concrete runs *)

Section Concrete.
Local Existing Instance slamtec_header.
Local Existing Instance scripted.
Local Existing Instance angle_le_dec.

(** Membership in a trace that has been computed. *)
Ltac in_computed := apply list_elem_of_In; vm_compute; tauto.

Lemma nth_seq_self {A} (l : list A) (d : nat -> A) :
  map (fun i => nth i l (d i)) (seq 0 (length l)) = l.
Proof.
  revert d. induction l as [|a l IH]; intros d; [done|].
  cbn [length seq map nth]. f_equal.
  rewrite <-seq_shift, map_map. apply (IH (fun i => d (S i))).
Qed.

(** The scripted reorder meets the contract of [ascendScanData]. *)
Lemma scripted_reorders : ascendScanData_reorders.
Proof.
  intros nodes count s. cbn [drv_ascendScanData scripted scripted_ascend fst snd].
  assert (Total angle_le) as Htotal by (intros a b; unfold angle_le; lia).
  pose proof (Sorted_merge_sort angle_le (slots nodes count)) as Hsorted.
  pose proof (merge_sort_Permutation angle_le (slots nodes count)) as Hperm.
  apply Permutation_length in Hperm. rewrite length_slots in Hperm.
  unfold slots at 1. rewrite <-Hperm, nth_seq_self. exact Hsorted.
Qed.




(** The same sweep: the mode that timed out leaves a file with the header
    alone, the other one a file that starts with the header. *)
Lemma every_mode_gets_a_table_witness :
  let w := boot (device 0 0 0 [Standard; Boost]
                   [(SL_RESULT_OPERATION_TIMEOUT, []); (0, two_samples)]) in
  let files := fs (SampleData.main w).1.2 in
  EvGetAllSupportedScanModes 0 [Standard; Boost] ∈ (SampleData.main w).2
  /\ SL_IS_FAIL 0 = false
  /\ files !! SampleData.filename Standard = Some [Formatted "theta,dist,q,flag\n" []]
  /\ exists rows,
       files !! SampleData.filename Boost
       = Some (Formatted "theta,dist,q,flag\n" [] :: rows).
Proof.
  intros w files.
  assert (EvGetAllSupportedScanModes 0 [Standard; Boost] ∈ (SampleData.main w).2)
    as Hin by in_computed.
  pose proof (every_mode_gets_a_table w 0 [Standard; Boost] Hin eq_refl)
    as (_ & _ & Hall & Hfailed & _).
  split_and!; [exact Hin|reflexivity| |].
  - apply (Hfailed [] Standard [Boost] SL_RESULT_OPERATION_TIMEOUT).
    + reflexivity.
    + vm_compute. reflexivity.
    + reflexivity.
    + intros Hdup. apply list_elem_of_In in Hdup. vm_compute in Hdup.
      destruct Hdup as [Hdup|[]]. discriminate Hdup.
  - apply Hall. in_computed.
Defined.

(** With the scripted reorder, the batch delivered out of order is written
    in ascending order by both programs. *)
Lemma exports_are_reordered_witness :
  let w := boot (device 0 0 0 [Standard] [(0, two_samples)]) in
  ascendScanData_reorders
  /\ ascending [sample 8192 4000; sample 16384 40]
  /\ forall f, f ∈ files_written (SampleData.main w).2 ->
       exists batch,
         f.2 = SampleData.header :: map SampleData.row batch /\ ascending batch.
Proof.
  intros w.
  pose proof (exports_are_reordered 2 w scripted_reorders)
    as (_ & Hbatches & _ & _ & Hfiles).
  assert (ascended (ReadDataBin.main 2 w).2
          = [[sample 8192 4000; sample 16384 40]]) as Hcomputed
    by (vm_compute; reflexivity).
  rewrite Hcomputed in Hbatches. apply Forall_inv in Hbatches.
  split_and!; [exact scripted_reorders|exact Hbatches|].
  intros f Hf. destruct (Hfiles f Hf) as (batch & Hrows & Hasc & _).
  exists batch. split; [exact Hrows|exact Hasc].
Defined.

(** One batch of two nodes, then a timeout: [data.bin] holds the count 2 on
    8 bytes and the two nodes of 8 bytes each, in ascending order. *)
Lemma capture_writes_whole_blocks_witness :
  let w := boot (device 0 0 0 []
                   [(0, two_samples); (SL_RESULT_OPERATION_TIMEOUT, [])]) in
  grab_results (ReadDataBin.main 3 w).2 = [0] ++ [SL_RESULT_OPERATION_TIMEOUT]
  /\ Forall (fun res => SL_IS_FAIL res = false) [0]
  /\ SL_IS_FAIL SL_RESULT_OPERATION_TIMEOUT = true
  /\ (ReadDataBin.main 3 w).1.1 = Ret (-1)
  /\ exists chunks,
       fs (ReadDataBin.main 3 w).1.2 !! "data.bin" = Some chunks
       /\ file_bytes chunks
          = size_t_repr 2 ++ node_repr (sample 8192 4000) ++ node_repr (sample 16384 40).
Proof.
  intros w.
  assert (grab_results (ReadDataBin.main 3 w).2 = [0] ++ [SL_RESULT_OPERATION_TIMEOUT])
    as Hgrabs by (vm_compute; reflexivity).
  assert (Forall (fun res => SL_IS_FAIL res = false) [0]) as Hoks
    by (repeat constructor).
  pose proof (capture_writes_whole_blocks 3 w [0] SL_RESULT_OPERATION_TIMEOUT
                Hgrabs Hoks eq_refl) as (Hret & _ & (chunks & Hfile & Hbytes) & _).
  split_and!; [exact Hgrabs|exact Hoks|reflexivity|exact Hret|].
  exists chunks. split; [exact Hfile|].
  rewrite Hbytes. vm_compute. reflexivity.
Defined.

(** A motor that fails to start: [read_data_bin] starts the scan all the
    same. *)
Lemma scan_starts_after_failed_motor_start :
  ~ motor_failure_is_fatal
      (ReadDataBin.main 1
         (boot (device 0 SL_RESULT_OPERATION_TIMEOUT 0 [] [(0, two_samples)]))).2.
Proof.
  intros Hfatal.
  apply (each_suffix_lookup _ _ 24 (EvSetMotorSpeed SL_RESULT_OPERATION_TIMEOUT))
    in Hfatal; [|vm_compute; reflexivity].
  pose proof (Hfatal eq_refl) as Hnone.
  apply (Forall_lookup_1 _ _ 2 (EvStartScan false true 0)) in Hnone;
    [discriminate Hnone|vm_compute; reflexivity].
Qed.

(** No device on the port, and a device that does not answer the connect:
    two failures of different classes, one exit status. *)
Lemma channel_and_operation_share_a_status :
  ~ classes_have_distinct_codes
      (SampleData.main (boot no_channel))
      (SampleData.main (boot no_connection)).
Proof.
  intros Hdistinct.
  apply (Hdistinct ChannelCreation Operational);
    [in_computed|in_computed|discriminate|vm_compute; reflexivity].
Qed.

(** The exit statuses of the two runs above. *)
Lemma fatal_paths_exit_status_witness :
  ChannelCreation ∈ failure_classes (SampleData.main (boot no_channel)).2
  /\ Operational ∈ failure_classes (SampleData.main (boot no_connection)).2
  /\ exit_status (SampleData.main (boot no_channel)).1.1 = Some (-1)
  /\ exit_status (SampleData.main (boot no_connection)).1.1 = Some (-1).
Proof.
  assert (ChannelCreation ∈ failure_classes (SampleData.main (boot no_channel)).2)
    as Hchannel by in_computed.
  assert (Operational ∈ failure_classes (SampleData.main (boot no_connection)).2)
    as Hconnect by in_computed.
  pose proof (fatal_paths_exit_status 1 (boot no_channel) ChannelCreation)
    as (_ & Hstatus & _).
  split_and!; [exact Hchannel|exact Hconnect|exact (Hstatus Hchannel)|].
  vm_compute. reflexivity.
Defined.

(** A raw distance of 2^24 + 1 is not a [float]: the exported distance is
    4194304, not 4194304.25. *)
Lemma large_distance_is_rounded : ~ conversion_is_exact (sample 0 16777217).
Proof.
  intros (qa & qd & _ & _ & Hdist & Hvalue).
  assert (float_value (SampleData.dist (sample 0 16777217)) = Some (8388608 # 2))
    as Hcomputed by (vm_compute; reflexivity).
  rewrite Hcomputed in Hdist. injection Hdist as <-.
  unfold Qeq in Hvalue. cbn in Hvalue. discriminate Hvalue.
Qed.

(** The known values: a raw angle of 16384 is exported as 90 degrees and a
    raw distance of 40 as 10 mm. *)
Lemma conversion_at_export_witness :
  let n := sample 16384 40 in
  let w := boot (device 0 0 0 [Standard] [(0, two_samples)]) in
  0 <= sl.angle_z_q14 n < 65536
  /\ 0 <= sl.dist_mm_q2 n < 2 ^ 24
  /\ conversion_is_exact n
  /\ exists qa qd,
       float_value (SampleData.theta n) = Some qa /\ (qa == 90)%Q
       /\ float_value (SampleData.dist n) = Some qd /\ (qd == 10)%Q.
Proof.
  intros n w.
  pose proof (conversion_at_export 1 w) as (Hexact & Hknown & _).
  assert (0 <= sl.angle_z_q14 n < 65536) as Hangle by (cbn; lia).
  assert (0 <= sl.dist_mm_q2 n < 2 ^ 24) as Hdist by (cbn; lia).
  exact (conj Hangle (conj Hdist (conj (Hexact n Hangle Hdist)
                                       (Hknown n eq_refl eq_refl)))).
Defined.

(** A device whose status is ERROR (2): [sample_data] returns -1 after the
    report and starts neither motor nor scan. *)
Lemma health_error_blocks_scanning_witness :
  let w := boot (device 2 0 0 [Standard] [(0, two_samples)]) in
  SL_IS_OK 0 = true
  /\ EvGetHealth 0 SL_LIDAR_STATUS_ERROR ∈ (SampleData.main w).2
  /\ (SampleData.main w).1.1 = Ret (-1)
  /\ Forall (fun e => starts_motor_or_scan e = false) (SampleData.main w).2.
Proof.
  intros w.
  pose proof (health_error_blocks_scanning 1 w 0 eq_refl) as (_ & Hsd & _).
  assert (EvGetHealth 0 SL_LIDAR_STATUS_ERROR ∈ (SampleData.main w).2) as Hin
    by in_computed.
  destruct (Hsd Hin) as (Hr & Hm & _). done.
Defined.

(** A device whose scan start times out in every mode: both modes are
    started in order, and each failed start is followed by the report of
    the mode and by the retrieval; the sweep returns 0. *)
Lemma scan_start_result_is_ignored_witness :
  let w := boot (device 0 0 SL_RESULT_OPERATION_TIMEOUT [Standard; Boost]
                   [(0, two_samples); (0, two_samples)]) in
  let t := (SampleData.main w).2 in
  EvGetAllSupportedScanModes 0 [Standard; Boost] ∈ t
  /\ SL_IS_FAIL 0 = false
  /\ SL_IS_FAIL SL_RESULT_OPERATION_TIMEOUT = true
  /\ EvStartScanExpress false 0 0 SL_RESULT_OPERATION_TIMEOUT Standard ∈ t
  /\ EvStartScanExpress false 2 0 SL_RESULT_OPERATION_TIMEOUT Boost ∈ t
  /\ express_modes t = [0; 2]
  /\ length (grab_results t) = 2%nat
  /\ (SampleData.main w).1.1 = Ret 0
  /\ exists pre res_start actualMode mid res_grab nodes count rest,
       t = pre
           ++ EvStartScanExpress false 2 0 res_start actualMode
           :: EvPrint Stdout "    Working in mode {} {}\n"
                [ArgInt (sl.id actualMode); ArgStr (sl.scan_mode actualMode)]
           :: EvClockNow mid
           :: EvPrint Stdout "    Got {} points\n" [ArgInt 8192]
           :: EvGrabScanDataHq 8192 res_grab nodes count
           :: rest
       /\ length (grab_results pre) = 1%nat.
Proof.
  intros w t.
  assert (EvGetAllSupportedScanModes 0 [Standard; Boost] ∈ t) as Hin by in_computed.
  assert (EvStartScanExpress false 0 0 SL_RESULT_OPERATION_TIMEOUT Standard ∈ t)
    as Hfirst by in_computed.
  assert (EvStartScanExpress false 2 0 SL_RESULT_OPERATION_TIMEOUT Boost ∈ t)
    as Hsecond by in_computed.
  destruct (scan_start_result_is_ignored w 0 [Standard; Boost])
    as [_ Hmodes].
  destruct (Hmodes Hin eq_refl) as (Hstarts & Hgrabs & _ & Hret & Heach).
  destruct (Heach 1%nat Boost eq_refl)
    as (pre & res_start & actualMode & mid & res_grab & nodes & count & rest
        & Hsplit & _ & Hbefore).
  split_and!; [exact Hin|reflexivity|reflexivity|exact Hfirst|exact Hsecond
              |exact Hstarts|exact Hgrabs|exact Hret|].
  exists pre, res_start, actualMode, mid, res_grab, nodes, count, rest.
  split; [exact Hsplit|exact Hbefore].
Defined.

End Concrete.

(** * The further properties on concrete runs *)

Section MoreConcrete.
Local Existing Instance slamtec_header.
Local Existing Instance scripted.
Local Existing Instance angle_le_dec.

Ltac in_trace := apply list_elem_of_In; vm_compute; tauto.

(** A device that does not answer the connect: the report is the last
    event of [sample_data]. *)
Lemma failed_call_is_reported_and_last_witness :
  let t := (SampleData.main (boot no_connection)).2 in
  t !! 2%nat = Some (EvConnect SL_RESULT_OPERATION_TIMEOUT)
  /\ drop 3 t
     = [EvPrint Stderr "Failed to connect channel to driver: {}\n"
          [ArgStr "OPERATION_TIMEOUT"]].
Proof.
  intros t.
  pose proof (failed_call_is_reported_and_last 1 (boot no_connection)) as [_ Hsd].
  assert (t !! 2%nat = Some (EvConnect SL_RESULT_OPERATION_TIMEOUT)) as Hcall
    by (vm_compute; reflexivity).
  split; [exact Hcall|].
  exact (each_suffix_lookup _ _ 2 _ Hsd Hcall _ _ eq_refl).
Defined.

(** Two enumerated modes with one file name: the file holds the table of
    the second, whose retrieval timed out, and the two rows of the first
    are lost. *)
Lemma sweep_file_system_effect_witness :
  let w := boot (device 0 0 0 [Standard; Standard_again]
                   [(0, two_samples); (SL_RESULT_OPERATION_TIMEOUT, [])]) in
  EvGetAllSupportedScanModes 0 [Standard; Standard_again] ∈ (SampleData.main w).2
  /\ SL_IS_FAIL 0 = false
  /\ length (default [] (snd <$> files_written (SampleData.main w).2 !! 0%nat)) = 3%nat
  /\ fs (SampleData.main w).1.2 !! SampleData.filename Standard_again
     = Some [SampleData.header].
Proof.
  intros w.
  assert (EvGetAllSupportedScanModes 0 [Standard; Standard_again]
            ∈ (SampleData.main w).2) as Hin by in_trace.
  pose proof (sweep_file_system_effect w 0 [Standard; Standard_again] Hin eq_refl)
    as (_ & _ & Hlast).
  split_and!; [exact Hin|reflexivity|vm_compute; reflexivity|].
  apply (Hlast [Standard] Standard_again []).
  - reflexivity.
  - apply not_elem_of_nil.
  - vm_compute. reflexivity.
Defined.

(** The codes of the Slamtec header are distinct, so each has its name. *)
Lemma resultErrorString_names_witness :
  NoDup named_results
  /\ map resultErrorString named_results
     = ["No Error"; "ALREADY_DONE"; "INVALID_DATA"; "OPERATION_FAIL";
        "OPERATION_TIMEOUT"; "OPERATION_STOP"; "OPERATION_NOT_SUPPORT";
        "FORMAT_NOT_SUPPORT"; "INSUFFICIENT_MEMORY"]
  /\ resultErrorString 7 = "Other Error".
Proof.
  assert (NoDup named_results) as Hdistinct
    by (apply (bool_decide_unpack _); vm_compute; exact I).
  assert (7 ∉ named_results) as Hother
    by (apply (bool_decide_unpack _); vm_compute; exact I).
  destruct (resultErrorString_names 7) as (_ & Hdefault & Hnames).
  destruct (Hnames Hdistinct) as (Hall & _).
  exact (conj Hdistinct (conj Hall (Hdefault Hother))).
Defined.

(** A quarter turn at 10 mm. *)
Lemma exported_values_in_range_witness :
  let n := sample 16384 40 in
  0 <= sl.angle_z_q14 n < 65536
  /\ exists q, float_value (SampleData.theta n) = Some q /\ (0 <= q)%Q /\ (q < 360)%Q.
Proof.
  intros n.
  assert (0 <= sl.angle_z_q14 n < 65536) as Hangle by (cbn; lia).
  destruct (exported_values_in_range n) as (Htheta & _).
  exact (conj Hangle (Htheta Hangle)).
Defined.

(** Two modes with one identifier and one name have one file name. *)
Lemma filename_determines_the_mode_witness :
  SampleData.filename Standard = SampleData.filename Standard_again
  /\ sl.id Standard = sl.id Standard_again
  /\ sl.scan_mode Standard = sl.scan_mode Standard_again.
Proof.
  assert (SampleData.filename Standard = SampleData.filename Standard_again) as Hsame
    by (vm_compute; reflexivity).
  destruct (proj1 (filename_determines_the_mode Standard Standard_again) Hsame)
    as [Hid Hname].
  exact (conj Hsame (conj Hid Hname)).
Defined.

End MoreConcrete.

Section EndlessRun.
Local Existing Instance slamtec_header.
Local Existing Instance endless.

(** The device whose retrievals never fail: after five iterations
    [read_data_bin] is still running and has reordered five batches. *)
Lemma capture_loop_never_ends_witness :
  let w := boot (device 0 0 0 [] []) in
  (forall capacity e, SL_IS_FAIL (drv_grabScanDataHq capacity e).1.1.1 = false)
  /\ (ReadDataBin.main 0 w).1.1 = Running
  /\ (ReadDataBin.main 5 w).1.1 = Running
  /\ length (ascended (ReadDataBin.main 5 w).2) = 5%nat.
Proof.
  intros w.
  assert (forall capacity e,
            SL_IS_FAIL (drv_grabScanDataHq capacity e).1.1.1 = false) as Hgood
    by (intros capacity e; reflexivity).
  assert ((ReadDataBin.main 0 w).1.1 = Running) as Hloop by (vm_compute; reflexivity).
  destruct (capture_loop_never_ends w Hgood Hloop 5) as (Hrun & Hlen & _).
  exact (conj Hgood (conj Hloop (conj Hrun Hlen))).
Defined.

End EndlessRun.

Section ConcreteReport.
Local Existing Instance slamtec_header.
Local Existing Instance scripted.
Local Existing Instance slamtec_motor_header.
Local Existing Instance angle_le_dec.

(** A healthy device with two modes: [print_stats] lists them after the
    heading, issues [stop] and returns 0. *)
Lemma print_stats_lists_the_modes_witness :
  let MEnv := scripted_motor (0, rpm_motor) in
  let w := boot (device 0 0 0 [Standard; Boost] []) in
  let t := (PrintStats.main w).2 in
  t = take 29 t ++ Common (EvGetAllSupportedScanModes 0 [Standard; Boost]) :: drop 30 t
  /\ (exists stop_res,
        drop 30 t
        = map Common [EvPrint Stdout "Scan modes:\n" [];
                      mode_line 8 Standard; mode_line 8 Boost; EvStop stop_res])
  /\ (PrintStats.main w).1.1 = Ret 0.
Proof.
  intros MEnv w t.
  assert (t = take 29 t ++ Common (EvGetAllSupportedScanModes 0 [Standard; Boost])
                :: drop 30 t) as Hsplit by (vm_compute; reflexivity).
  pose proof (print_stats_lists_the_modes w 0 [Standard; Boost] _ _ Hsplit)
    as [[stop_res Hpost] Hret].
  split_and!; [exact Hsplit| |exact Hret].
  exists stop_res. rewrite Hpost. vm_compute. reflexivity.
Defined.

(** No device on the port: [print_stats] ends after the report. *)
Lemma print_stats_failed_call_is_last_witness :
  let MEnv := scripted_motor (0, rpm_motor) in
  let e := EvCreateSerialPortChannel "/dev/ttyUSB0" 115200
             SL_RESULT_OPERATION_FAIL nullptr in
  (PrintStats.main (boot no_channel)).2
  = [] ++ Common e
       :: [Common (EvPrint Stderr "Failed to create channel: {}\n"
                     [ArgStr "OPERATION_FAIL"])]
  /\ failure_report e
     = Some ("Failed to create channel: {}\n", [ArgStr "OPERATION_FAIL"])
  /\ (PrintStats.main (boot no_channel)).1.1 <> Ret 0.
Proof.
  intros MEnv e.
  assert ((PrintStats.main (boot no_channel)).2
          = [] ++ Common e
               :: [Common (EvPrint Stderr "Failed to create channel: {}\n"
                             [ArgStr "OPERATION_FAIL"])]) as Htrace
    by (vm_compute; reflexivity).
  assert (failure_report e
          = Some ("Failed to create channel: {}\n", [ArgStr "OPERATION_FAIL"]))
    as Hreport by (vm_compute; reflexivity).
  destruct (print_stats_failed_call_is_last (boot no_channel) _ _ _ _ _
              Htrace Hreport) as [_ Hret].
  exact (conj Htrace (conj Hreport Hret)).
Defined.

End ConcreteReport.
